(** * DAPHNE vectorized runtime: MTWrapper.h and GenGivenVals.h

    A shallow embedding of the scheduler facade of
    [src/runtime/local/vectorized/MTWrapper.h] and of the test data
    generator [src/runtime/local/datagen/GenGivenVals.h], followed by the
    properties the specification states about them.

    Conventions.
    - [size_t] and [uint32_t] values are [N] with the wrap-around written
      out ([wrap64], [wrap32]); [int] and [int64_t] values are [Z].
    - A C array is a [list]; an access outside it is undefined behaviour and
      is modelled by [None] in the [option] monad, as is every other
      undefined operation (a null stream handed to [fgets], a division by
      zero, a failed [assert]).
    - Counters that only index an in-memory array are [nat].

    Part I holds the definitions, Part II the lemmas and theorems. *)

From Stdlib Require Import ZArith NArith Lia Bool String Ascii.
From Stdlib Require Import SpecFloat.
From stdpp Require Import base option list.


(** * Part I: the embedding *)

(** ** Machine integers *)

Module Machine.

(** Arithmetic on [size_t] is modulo [2^64], on [uint32_t] modulo [2^32]. *)
Definition wrap64 (n : N) : N := (n mod 2 ^ 64)%N.
Definition wrap32 (n : N) : N := (n mod 2 ^ 32)%N.

Definition ULONG_MAX : N := (2 ^ 64 - 1)%N.

(** Conversions between signed and unsigned types. *)
Definition int_of_uint32 (n : N) : Z :=
  let z := Z.of_N (wrap32 n) in
  if (z <? 2 ^ 31)%Z then z else (z - 2 ^ 32)%Z.
Definition uint32_of_Z (z : Z) : N := Z.to_N (z mod 2 ^ 32).
Definition size_t_of_Z (z : Z) : N := Z.to_N (z mod 2 ^ 64).

Definition int_range (z : Z) : Prop := (- 2 ^ 31 <= z < 2 ^ 31)%Z.

(** Single precision ([float]): IEEE 754 binary32, that is, 24 bits of
    precision with the exponent of the infinities at 128. An integer is
    converted by rounding to nearest, ties to even. *)
Definition float := spec_float.
Definition float_of_Z (n : Z) : float := binary_normalize 24 128 n 0 false.
Definition float_of_size_t (n : N) : float := float_of_Z (Z.of_N n).
Definition float_div (x y : float) : float := SFdiv 24 128 x y.
Definition float_ltb (x y : float) : bool := SFltb x y.
Definition float_one : float := float_of_Z 1.

End Machine.
Import Machine.

(** ** A counted [for] loop whose body may fault

    [for_range start n body s] runs [body start], [body (start+1)], ...,
    [body (start+n-1)], threading the state, and stops at the first fault. *)

Fixpoint for_range {S : Type} (start n : nat)
    (body : nat → S → option S) (s : S) : option S :=
  match n with
  | O => Some s
  | Datatypes.S n' => body start s ≫= for_range (Datatypes.S start) n' body
  end.

(** ** Descriptors of the vectorized pipeline ([mlir::daphne])

    The two enumerations are declared outside the sources at hand; their
    values are the ones the specification lists. The code refers to
    [VectorSplit::ROWS] and [VectorCombine::ADD] only. *)

Inductive VectorSplit := SplitNONE | SplitROWS.
Inductive VectorCombine := CombineROWS | CombineCOLS | CombineADD | CombineNONE.

#[global] Instance VectorSplit_eq_dec : EqDecision VectorSplit.
Proof. solve_decision. Defined.
#[global] Instance VectorCombine_eq_dec : EqDecision VectorCombine.
Proof. solve_decision. Defined.

(** What the scheduler observes of an input handle ([Structure*]): the
    results of [getNumRows()], [getNumCols()] and [getNumItems()]. *)
Record Structure := mkStructure {
  getNumRows : N;
  getNumCols : N;
  getNumItems : N
}.

(** An accelerator context, through its memory budget in bytes. *)
Record CUDAContext := mkCUDAContext { getMemBudget : N }.

(** The fields of the runtime context ([DCTX]) the scheduler reads.
    [config_numberOfThreads] is the [int] field [config.numberOfThreads]. *)
Record DaphneContext := mkContext {
  config_numberOfThreads : Z;
  useCUDA : bool;
  cuda_contexts : list CUDAContext
}.

(** ** Matrices

    [DenseMatrix.h], [CSRMatrix.h] and [DataObjectFactory.h] are not part of
    the sources at hand; the two layouts and the factory are modelled from
    the interface the code uses and from the specification (sections 3 and
    6). *)

Module Matrix.

(** Row-major contiguous values of an [R x C] dense matrix. *)
Record DenseMatrix (VT : Type) := mkDense {
  dm_numRows : nat;
  dm_numCols : nat;
  dm_values : list VT
}.
Arguments mkDense {VT} _ _ _.
Arguments dm_numRows {VT} _.
Arguments dm_numCols {VT} _.
Arguments dm_values {VT} _.

(** Value array, column-index array and row-offset array of a sparse
    matrix in compressed-sparse-row layout. *)
Record CSRMatrix (VT : Type) := mkCSR {
  csr_numRows : nat;
  csr_numCols : nat;
  csr_values : list VT;
  csr_colIdxs : list nat;
  csr_rowOffsets : list nat
}.
Arguments mkCSR {VT} _ _ _ _ _.
Arguments csr_numRows {VT} _.
Arguments csr_numCols {VT} _.
Arguments csr_values {VT} _.
Arguments csr_colIdxs {VT} _.
Arguments csr_rowOffsets {VT} _.

Section Factory.
Context {VT : Type}.
(** [VT(0)]. *)
Variable zero : VT.
(** What a buffer that is allocated but not zeroed happens to hold: cell
    [k] of a fresh value buffer holds [stale k], cell [k] of a fresh
    index buffer holds [stale_idx k]. Nothing is known about them. *)
Variable stale : nat → VT.
Variable stale_idx : nat → nat.

Definition fresh_values (n : nat) (zeroed : bool) : list VT :=
  if zeroed then replicate n zero else stale <$> seq 0 n.
Definition fresh_indices (n : nat) (zeroed : bool) : list nat :=
  if zeroed then replicate n 0 else stale_idx <$> seq 0 n.

(** Modelled from the spec: [DataObjectFactory::create<DenseMatrix<VT>>
    (rows, cols, zeroInit)], a dense matrix of that shape whose
    [rows * cols] cells are zero iff [zeroInit]. *)
Definition create_dense (numRows numCols : nat) (zeroed : bool)
    : DenseMatrix VT :=
  mkDense numRows numCols (fresh_values (numRows * numCols) zeroed).

(** Modelled from the spec: [DataObjectFactory::create<CSRMatrix<VT>>
    (rows, cols, nnz, zeroInit)], a CSR matrix with room for [nnz]
    values and column indices and [rows + 1] row offsets, zeroed iff
    [zeroInit]. *)
Definition create_csr (numRows numCols maxNumNonZeros : nat)
    (zeroed : bool) : CSRMatrix VT :=
  mkCSR numRows numCols
    (fresh_values maxNumNonZeros zeroed)
    (fresh_indices maxNumNonZeros zeroed)
    (fresh_indices (numRows + 1) zeroed).

(** Modelled from the spec: the cell [(r, c)] of a dense matrix, at
    position [r * numCols + c] of the row-major value array. *)
Definition dense_get (m : DenseMatrix VT) (r c : nat) : option VT :=
  if decide (r < dm_numRows m ∧ c < dm_numCols m)
  then dm_values m !! (r * dm_numCols m + c)%nat
  else None.

(** Modelled from the spec: the cell [(r, c)] of a CSR matrix: the value
    stored with column index [c] between [rowOffsets[r]] and
    [rowOffsets[r+1]], zero when there is none. *)
Fixpoint csr_find (c : nat) (cols : list nat) (vals : list VT) : VT :=
  match cols, vals with
  | c' :: cols', v :: vals' =>
      if decide (c' = c) then v else csr_find c cols' vals'
  | _, _ => zero
  end.

Definition csr_get (m : CSRMatrix VT) (r c : nat) : option VT :=
  if decide (r < csr_numRows m ∧ c < csr_numCols m) then
    lo ← csr_rowOffsets m !! r;
    hi ← csr_rowOffsets m !! (r + 1)%nat;
    Some (csr_find c (take (hi - lo) (drop lo (csr_colIdxs m)))
                     (take (hi - lo) (drop lo (csr_values m))))
  else None.
End Factory.

(** Writing and copying into a buffer; outside the buffer it is undefined. *)
Definition store {A : Type} (buf : list A) (i : nat) (x : A) : option (list A) :=
  if decide (i < length buf) then Some (<[i := x]> buf) else None.

Definition memcpy {A : Type} (dst src : list A) (n : nat) : option (list A) :=
  if decide (n ≤ length dst ∧ n ≤ length src)
  then Some (take n src ++ drop n dst)
  else None.

End Matrix.
Import Matrix.

(** ** MTWrapper.h *)

Module MTWrapper.

(** *** Construction: the worker counts *)

Record MTWrapperBase := mkWrapper {
  _numThreads : N;
  _numCPPThreads : N;
  _numCUDAThreads : N;
  topology_physical_ids : list Z;
  topology_unique_threads : list Z
}.

(** [MTWrapperBase(numThreads, numFunctions, ctx)]. [hardware_concurrency]
    is what [std::thread::hardware_concurrency()] reports, an
    [unsigned int]. The constructor does not look at [numThreads]. The line
    debug builds print is left out. *)
Definition construct (hardware_concurrency : N)
    (numThreads numFunctions : N) (ctx : DaphneContext) : MTWrapperBase :=
  let numThreads0 :=
    if (0 <? config_numberOfThreads ctx)%Z
    then uint32_of_Z (config_numberOfThreads ctx)
    else hardware_concurrency in
  let numCUDAThreads :=
    if useCUDA ctx && (1 <? numFunctions)%N
    then wrap32 (N.of_nat (length (cuda_contexts ctx)))
    else 0%N in
  let numCPPThreads := numThreads0 in
  {| _numThreads := wrap32 (numCPPThreads + numCUDAThreads);
     _numCPPThreads := numCPPThreads;
     _numCUDAThreads := numCUDAThreads;
     topology_physical_ids := [];
     topology_unique_threads := [] |}.

Section Base.
(** The matrix type [DT] the wrapper is instantiated with, through the
    operations the base class uses: [sizeof(DT::VT)],
    [DataObjectFactory::create<DT>(rows, cols, zero)] and
    [DT::bufferSize()]. [create] stands for a call of the factory that
    returns; where the factory throws instead, for a matrix it cannot
    reserve the cells of, the run ends there and nothing is stated
    about it. *)
Context {DT : Type}.
Variable sizeof_VT : N.
Variable create : N → N → bool → DT.
Variable bufferSize : DT → N.

(** *** getInputProperties *)

Definition getInputProperties (inputs : list Structure) (numInputs : nat)
    (splits : list VectorSplit) : option (N * N) :=
  for_range 0 numInputs (λ i '(len, mem_required),
    split ← splits !! i;
    if decide (split = SplitROWS) then
      input ← inputs !! i;
      Some (N.max len (getNumRows input),
            wrap64 (mem_required + wrap64 (getNumItems input * sizeof_VT)))
    else Some (len, mem_required)) (0%N, 0%N).

(** *** allocateOutput

    [res[i]] points to the slot of output [i]; a slot holds a matrix or
    is null ([None]). The result is the slots after the call and the
    number of bytes allocated. *)

Definition allocateOutput (res : list (option DT)) (numOutputs : nat)
    (outRows outCols : list Z) (combines : list VectorCombine)
    : option (list (option DT) * N) :=
  for_range 0 numOutputs (λ i '(res, mem_required),
    slot ← res !! i;
    match slot with
    | Some _ => Some (res, mem_required)
    | None =>
        rows ← outRows !! i;
        if decide (rows = (-1)%Z) then Some (res, mem_required) else
        cols ← outCols !! i;
        if decide (cols = (-1)%Z) then Some (res, mem_required) else
        combine ← combines !! i;
        let zeroOut := bool_decide (combine = CombineADD) in
        let m := create (size_t_of_Z rows) (size_t_of_Z cols) zeroOut in
        Some (<[i := Some m]> res, wrap64 (mem_required + bufferSize m))
    end) (res, 0%N).

(** *** cudaPrefetchInputs

    The result is the list of inputs, by index and in order, on which
    [getValuesCUDA()] is called, that is, which are moved to the
    device. [buffer_usage] is a [float]; the comparison with the [double]
    [1.0] widens it without changing its value. The line debug builds
    print is left out. *)

Definition buffer_usage (mem_required budget : N) : float :=
  float_div (float_of_size_t mem_required) (float_of_size_t budget).

Definition cudaPrefetchInputs (ctx : DaphneContext)
    (inputs : list Structure) (numInputs : nat) (mem_required : N)
    (splits : list VectorSplit) : option (list nat) :=
  cctx ← cuda_contexts ctx !! 0%nat;
  if float_ltb (buffer_usage mem_required (getMemBudget cctx)) float_one then
    for_range 0 numInputs (λ i prefetched,
      split ← splits !! i;
      if decide (split = SplitROWS) then
        _ ← inputs !! i;
        Some (prefetched ++ [i])
      else Some prefetched) []
  else Some [].

End Base.

(** *** combineOutputs, the specialization for [CSRMatrix<VT>]

    The body is empty: the slots of the CPU results and of the
    accelerator results are returned as they were. *)

Definition combineOutputs_CSR {VT : Type}
    (res res_cuda : list (option (CSRMatrix VT))) (numOutputs : nat)
    (combines : list VectorCombine)
    : list (option (CSRMatrix VT)) * list (option (CSRMatrix VT)) :=
  (res, res_cuda).

(** *** Reading the CPU-info stream *)

Definition newline : ascii := ascii_of_nat 10.

(** [fgets(buffer, size, stream)] on a stream that still holds characters:
    at most [n = size - 1] of them, up to and including the first newline.
    The result is the buffer and the rest of the stream. *)
Fixpoint fgets_chars (n : nat) (stream : string) : string * string :=
  match n, stream with
  | O, _ => (EmptyString, stream)
  | _, EmptyString => (EmptyString, EmptyString)
  | Datatypes.S n', String c rest =>
      if Ascii.eqb c newline then (String c EmptyString, rest)
      else let '(buf, rest') := fgets_chars n' rest in (String c buf, rest')
  end.

(** [fgets] returns [NULL] ([None]) at the end of the stream. *)
Definition fgets (size : nat) (stream : string) : option (string * string) :=
  match stream with
  | EmptyString => None
  | _ => Some (fgets_chars (size - 1) stream)
  end.

(** The buffers the loop [while (fgets(buffer, 128, f) != NULL)] sees.
    Every call takes at least one character, so the length of the stream
    bounds the number of iterations. *)
Fixpoint fgets_loop (fuel : nat) (stream : string) : list string :=
  match fuel with
  | O => []
  | Datatypes.S fuel' =>
      match fgets 128 stream with
      | None => []
      | Some (buffer, rest) => buffer :: fgets_loop fuel' rest
      end
  end.

Definition fgets_buffers (stream : string) : list string :=
  fgets_loop (String.length stream) stream.

(** [strstr(buffer, ":")] followed by [ptr++]: the text after the first
    colon, [None] ([NULL]) when there is no colon. *)
Fixpoint after_colon (buffer : string) : option string :=
  match buffer with
  | EmptyString => None
  | String c rest => if Ascii.eqb c ":"%char then Some rest else after_colon rest
  end.

(** [_parse_buffer]: [None] when it returns false, [Some valptr] when it
    returns true, where [valptr] may be [NULL]. *)
Definition _parse_buffer (buffer keyword : string) : option (option string) :=
  if String.prefix keyword buffer then Some (after_colon buffer) else None.

(** [strtoul(s, NULL, 10)]: leading white space, an optional sign, then
    decimal digits; [ULONG_MAX] when the digits do not fit. *)
Definition isspace (c : ascii) : bool :=
  let n := nat_of_ascii c in
  (n =? 32)%nat || ((9 <=? n)%nat && (n <=? 13)%nat).

Definition digit_of (c : ascii) : option N :=
  let n := N_of_ascii c in
  if ((48 <=? n) && (n <=? 57))%N then Some (n - 48)%N else None.

Fixpoint skip_spaces (s : string) : string :=
  match s with
  | String c rest => if isspace c then skip_spaces rest else s
  | EmptyString => s
  end.

Fixpoint digits_value (acc : N) (s : string) : N :=
  match s with
  | String c rest =>
      match digit_of c with
      | Some d => digits_value (10 * acc + d)%N rest
      | None => acc
      end
  | EmptyString => acc
  end.

Definition strtoul (s : string) : N :=
  let s1 := skip_spaces s in
  let '(negative, s2) :=
    match s1 with
    | String c rest =>
        if Ascii.eqb c "-"%char then (true, rest)
        else if Ascii.eqb c "+"%char then (false, rest)
        else (false, s1)
    | EmptyString => (false, s1)
    end in
  let v := digits_value 0 s2 in
  if (ULONG_MAX <? v)%N then ULONG_MAX
  else if negative then wrap64 (2 ^ 64 - v) else v.

(** [_parse_line]: the outer [option] is the fault of handing [NULL] to
    [strtoul]; inside, [None] when it returns false and [Some v] when it
    returns true with [*val = v], a [uint32_t]. *)
Definition _parse_line (buffer keyword : string) : option (option N) :=
  match _parse_buffer buffer keyword with
  | Some valptr => s ← valptr; Some (Some (wrap32 (strtoul s)))
  | None => Some None
  end.

(** *** get_topology *)

Record topology_state := mkTopo {
  hardware_threads : list Z;
  physical_ids : list Z;
  core_ids : list Z;
  unique_threads : list Z;
  index : nat
}.

(** The inner loop: how many of the first [index] processors have the
    core id [value] and the physical id of processor [index]. *)
Definition count_found (st : topology_state) (value : N) : option nat :=
  for_range 0 (index st) (λ i found,
    c ← core_ids st !! i;
    if decide (uint32_of_Z c = value) then
      p ← physical_ids st !! i;
      q ← physical_ids st !! index st;
      Some (if decide (p = q) then Datatypes.S found else found)
    else Some found) 0%nat.

(** The body of the [while] loop on one buffer. *)
Definition topology_line (buffer : string) (st : topology_state)
    : option topology_state :=
  r ← _parse_line buffer "processor";
  match r with
  | Some value =>
      Some (mkTopo (hardware_threads st ++ [int_of_uint32 value])
              (physical_ids st) (core_ids st) (unique_threads st) (index st))
  | None =>
  r ← _parse_line buffer "physical id";
  match r with
  | Some value =>
      Some (mkTopo (hardware_threads st)
              (physical_ids st ++ [int_of_uint32 value])
              (core_ids st) (unique_threads st) (index st))
  | None =>
  r ← _parse_line buffer "core id";
  match r with
  | Some value =>
      found ← count_found st value;
      unique ← (if decide (found = 0%nat)
                then h ← hardware_threads st !! index st;
                     Some (unique_threads st ++ [h])
                else Some (unique_threads st));
      Some (mkTopo (hardware_threads st) (physical_ids st)
              (core_ids st ++ [int_of_uint32 value]) unique
              (Datatypes.S (index st)))
  | None => Some st
  end end end.

Fixpoint topology_lines (buffers : list string) (st : topology_state)
    : option topology_state :=
  match buffers with
  | [] => Some st
  | buffer :: rest => topology_line buffer st ≫= topology_lines rest
  end.

(** [get_topology(physical_ids, unique_threads)] on the stream at
    [_cpuinfo_path]: [None] when [fopen] returns [NULL], the contents of
    the file otherwise. The result is what is written to [std::cout] and,
    unless the run is undefined, the two vectors after the call. *)
Definition get_topology (cpu_info_file : option string)
    (physical_ids0 unique_threads0 : list Z)
    : list string * option (list Z * list Z) :=
  match cpu_info_file with
  | None =>
      (* the message is printed and the null stream is handed to fgets *)
      (["Error opening file."%string], None)
  | Some contents =>
      ([], st ← topology_lines (fgets_buffers contents)
                   (mkTopo [] physical_ids0 [] unique_threads0 0);
           Some (physical_ids st, unique_threads st))
  end.

End MTWrapper.

(** ** GenGivenVals.h *)

Module GenGivenVals.

Section Generate.
Context {VT : Type} `{!EqDecision VT}.
Variable zero : VT.
Variable stale : nat → VT.
Variable stale_idx : nat → nat.

(** *** [GenGivenVals<DenseMatrix, VT>::generate]

    [numCells % numRows] is undefined for [numRows = 0], and the
    [assert] stops the run when the division leaves a remainder. *)
Definition generate_dense (numRows : nat) (elements : list VT)
    : option (DenseMatrix VT) :=
  let numCells := length elements in
  if decide (numRows = 0%nat) then None
  else if decide (numCells mod numRows = 0)%nat then
    let numCols := (numCells / numRows)%nat in
    let res := create_dense zero stale numRows numCols false in
    values ← memcpy (dm_values res) elements numCells;
    Some (mkDense (dm_numRows res) (dm_numCols res) values)
  else None.

(** *** [GenGivenVals<CSRMatrix, VT>::generate] *)

(** The first loop: [numNonZeros]. *)
Definition count_nonzeros (elements : list VT) : nat :=
  foldl (λ numNonZeros v,
           if decide (v ≠ zero) then Datatypes.S numNonZeros else numNonZeros)
        0%nat elements.

Record csr_cursor := mkCursor {
  values : list VT;
  colIdxs : list nat;
  rowOffsets : list nat;
  pos : nat;
  colIdx : nat;
  rowIdx : nat
}.

(** The body of the second loop on the element [v]. *)
Definition csr_step (numCols : nat) (st : csr_cursor) (v : VT)
    : option csr_cursor :=
  st1 ← (if decide (v ≠ zero) then
           values' ← store (values st) (pos st) v;
           colIdxs' ← store (colIdxs st) (pos st) (colIdx st);
           Some (mkCursor values' colIdxs' (rowOffsets st)
                   (Datatypes.S (pos st)) (colIdx st) (rowIdx st))
         else Some st);
  let colIdx' := Datatypes.S (colIdx st1) in
  if decide (colIdx' = numCols) then
    rowOffsets' ← store (rowOffsets st1) (rowIdx st1 + 1)%nat (pos st1);
    Some (mkCursor (values st1) (colIdxs st1) rowOffsets'
            (pos st1) 0%nat (Datatypes.S (rowIdx st1)))
  else
    Some (mkCursor (values st1) (colIdxs st1) (rowOffsets st1)
            (pos st1) colIdx' (rowIdx st1)).

Fixpoint csr_loop (numCols : nat) (elements : list VT) (st : csr_cursor)
    : option csr_cursor :=
  match elements with
  | [] => Some st
  | v :: rest => csr_step numCols st v ≫= csr_loop numCols rest
  end.

Definition generate_csr (numRows : nat) (elements : list VT)
    : option (CSRMatrix VT) :=
  let numCells := length elements in
  if decide (numRows = 0%nat) then None
  else if decide (numCells mod numRows = 0)%nat then
    let numCols := (numCells / numRows)%nat in
    let numNonZeros := count_nonzeros elements in
    let res := create_csr zero stale stale_idx numRows numCols numNonZeros false in
    rowOffsets0 ← store (csr_rowOffsets res) 0%nat 0%nat;
    st ← csr_loop numCols elements
           (mkCursor (csr_values res) (csr_colIdxs res) rowOffsets0
              0%nat 0%nat 0%nat);
    Some (mkCSR (csr_numRows res) (csr_numCols res)
            (values st) (colIdxs st) (rowOffsets st))
  else None.

End Generate.

End GenGivenVals.

(** ** A concrete matrix type for the scheduler

    For running the [DT]-generic code on concrete inputs: a dense matrix of
    8-byte values, as far as the scheduler looks at it (its shape and
    whether its buffer was zeroed). *)

Module ShapeOnly.

Record Shape := mkShape {
  shape_rows : N;
  shape_cols : N;
  shape_zeroed : bool
}.

Definition shape_create (rows cols : N) (zero : bool) : Shape :=
  mkShape rows cols zero.

Definition shape_bufferSize (m : Shape) : N :=
  wrap64 (wrap64 (shape_rows m * shape_cols m) * 8).

End ShapeOnly.
Import ShapeOnly.

(** ** The quantities the specification names

    These follow the words of the specification and are what the embedded
    code is compared with in Part II. *)

Module SpecSide.

(** The inputs whose split descriptor is [ROWS], in order. *)
Definition rows_split_inputs (inputs : list Structure)
    (splits : list VectorSplit) : list Structure :=
  omap (λ '(input, split),
          if decide (split = SplitROWS) then Some input else None)
       (zip inputs splits).

(** The largest [numRows] among them, 0 if there is none. *)
Definition largest_numRows (l : list Structure) : N :=
  foldr N.max 0%N (getNumRows <$> l).

(** The sum of [numItems] times the element size, as a number. *)
Definition total_bytes (sizeof_VT : N) (l : list Structure) : N :=
  foldr N.add 0%N ((λ s, getNumItems s * sizeof_VT)%N <$> l).

(** The indices of the inputs whose split descriptor is [ROWS]. *)
Definition rows_split_indices (splits : list VectorSplit) : list nat :=
  omap (λ '(i, split), if decide (split = SplitROWS) then Some i else None)
       (imap pair splits).

(** What [allocateOutput] leaves in a slot, given what the slot held and
    the descriptors of its output: a slot that holds a matrix keeps it, a
    null slot receives a fresh matrix unless a dimension is [-1]. *)
Definition slot_after {DT : Type} (create : N → N → bool → DT)
    (slot : option DT) (rows cols : Z) (combine : VectorCombine)
    : option DT :=
  match slot with
  | Some m => Some m
  | None =>
      if decide (rows = (-1)%Z ∨ cols = (-1)%Z) then None
      else Some (create (size_t_of_Z rows) (size_t_of_Z cols)
                   (bool_decide (combine = CombineADD)))
  end.

(** *** Compressed sparse rows *)

(** A list that never decreases. *)
Definition monotone (l : list nat) : Prop :=
  ∀ i j a b, i ≤ j → l !! i = Some a → l !! j = Some b → a ≤ b.

(** The number of stored values of a CSR matrix: its last row offset. *)
Definition csr_nnz {VT : Type} (m : CSRMatrix VT) : nat :=
  default 0%nat (csr_rowOffsets m !! csr_numRows m).

(** What the specification asks of the matrix [final] that combines the
    per-task matrices [parts] by [ROWS]: value and column-index arrays
    sized by the sum of the parts' nnz and holding the parts' values and
    column indices one after the other, a last row offset equal to that
    sum, and row offsets that never decrease. *)
Definition rows_concatenation {VT : Type} (parts : list (CSRMatrix VT))
    (final : CSRMatrix VT) : Prop :=
  length (csr_values final) = sum_list (csr_nnz <$> parts)
  ∧ length (csr_colIdxs final) = sum_list (csr_nnz <$> parts)
  ∧ csr_values final = concat (csr_values <$> parts)
  ∧ csr_colIdxs final = concat (csr_colIdxs <$> parts)
  ∧ csr_rowOffsets final !! csr_numRows final
    = Some (sum_list (csr_nnz <$> parts))
  ∧ monotone (csr_rowOffsets final).

(** The elements that are not zero, in order. *)
Definition nonzeros {VT : Type} `{!EqDecision VT} (zero : VT)
    (l : list VT) : list VT :=
  filter (λ v, v ≠ zero) l.

(** Their column indices, when the first element of [l] is at position
    [start] of the row-major order of a matrix with [numCols] columns. *)
Fixpoint nonzero_cols {VT : Type} `{!EqDecision VT} (zero : VT)
    (numCols start : nat) (l : list VT) : list nat :=
  match l with
  | [] => []
  | v :: rest =>
      (if decide (v ≠ zero) then [start mod numCols]%nat else [])
      ++ nonzero_cols zero numCols (Datatypes.S start) rest
  end.

End SpecSide.
Import SpecSide.

(** ** Processor records

    What the specification calls a CPU-info record stream: per processor,
    its index, the physical id of its socket and its core id. *)

Module Records.
Import MTWrapper.

Record cpu_record := mkRecord {
  rec_processor : N;
  rec_physical_id : N;
  rec_core_id : N
}.

(** The three lines of a record the probe looks at, with the value each
    carries. *)
Inductive cpu_key :=
| KProcessor (value : N)
| KPhysicalId (value : N)
| KCoreId (value : N).


Definition record_keys (r : cpu_record) : list cpu_key :=
  [KProcessor (rec_processor r); KPhysicalId (rec_physical_id r);
   KCoreId (rec_core_id r)].

(** Which of the three a buffer is, if any, by the tests of the loop body
    in their order; the outer [option] is the fault of [_parse_line]. *)
Definition line_key (buffer : string) : option (option cpu_key) :=
  r ← _parse_line buffer "processor";
  match r with
  | Some v => Some (Some (KProcessor v))
  | None =>
  r ← _parse_line buffer "physical id";
  match r with
  | Some v => Some (Some (KPhysicalId v))
  | None =>
  r ← _parse_line buffer "core id";
  match r with
  | Some v => Some (Some (KCoreId v))
  | None => Some None
  end end end.

(** Two records of the same core: same physical id and same core id. *)
Definition same_core (a b : cpu_record) : bool :=
  (rec_physical_id a =? rec_physical_id b)%N
  && (rec_core_id a =? rec_core_id b)%N.

(** No earlier record is of the same core. *)
Definition is_primary (earlier : list cpu_record) (r : cpu_record) : bool :=
  forallb (λ r', negb (same_core r' r)) earlier.

(** The ids of a record are [uint32_t] values. *)
Definition rec_in_range (r : cpu_record) : Prop :=
  (rec_physical_id r < 2 ^ 32)%N ∧ (rec_core_id r < 2 ^ 32)%N.

(** The processors, in record order, that no earlier record shares the
    core with; [earlier] are the records before [rs]. *)
Fixpoint primary_from (earlier rs : list cpu_record) : list Z :=
  match rs with
  | [] => []
  | r :: rest =>
      (if is_primary earlier r then [int_of_uint32 (rec_processor r)] else [])
      ++ primary_from (earlier ++ [r]) rest
  end.

Definition primary_threads (rs : list cpu_record) : list Z :=
  primary_from [] rs.

(** The loop body of [get_topology] after the buffer has been told apart
    by [line_key]. *)
Definition key_step (k : option cpu_key) (st : topology_state)
    : option topology_state :=
  match k with
  | Some (KProcessor value) =>
      Some (mkTopo (hardware_threads st ++ [int_of_uint32 value])
              (physical_ids st) (core_ids st) (unique_threads st) (index st))
  | Some (KPhysicalId value) =>
      Some (mkTopo (hardware_threads st)
              (physical_ids st ++ [int_of_uint32 value])
              (core_ids st) (unique_threads st) (index st))
  | Some (KCoreId value) =>
      found ← count_found st value;
      unique ← (if decide (found = 0%nat)
                then h ← hardware_threads st !! index st;
                     Some (unique_threads st ++ [h])
                else Some (unique_threads st));
      Some (mkTopo (hardware_threads st) (physical_ids st)
              (core_ids st ++ [int_of_uint32 value]) unique
              (Datatypes.S (index st)))
  | None => Some st
  end.

Fixpoint key_steps (keys : list (option cpu_key)) (st : topology_state)
    : option topology_state :=
  match keys with
  | [] => Some st
  | k :: rest => key_step k st ≫= key_steps rest
  end.

(** A stream the way Linux prints it, for concrete runs. *)
Definition tab : string := String (ascii_of_nat 9) EmptyString.
Definition nl : string := String newline EmptyString.

Definition cpuinfo_record (processor physical_id core_id : string) : string :=
  String.concat EmptyString
    ["processor"; tab; ": "; processor; nl;
     "vendor_id"; tab; ": GenuineIntel"; nl;
     "model name"; tab; ": Intel(R) Core(TM) i5-6200U CPU @ 2.30GHz"; nl;
     "physical id"; tab; ": "; physical_id; nl;
     "siblings"; tab; ": 4"; nl;
     "core id"; tab; tab; ": "; core_id; nl;
     "cpu cores"; tab; ": 2"; nl;
     nl]%string.

(** Four processors on one socket, core ids 0, 0, 1, 1. *)
Definition example_cpuinfo : string :=
  String.concat EmptyString
    [cpuinfo_record "0" "0" "0"; cpuinfo_record "1" "0" "0";
     cpuinfo_record "2" "0" "1"; cpuinfo_record "3" "0" "1"]%string.



End Records.
Import Records.

(** ** Concrete inputs *)

Module Examples.

(** Three inputs of 8-byte elements, the second one broadcast. *)
Definition example_inputs : list Structure :=
  [mkStructure 6 3 18; mkStructure 100 100 10000; mkStructure 4 3 12]%N.
Definition example_splits : list VectorSplit :=
  [SplitROWS; SplitNONE; SplitROWS].

(** An accelerator with a budget of 8 GiB. *)
Definition example_ctx : DaphneContext :=
  mkContext 0 true [mkCUDAContext 8589934592].

(** Two one-row CSR results for one output, one from the CPU workers and
    one from the accelerator workers. *)
Definition part_cpu : CSRMatrix Z := mkCSR 1 2 [5%Z] [0%nat] [0; 1]%nat.
Definition part_cuda : CSRMatrix Z := mkCSR 1 2 [7%Z] [1%nat] [0; 1]%nat.

(** The 5 x 4 matrix of the specification, values 1..6 at (0,1), (1,0),
    (1,3), (3,2), (4,0), (4,1), as a vector of elements. *)
Definition sparse_elements : list Z :=
  [0; 1; 0; 0;
   2; 0; 0; 3;
   0; 0; 0; 0;
   0; 0; 4; 0;
   5; 6; 0; 0]%Z.

End Examples.
Import Examples.

(** ** Rounding to single precision, in integers *)

Module FloatRounding.
Local Open Scope Z_scope.

(** Rounding a natural number to 24 significant bits, to nearest, ties to
    even: what the conversion of an integer to [float] yields. *)
Definition round24 (n : Z) : Z :=
  let k := Z.log2 n - 23 in
  if k <=? 0 then n
  else
    let q := n / 2 ^ k in
    let rest := n mod 2 ^ k in
    let half := 2 ^ (k - 1) in
    (if (rest <? half) || ((rest =? half) && Z.even q) then q else q + 1)
    * 2 ^ k.

(** 1.0 in single precision. *)
Definition one32 : spec_float := S754_finite false (2 ^ 23) (-23).

(** What is left of [m] after [j] shifts to the right, with the last bit
    shifted out and whether anything nonzero was shifted out before it. *)
Definition shifted (m : Z) (j : nat) : shr_record :=
  match j with
  | O => Build_shr_record m false false
  | S j' => Build_shr_record (m / 2 ^ Z.of_nat j) (Z.testbit m (Z.of_nat j'))
              (negb (m mod 2 ^ Z.of_nat j' =? 0))
  end.

(** The second half of [binary_round_aux]: a rounded mantissa of 24 digits
    is kept, the mantissa [2^24] becomes [2^23] one exponent up. *)
Definition finish (s : bool) (m1 e1 : Z) : spec_float :=
  let '(mrs, e) := shr_fexp 24 128 m1 e1 loc_Exact in
  match shr_m mrs with
  | 0 => S754_zero s
  | Z.pos m => if e <=? 128 - 24 then S754_finite s m e else S754_infinity s
  | Z.neg _ => S754_nan
  end.

End FloatRounding.
Import FloatRounding.

(** ** Setting up the workers (MTWrapper.h)

    [Workers.h] and [TaskQueues.h] are not part of the sources at hand: a
    worker is kept as the arguments its constructor is called with, and the
    type of the task queues is left open. *)

Module InitWorkers.
Import MTWrapper.

Section Init.
Context {TaskQueue : Type}.

Inductive Worker :=
| WorkerCPU (q : TaskQueue) (verbose : bool) (fid : N) (batchSize : N)
| WorkerCPUPerCPU (qvector : list TaskQueue)
    (physical_ids unique_threads : list Z) (verbose : bool) (fid : N)
    (batchSize : N) (threadID : nat) (numQueues queueMode stealLogic : Z)
    (pinWorkers : bool)
| WorkerCPUPerGroup (qvector : list TaskQueue)
    (physical_ids unique_threads : list Z) (verbose : bool) (fid : N)
    (batchSize : N) (threadID : nat) (numQueues queueMode stealLogic : Z)
    (pinWorkers : bool).

(** The index [i] a worker is given by the loops of [initCPPWorkersPerCPU]
    and [initCPPWorkersPerGroup]. *)
Definition worker_threadID (w : Worker) : option nat :=
  match w with
  | WorkerCPU _ _ _ _ => None
  | WorkerCPUPerCPU _ _ _ _ _ _ i _ _ _ _
  | WorkerCPUPerGroup _ _ _ _ _ _ i _ _ _ _ => Some i
  end.

(** The topology a worker is given. *)
Definition worker_topology (w : Worker) : option (list Z * list Z) :=
  match w with
  | WorkerCPU _ _ _ _ => None
  | WorkerCPUPerCPU _ p u _ _ _ _ _ _ _ _
  | WorkerCPUPerGroup _ p u _ _ _ _ _ _ _ _ => Some (p, u)
  end.

(** [initCPPWorkers(q, batchSize, verbose)]: the workers in
    [cpp_workers]. *)
Definition initCPPWorkers (w : MTWrapperBase) (q : TaskQueue)
    (batchSize : N) (verbose : bool) : list Worker :=
  replicate (N.to_nat (_numCPPThreads w)) (WorkerCPU q verbose 0 batchSize).

(** [initCUDAWorkers(q, batchSize, verbose)]: the workers in
    [cuda_workers]. *)
Definition initCUDAWorkers (w : MTWrapperBase) (q : TaskQueue)
    (batchSize : N) (verbose : bool) : list Worker :=
  replicate (N.to_nat (_numCUDAThreads w)) (WorkerCPU q verbose 1 batchSize).

(** [topology_unique_threads.resize(_numCPPThreads)], done only when it
    shortens the vector. *)
Definition shrink_unique_threads (numCPPThreads : N) (unique : list Z)
    : list Z :=
  if (numCPPThreads <? N.of_nat (length unique))%N
  then take (N.to_nat numCPPThreads) unique
  else unique.

(** The common body of [initCPPWorkersPerCPU] and
    [initCPPWorkersPerGroup], which differ in the class of the workers
    only. The result is what is written to [std::cout] and, unless the run
    is undefined, the wrapper with its topology vectors updated and the
    workers in [cpp_workers]. [numaDomains] is not looked at. The counter
    [int i] is incremented once per worker, which overflows when there are
    more than [INT_MAX] of them. *)
Definition initCPPWorkersWith
    (make : list TaskQueue → list Z → list Z → bool → N → N → nat →
            Z → Z → Z → bool → Worker)
    (cpu_info_file : option string) (w : MTWrapperBase)
    (qvector : list TaskQueue) (numaDomains : list Z) (batchSize : N)
    (verbose : bool) (numQueues queueMode stealLogic : Z)
    (pinWorkers : bool)
    : list string * option (MTWrapperBase * list Worker) :=
  let out1 :=
    if decide (numQueues = 0%Z)
    then ["numQueues is 0, this should not happen."%string] else [] in
  let '(out2, probed) :=
    get_topology cpu_info_file (topology_physical_ids w)
      (topology_unique_threads w) in
  (out1 ++ out2,
   '(physical, unique) ← probed;
   let unique' := shrink_unique_threads (_numCPPThreads w) unique in
   _ ← guard (_numCPPThreads w ≤ 2 ^ 31 - 1)%N;
   Some (mkWrapper (_numThreads w) (_numCPPThreads w) (_numCUDAThreads w)
           physical unique',
         (λ i, make qvector physical unique' verbose 0%N batchSize i
                 numQueues queueMode stealLogic pinWorkers)
         <$> seq 0 (N.to_nat (_numCPPThreads w)))).

Definition initCPPWorkersPerCPU := initCPPWorkersWith WorkerCPUPerCPU.
Definition initCPPWorkersPerGroup := initCPPWorkersWith WorkerCPUPerGroup.

End Init.

End InitWorkers.
Import InitWorkers.

(** ** Text of a CPU-info stream *)

Module CpuInfoText.
Import MTWrapper.

(** The decimal digits of [n], followed by [rest]. The number of binary
    digits of [n] bounds the number of its decimal digits. *)
Definition digit_char (d : N) : ascii := ascii_of_N (48 + d).

Fixpoint decimal_fuel (fuel : nat) (n : N) (rest : string) : string :=
  match fuel with
  | O => rest
  | Datatypes.S fuel' =>
      let rest' := String (digit_char (n mod 10)) rest in
      if (n <? 10)%N then rest' else decimal_fuel fuel' (n / 10) rest'
  end.

Definition decimal_then (n : N) (rest : string) : string :=
  decimal_fuel (Datatypes.S (N.to_nat (N.log2 n))) n rest.

Definition decimal (n : N) : string := decimal_then n EmptyString.

(** A string without a newline, without a colon, of white space only. *)
Fixpoint no_char (c : ascii) (s : string) : bool :=
  match s with
  | EmptyString => true
  | String c' rest => negb (Ascii.eqb c' c) && no_char c rest
  end.

Fixpoint all_spaces (s : string) : bool :=
  match s with
  | EmptyString => true
  | String c rest => isspace c && all_spaces rest
  end.

(** Whether [s] goes on with a decimal digit. *)
Definition starts_with_digit (s : string) : bool :=
  match s with
  | String c _ => bool_decide (is_Some (digit_of c))
  | EmptyString => false
  end.

(** Lines, each closed by a newline, one after the other. *)
Definition lines_text (lines : list string) : string :=
  foldr (λ line text, String.append line (String newline text))
    EmptyString lines.

(** The lines of one processor record as Linux prints them. *)
Definition record_lines (r : cpu_record) : list string :=
  [String.append "processor" (String.append tab
     (String.append ": " (decimal (rec_processor r))));
   String.append "vendor_id" (String.append tab ": GenuineIntel");
   String.append "model name" (String.append tab
     ": Intel(R) Core(TM) i5-6200U CPU @ 2.30GHz");
   String.append "physical id" (String.append tab
     (String.append ": " (decimal (rec_physical_id r))));
   String.append "siblings" (String.append tab ": 4");
   String.append "core id" (String.append tab (String.append tab
     (String.append ": " (decimal (rec_core_id r)))));
   String.append "cpu cores" (String.append tab ": 2");
   EmptyString]%string.

Definition cpuinfo_text (rs : list cpu_record) : string :=
  lines_text (rs ≫= record_lines).

(** All three ids of a record fit [uint32_t]. *)
Definition record_fits (r : cpu_record) : Prop :=
  (rec_processor r < 2 ^ 32)%N ∧ (rec_physical_id r < 2 ^ 32)%N
  ∧ (rec_core_id r < 2 ^ 32)%N.

(** What [line_key] makes of the eight lines of a record. *)
Definition record_key_opts (r : cpu_record) : list (option cpu_key) :=
  [Some (KProcessor (rec_processor r)); None; None;
   Some (KPhysicalId (rec_physical_id r)); None;
   Some (KCoreId (rec_core_id r)); None; None].

(** The kind of a line. *)
Definition is_physical_id (k : option cpu_key) : bool :=
  match k with Some (KPhysicalId _) => true | _ => false end.

Definition is_core_id (k : option cpu_key) : bool :=
  match k with Some (KCoreId _) => true | _ => false end.

End CpuInfoText.
Import CpuInfoText.

(** ** Bytes allocated for the outputs *)

Module Accounting.
Import MTWrapper.

Section Bytes.
Context {DT : Type}.
Variable create : N → N → bool → DT.
Variable bufferSize : DT → N.

(** The buffer size of the matrix that output [i] receives; 0 when the
    slot holds a matrix already or a dimension is [-1]. *)
Definition allocated_at (res : list (option DT)) (outRows outCols : list Z)
    (combines : list VectorCombine) (i : nat) : N :=
  match res !! i, outRows !! i, outCols !! i, combines !! i with
  | Some None, Some rows, Some cols, Some combine =>
      match slot_after create None rows cols combine with
      | Some m => bufferSize m
      | None => 0%N
      end
  | _, _, _, _ => 0%N
  end.

Definition allocated_bytes (res : list (option DT))
    (outRows outCols : list Z) (combines : list VectorCombine)
    (numOutputs : nat) : N :=
  foldr N.add 0%N
    (allocated_at res outRows outCols combines <$> seq 0 numOutputs).

End Bytes.

End Accounting.
Import Accounting.

(** * Part II: properties *)

(** ** Facts about machine integers and loops *)

Module MachineFacts.

Lemma wrap64_small n : (n < 2 ^ 64)%N → wrap64 n = n.
Proof. intros H. unfold wrap64. by apply N.mod_small. Qed.

Lemma wrap32_small n : (n < 2 ^ 32)%N → wrap32 n = n.
Proof. intros H. unfold wrap32. by apply N.mod_small. Qed.


Lemma wrap64_add_wrap64_r a b : wrap64 (a + wrap64 b) = wrap64 (a + b).
Proof. unfold wrap64. rewrite N.Div0.add_mod_idemp_r; done. Qed.

Lemma wrap64_add_wrap64_l a b : wrap64 (wrap64 a + b) = wrap64 (a + b).
Proof. unfold wrap64. rewrite N.Div0.add_mod_idemp_l; done. Qed.

Lemma uint32_of_int_of_uint32 n :
  (n < 2 ^ 32)%N → uint32_of_Z (int_of_uint32 n) = n.
Proof.
  intros H. unfold uint32_of_Z, int_of_uint32.
  rewrite wrap32_small by done.
  assert (Hz : (0 <= Z.of_N n < 2 ^ 32)%Z).
  { split; [lia|]. change (2 ^ 32)%Z with (Z.of_N (2 ^ 32)). lia. }
  destruct (Z.ltb_spec (Z.of_N n) (2 ^ 31)) as [Hlt|Hge].
  - rewrite Z.mod_small by lia. lia.
  - replace (Z.of_N n - 2 ^ 32)%Z with (Z.of_N n + (-1) * 2 ^ 32)%Z by lia.
    rewrite Z.mod_add by lia. rewrite Z.mod_small by lia. lia.
Qed.

Lemma int_of_uint32_inj a b :
  (a < 2 ^ 32)%N → (b < 2 ^ 32)%N →
  int_of_uint32 a = int_of_uint32 b → a = b.
Proof.
  intros Ha Hb Heq.
  rewrite <- (uint32_of_int_of_uint32 a), <- (uint32_of_int_of_uint32 b) by done.
  by rewrite Heq.
Qed.

Lemma uint32_of_Z_pos z : (0 < z < 2 ^ 32)%Z → uint32_of_Z z = Z.to_N z.
Proof. intros H. unfold uint32_of_Z. by rewrite Z.mod_small by lia. Qed.

Lemma for_range_snoc {S : Type} (start n : nat) (body : nat → S → option S) s :
  for_range start (Datatypes.S n) body s
  = for_range start n body s ≫= body (start + n)%nat.
Proof.
  revert start s. induction n as [|n IH]; intros start s.
  - simpl. rewrite Nat.add_0_r. by destruct (body start s).
  - change (for_range start (Datatypes.S (Datatypes.S n)) body s)
      with (body start s ≫= for_range (Datatypes.S start) (Datatypes.S n) body).
    change (for_range start (Datatypes.S n) body s)
      with (body start s ≫= for_range (Datatypes.S start) n body).
    replace (start + Datatypes.S n)%nat with (Datatypes.S start + n)%nat by lia.
    destruct (body start s) as [s'|]; [|done].
    apply IH.
Qed.

End MachineFacts.
Import MachineFacts.

(** ** getInputProperties and the constructor *)

Module InputProperties.
Import MTWrapper.

Lemma rows_split_inputs_snoc inputs splits n input split :
  inputs !! n = Some input → splits !! n = Some split →
  rows_split_inputs (take (S n) inputs) (take (S n) splits)
  = rows_split_inputs (take n inputs) (take n splits)
    ++ (if decide (split = SplitROWS) then [input] else []).
Proof.
  intros Hi Hs. unfold rows_split_inputs.
  rewrite (take_S_r _ _ _ Hi), (take_S_r _ _ _ Hs).
  rewrite zip_with_app.
  - rewrite omap_app. simpl. by destruct (decide (split = SplitROWS)).
  - rewrite !length_take. apply lookup_lt_Some in Hi, Hs. lia.
Qed.

Lemma foldr_max_init (a : N) (l : list N) :
  foldr N.max a l = N.max (foldr N.max 0%N l) a.
Proof. induction l as [|x l IH]; simpl; [|rewrite IH]; lia. Qed.

Lemma foldr_add_init (a : N) (l : list N) :
  foldr N.add a l = (foldr N.add 0%N l + a)%N.
Proof. induction l as [|x l IH]; simpl; [|rewrite IH]; lia. Qed.

Lemma largest_numRows_snoc l s :
  largest_numRows (l ++ [s]) = N.max (largest_numRows l) (getNumRows s).
Proof.
  unfold largest_numRows. rewrite fmap_app, foldr_app. simpl.
  rewrite foldr_max_init. lia.
Qed.

Lemma total_bytes_snoc sz l s :
  total_bytes sz (l ++ [s]) = (total_bytes sz l + getNumItems s * sz)%N.
Proof.
  unfold total_bytes. rewrite fmap_app, foldr_app. simpl.
  rewrite foldr_add_init. lia.
Qed.

Lemma largest_numRows_ub l s : s ∈ l → (getNumRows s <= largest_numRows l)%N.
Proof.
  unfold largest_numRows. induction 1 as [s l|s x l _ IH].
  - rewrite fmap_cons. cbn [foldr]. lia.
  - rewrite fmap_cons. cbn [foldr]. lia.
Qed.

Lemma largest_numRows_attained l :
  l ≠ [] → ∃ s, s ∈ l ∧ largest_numRows l = getNumRows s.
Proof.
  unfold largest_numRows. induction l as [|x l IH]; [done|]. intros _.
  rewrite fmap_cons. cbn [foldr].
  destruct l as [|y l].
  - exists x. split; [left|]. simpl. lia.
  - destruct IH as (s & Hs & Heq); [done|]. rewrite Heq.
    destruct (N.max_spec (getNumRows x) (getNumRows s)) as [[_ Hm]|[_ Hm]].
    + exists s. split; [by right|]. done.
    + exists x. split; [left|]. done.
Qed.

(** The loop after [n] rounds has seen the first [n] inputs. *)
Lemma getInputProperties_prefix sz inputs splits n :
  n ≤ length inputs → n ≤ length splits →
  getInputProperties sz inputs n splits
  = Some (largest_numRows (rows_split_inputs (take n inputs) (take n splits)),
          wrap64 (total_bytes sz (rows_split_inputs (take n inputs) (take n splits)))).
Proof.
  unfold getInputProperties.
  induction n as [|n IH]; intros Hi Hs; [done|].
  rewrite for_range_snoc, IH by lia. simpl.
  destruct (lookup_lt_is_Some_2 inputs n) as [input Hin]; [lia|].
  destruct (lookup_lt_is_Some_2 splits n) as [split Hsp]; [lia|].
  rewrite Hsp. simpl.
  rewrite (rows_split_inputs_snoc _ _ _ _ _ Hin Hsp).
  destruct (decide (split = SplitROWS)) as [->|Hne].
  - rewrite Hin. simpl.
    rewrite largest_numRows_snoc, total_bytes_snoc.
    by rewrite wrap64_add_wrap64_r, wrap64_add_wrap64_l.
  - by rewrite app_nil_r.
Qed.

(** C6, as the code has it. [getInputProperties] returns as [len] the
    largest [numRows] among the inputs whose split is [ROWS] (an upper
    bound of their row counts that one of them attains, and 0 if there is
    none) and as [memRequired] the sum over the [ROWS]-split inputs of
    [numItems] times the element size, computed in [size_t] (so modulo
    [2^64], and exactly the sum whenever the sum fits). Inputs with split
    [NONE] are in neither: both results are functions of the [ROWS]-split
    inputs alone. *)
Theorem getInputProperties_spec (sizeof_VT : N) (inputs : list Structure)
    (numInputs : nat) (splits : list VectorSplit) :
  length inputs = numInputs → length splits = numInputs →
  let rows := rows_split_inputs inputs splits in
  ∃ len memRequired,
    getInputProperties sizeof_VT inputs numInputs splits = Some (len, memRequired)
    ∧ len = largest_numRows rows
    ∧ (∀ s, s ∈ rows → (getNumRows s <= len)%N)
    ∧ (rows = [] → len = 0%N)
    ∧ (rows ≠ [] → ∃ s, s ∈ rows ∧ len = getNumRows s)
    ∧ memRequired = wrap64 (total_bytes sizeof_VT rows)
    ∧ ((total_bytes sizeof_VT rows < 2 ^ 64)%N →
       memRequired = total_bytes sizeof_VT rows).
Proof.
  intros Hi Hs rows. subst numInputs.
  exists (largest_numRows rows), (wrap64 (total_bytes sizeof_VT rows)).
  split.
  { rewrite getInputProperties_prefix by lia.
    rewrite firstn_all, <- Hs, firstn_all. done. }
  split; [done|]. split; [apply largest_numRows_ub|].
  split; [by intros ->|]. split; [apply largest_numRows_attained|].
  split; [done|]. apply wrap64_small.
Qed.

Lemma getInputProperties_spec_witness :
  getInputProperties 8 example_inputs 3 example_splits = Some (6%N, 240%N).
Proof.
  destruct (getInputProperties_spec 8 example_inputs 3 example_splits
              eq_refl eq_refl) as (len & mem & -> & -> & _ & _ & _ & -> & _).
  reflexivity.
Defined.

(** The claim C6 as the specification words it fails where the sum does
    not fit [size_t]: one [ROWS]-split input of [2^61] items of 8 bytes
    needs [2^64] bytes, and the [memRequired] returned is 0. *)
Lemma getInputProperties_overflow_counterexample :
  getInputProperties 8
    [mkStructure 1 2305843009213693952 2305843009213693952] 1 [SplitROWS]
  = Some (1%N, 0%N)
  ∧ total_bytes 8
      (rows_split_inputs
         [mkStructure 1 2305843009213693952 2305843009213693952] [SplitROWS])
    = 18446744073709551616%N
  ∧ (0 ≠ 18446744073709551616)%N.
Proof. split; [reflexivity|]. split; [reflexivity|lia]. Qed.

(** C7. On construction, a configured [numberOfThreads] greater than 0 is
    the number of CPU workers, and with [numberOfThreads = 0] the number of
    CPU workers is the concurrent thread count the hardware reports. *)
Theorem construct_cpu_worker_count (hardware_concurrency numThreads
    numFunctions : N) (ctx : DaphneContext) :
  int_range (config_numberOfThreads ctx) →
  let w := construct hardware_concurrency numThreads numFunctions ctx in
  ((0 < config_numberOfThreads ctx)%Z →
     _numCPPThreads w = Z.to_N (config_numberOfThreads ctx))
  ∧ (config_numberOfThreads ctx = 0%Z →
     _numCPPThreads w = hardware_concurrency).
Proof.
  intros [Hlo Hhi]. simpl. split.
  - intros Hpos.
    destruct (Z.ltb_spec 0 (config_numberOfThreads ctx)); [|lia].
    apply uint32_of_Z_pos. lia.
  - intros ->. reflexivity.
Qed.

Lemma construct_cpu_worker_count_witness :
  _numCPPThreads (construct 8 1 1 (mkContext 3 false [])) = 3%N
  ∧ _numCPPThreads (construct 8 1 1 (mkContext 0 false [])) = 8%N.
Proof.
  split.
  - apply (construct_cpu_worker_count 8 1 1 (mkContext 3 false [])).
    + unfold int_range. simpl. lia.
    + simpl. lia.
  - apply (construct_cpu_worker_count 8 1 1 (mkContext 0 false [])).
    + unfold int_range. simpl. lia.
    + reflexivity.
Defined.

End InputProperties.

(** ** allocateOutput *)

Module AllocateOutput.
Import MTWrapper.

Section Alloc.
Context {DT : Type}.
Variable create : N → N → bool → DT.
Variable bufferSize : DT → N.

Lemma allocateOutput_rounds (res : list (option DT)) (outRows outCols : list Z)
    (combines : list VectorCombine) (n : nat) :
  n ≤ length res → n ≤ length outRows → n ≤ length outCols →
  n ≤ length combines →
  ∃ res' mem,
    allocateOutput create bufferSize res n outRows outCols combines
      = Some (res', mem)
    ∧ length res' = length res
    ∧ (∀ i, n ≤ i → res' !! i = res !! i)
    ∧ (∀ i slot rows cols combine, i < n →
         res !! i = Some slot → outRows !! i = Some rows →
         outCols !! i = Some cols → combines !! i = Some combine →
         res' !! i = Some (slot_after create slot rows cols combine)).
Proof.
  unfold allocateOutput.
  induction n as [|n IH]; intros H1 H2 H3 H4.
  { exists res, 0%N. split; [done|]. split; [done|]. split; [done|]. intros; lia. }
  destruct IH as (res1 & mem1 & Hrun & Hlen & Hrest & Hdone); [lia..|].
  rewrite for_range_snoc, Hrun. simpl.
  destruct (lookup_lt_is_Some_2 res n) as [slot Hslot]; [lia|].
  destruct (lookup_lt_is_Some_2 outRows n) as [rows Hrows]; [lia|].
  destruct (lookup_lt_is_Some_2 outCols n) as [cols Hcols]; [lia|].
  destruct (lookup_lt_is_Some_2 combines n) as [combine Hcomb]; [lia|].
  rewrite (Hrest n) by lia. rewrite Hslot. simpl.
  assert (Hkeep :
    slot_after create slot rows cols combine = slot →
    ∃ res' mem, Some (res1, mem1) = Some (res', mem)
      ∧ length res' = length res
      ∧ (∀ i, S n ≤ i → res' !! i = res !! i)
      ∧ (∀ i slot rows cols combine, i < S n →
           res !! i = Some slot → outRows !! i = Some rows →
           outCols !! i = Some cols → combines !! i = Some combine →
           res' !! i = Some (slot_after create slot rows cols combine))).
  { intros Hsame. exists res1, mem1. split; [done|]. split; [done|]. split.
    - intros i Hi. apply Hrest. lia.
    - intros i s r c k Hi Hs Hr Hc Hk.
      destruct (decide (i = n)) as [->|Hne]; [|apply Hdone; [lia|done..]].
      rewrite Hrest by lia.
      assert (s = slot) as -> by congruence.
      assert (r = rows) as -> by congruence.
      assert (c = cols) as -> by congruence.
      assert (k = combine) as -> by congruence.
      by rewrite Hsame. }
  destruct slot as [m|]; [by apply Hkeep|].
  rewrite Hrows. simpl.
  destruct (decide (rows = (-1)%Z)) as [Hr|Hr].
  { apply Hkeep. unfold slot_after. rewrite decide_True; [done|by left]. }
  rewrite Hcols. simpl.
  destruct (decide (cols = (-1)%Z)) as [Hc|Hc].
  { apply Hkeep. unfold slot_after. rewrite decide_True; [done|by right]. }
  rewrite Hcomb. simpl.
  eexists _, _. split; [done|]. split; [by rewrite length_insert|]. split.
  - intros i Hi. rewrite list_lookup_insert_ne by lia. apply Hrest. lia.
  - intros i s r c k Hi Hs Hr' Hc' Hk.
    destruct (decide (i = n)) as [->|Hne].
    + rewrite list_lookup_insert_eq by lia.
      assert (s = None) as -> by congruence.
      assert (r = rows) as -> by congruence.
      assert (c = cols) as -> by congruence.
      assert (k = combine) as -> by congruence.
      unfold slot_after. rewrite decide_False; [done|]. intros [?|?]; done.
    + rewrite list_lookup_insert_ne by lia. apply Hdone; [lia|done..].
Qed.
End Alloc.

Lemma size_t_of_Z_nonneg (z : Z) :
  (0 <= z < 2 ^ 63)%Z → size_t_of_Z z = Z.to_N z.
Proof. intros H. unfold size_t_of_Z. rewrite Z.mod_small; [done|lia]. Qed.

(** C4, as the code has it. For every output index [i], [allocateOutput]
    puts a fresh matrix into slot [i] iff the slot is null and neither
    [outRows[i]] nor [outCols[i]] is the marker [-1]; the matrix is
    created with the shape [outRows[i] x outCols[i]] (as [size_t]) and is
    zero-initialized iff [combines[i]] is [ADD]. In every other case the
    slot is as it was. *)
Theorem allocateOutput_allocates {DT : Type} (create : N → N → bool → DT)
    (bufferSize : DT → N) (res : list (option DT)) (numOutputs : nat)
    (outRows outCols : list Z) (combines : list VectorCombine) :
  length res = numOutputs → length outRows = numOutputs →
  length outCols = numOutputs → length combines = numOutputs →
  ∃ res' mem,
    allocateOutput create bufferSize res numOutputs outRows outCols combines
      = Some (res', mem)
    ∧ ∀ i rows cols combine, i < numOutputs →
        outRows !! i = Some rows → outCols !! i = Some cols →
        combines !! i = Some combine →
        (res !! i = Some None ∧ rows ≠ (-1)%Z ∧ cols ≠ (-1)%Z →
           res' !! i = Some (Some (create (size_t_of_Z rows) (size_t_of_Z cols)
                                     (bool_decide (combine = CombineADD)))))
        ∧ (¬ (res !! i = Some None ∧ rows ≠ (-1)%Z ∧ cols ≠ (-1)%Z) →
           res' !! i = res !! i).
Proof.
  intros H1 H2 H3 H4.
  destruct (allocateOutput_rounds create bufferSize res outRows outCols
              combines numOutputs) as (res' & mem & Hrun & _ & _ & Hdone);
    [lia..|].
  exists res', mem. split; [done|].
  intros i rows cols combine Hi Hr Hc Hk.
  destruct (lookup_lt_is_Some_2 res i) as [slot Hslot]; [lia|].
  rewrite (Hdone i slot rows cols combine Hi Hslot Hr Hc Hk), Hslot.
  unfold slot_after. split.
  - intros (Hnull & Hrows & Hcols).
    assert (slot = None) as -> by congruence.
    rewrite decide_False; [done|]. intros [?|?]; done.
  - intros Hnot. destruct slot as [m|]; [done|].
    destruct (decide (rows = (-1)%Z ∨ cols = (-1)%Z)) as [?|Hn]; [done|].
    exfalso. apply Hnot. split; [done|]. split; intros ?; apply Hn; auto.
Qed.

Lemma allocateOutput_allocates_witness :
  ∃ res' mem,
    allocateOutput shape_create shape_bufferSize
      [None; Some (mkShape 1 1 false); None] 3
      [2; 5; -1]%Z [3; 5; 1]%Z [CombineADD; CombineROWS; CombineROWS]
    = Some (res', mem)
    ∧ res' !! 0%nat = Some (Some (mkShape 2 3 true)).
Proof.
  destruct (allocateOutput_allocates shape_create shape_bufferSize
              [None; Some (mkShape 1 1 false); None] 3
              [2; 5; -1]%Z [3; 5; 1]%Z [CombineADD; CombineROWS; CombineROWS]
              eq_refl eq_refl eq_refl eq_refl) as (res' & mem & Hrun & Hspec).
  exists res', mem. split; [exact Hrun|].
  destruct (Hspec 0%nat 2%Z 3%Z CombineADD) as [Halloc _];
    [lia|reflexivity..|].
  apply Halloc. repeat split; discriminate.
Defined.

(** The claim C4 as the specification words it (known dimensions are
    those that are [>= 0]) fails: with [outRows[0] = -2] the slot is
    null and a dimension is negative, and yet a matrix is allocated, of
    [2^64 - 2] rows. With [outCols[0] = 0] the matrix has no cell, so the
    factory has nothing to reserve and returns it. *)
Lemma allocateOutput_negative_rows_counterexample :
  allocateOutput shape_create shape_bufferSize
    [None] 1 [-2]%Z [0]%Z [CombineROWS]
  = Some ([Some (mkShape 18446744073709551614 0 false)], 0%N)
  ∧ ¬ (0 <= -2)%Z.
Proof. split; [reflexivity|lia]. Qed.

(** C8, as the code has it. [allocateOutput] leaves every slot that is
    already non-null unchanged, and every null slot whose dimensions are
    unknown, that is, whose [outRows] or [outCols] is [-1], is still null
    after the call. *)
Theorem allocateOutput_frame {DT : Type} (create : N → N → bool → DT)
    (bufferSize : DT → N) (res : list (option DT)) (numOutputs : nat)
    (outRows outCols : list Z) (combines : list VectorCombine) :
  length res = numOutputs → length outRows = numOutputs →
  length outCols = numOutputs → length combines = numOutputs →
  ∃ res' mem,
    allocateOutput create bufferSize res numOutputs outRows outCols combines
      = Some (res', mem)
    ∧ length res' = numOutputs
    ∧ ∀ i, i < numOutputs →
        (∀ m, res !! i = Some (Some m) → res' !! i = Some (Some m))
        ∧ (res !! i = Some None →
           outRows !! i = Some (-1)%Z ∨ outCols !! i = Some (-1)%Z →
           res' !! i = Some None).
Proof.
  intros H1 H2 H3 H4.
  destruct (allocateOutput_rounds create bufferSize res outRows outCols
              combines numOutputs) as (res' & mem & Hrun & Hlen & _ & Hdone);
    [lia..|].
  exists res', mem. split; [done|]. split; [lia|].
  intros i Hi.
  destruct (lookup_lt_is_Some_2 outRows i) as [rows Hr]; [lia|].
  destruct (lookup_lt_is_Some_2 outCols i) as [cols Hc]; [lia|].
  destruct (lookup_lt_is_Some_2 combines i) as [combine Hk]; [lia|].
  split.
  - intros m Hm. by rewrite (Hdone i (Some m) rows cols combine).
  - intros Hnull Hunknown.
    rewrite (Hdone i None rows cols combine) by done.
    unfold slot_after. rewrite decide_True; [done|].
    destruct Hunknown as [Hu|Hu]; [left|right]; congruence.
Qed.

Lemma allocateOutput_frame_witness :
  ∃ res' mem,
    allocateOutput shape_create shape_bufferSize
      [None; Some (mkShape 1 1 false); None] 3
      [2; 5; -1]%Z [3; 5; 1]%Z [CombineADD; CombineROWS; CombineROWS]
    = Some (res', mem)
    ∧ res' !! 1%nat = Some (Some (mkShape 1 1 false))
    ∧ res' !! 2%nat = Some None.
Proof.
  destruct (allocateOutput_frame shape_create shape_bufferSize
              [None; Some (mkShape 1 1 false); None] 3
              [2; 5; -1]%Z [3; 5; 1]%Z [CombineADD; CombineROWS; CombineROWS]
              eq_refl eq_refl eq_refl eq_refl)
    as (res' & mem & Hrun & _ & Hspec).
  exists res', mem. split; [exact Hrun|]. split.
  - destruct (Hspec 1%nat) as [Hkeep _]; [lia|]. by apply Hkeep.
  - destruct (Hspec 2%nat) as [_ Hnull]; [lia|].
    apply Hnull; [reflexivity|]. by left.
Defined.

(** The claim C8 as the specification words it (unknown dimensions are
    the negative ones) fails: with [outCols[0] = -5] the null slot does
    not remain null. With [outRows[0] = 0] the matrix that fills it has
    no cell, so the factory has nothing to reserve and returns it. *)
Lemma allocateOutput_negative_cols_counterexample :
  allocateOutput shape_create shape_bufferSize
    [None] 1 [0]%Z [-5]%Z [CombineADD]
  = Some ([Some (mkShape 0 18446744073709551611 true)], 0%N)
  ∧ (-5 < 0)%Z
  ∧ [None : option Shape] !! 0%nat = Some None
  ∧ [Some (mkShape 0 18446744073709551611 true)] !! 0%nat ≠ Some None.
Proof. split; [reflexivity|]. split; [lia|]. split; [reflexivity|done]. Qed.

End AllocateOutput.

(** ** Facts about single precision *)

Module FloatFacts.
Local Open Scope Z_scope.

Lemma digits2_pos_bounds (p : positive) :
  2 ^ (Z.pos (digits2_pos p) - 1) <= Z.pos p < 2 ^ Z.pos (digits2_pos p).
Proof.
  induction p as [p IH|p IH|]; cbn [digits2_pos].
  - rewrite Pos2Z.inj_succ.
    replace (Z.succ (Z.pos (digits2_pos p)) - 1) with (Z.succ (Z.pos (digits2_pos p) - 1)) by lia.
    rewrite !Z.pow_succ_r by lia. lia.
  - rewrite Pos2Z.inj_succ.
    replace (Z.succ (Z.pos (digits2_pos p)) - 1) with (Z.succ (Z.pos (digits2_pos p) - 1)) by lia.
    rewrite !Z.pow_succ_r by lia. lia.
  - simpl. lia.
Qed.

Lemma digits2_pos_unique (p : positive) (d : Z) :
  2 ^ (d - 1) <= Z.pos p < 2 ^ d → Z.pos (digits2_pos p) = d.
Proof.
  intros [Hlo Hhi]. pose proof (digits2_pos_bounds p) as [Hlo' Hhi'].
  assert (0 < d).
  { destruct (Z.ltb_spec 0 d); [done|]. 
    assert (2 ^ d <= 2 ^ 0) by (apply Z.pow_le_mono_r; lia). simpl in *. lia. }
  assert (d - 1 < Z.pos (digits2_pos p)).
  { apply (Z.pow_lt_mono_r_iff 2); lia. }
  assert (Z.pos (digits2_pos p) - 1 < d).
  { apply (Z.pow_lt_mono_r_iff 2); lia. }
  lia.
Qed.

Lemma iter_pos_nat {A} (f : A → A) (p : positive) (x : A) :
  SpecFloat.iter_pos f p x = Nat.iter (Pos.to_nat p) f x.
Proof.
  revert x. induction p as [p IH|p IH|]; intros x; cbn [SpecFloat.iter_pos].
  - rewrite !IH, Pos2Nat.inj_xI.
    replace (S (2 * Pos.to_nat p)) with (Pos.to_nat p + (Pos.to_nat p + 1))%nat by lia.
    by rewrite !Nat.iter_add.
  - rewrite !IH, Pos2Nat.inj_xO.
    replace (2 * Pos.to_nat p)%nat with (Pos.to_nat p + Pos.to_nat p)%nat by lia.
    by rewrite Nat.iter_add.
  - done.
Qed.

Lemma shr_1_nonneg (m : Z) (r s : bool) :
  0 <= m →
  shr_1 (Build_shr_record m r s) = Build_shr_record (m / 2) (Z.odd m) (r || s).
Proof.
  intros Hm. destruct m as [|p|p]; [done| |lia].
  destruct p as [p|p|]; cbn [shr_1 Z.odd].
  - f_equal. rewrite Pos2Z.inj_xI.
    apply (Z.div_unique _ _ _ 1); lia.
  - f_equal. rewrite Pos2Z.inj_xO.
    apply (Z.div_unique _ _ _ 0); lia.
  - done.
Qed.

Lemma iter_shr_1 (m : Z) (j : nat) :
  0 <= m → Nat.iter j shr_1 (Build_shr_record m false false) = shifted m j.
Proof.
  intros Hm. induction j as [|j IH]; [done|].
  rewrite Nat.iter_succ, IH. destruct j as [|j].
  - unfold shifted. rewrite shr_1_nonneg by done.
    change (2 ^ Z.of_nat 1) with 2. change (2 ^ Z.of_nat 0) with 1.
    rewrite Z.mod_1_r, Z.bit0_odd. done.
  - unfold shifted. rewrite shr_1_nonneg by (apply Z.div_pos; lia).
    f_equal.
    + rewrite Z.div_div by lia. f_equal.
      rewrite (Nat2Z.inj_succ (S j)), Z.pow_succ_r by lia. lia.
    + rewrite Z.testbit_odd, Z.shiftr_div_pow2 by lia. done.
    + rewrite (Nat2Z.inj_succ j), Z.pow_succ_r by lia.
      rewrite (Z.mul_comm 2), Z.rem_mul_r by lia.
      rewrite Z.testbit_odd, Z.shiftr_div_pow2 by lia.
      rewrite Zodd_mod.
      pose proof (Z.mod_pos_bound m (2 ^ Z.of_nat j)).
      pose proof (Z.mod_pos_bound (m / 2 ^ Z.of_nat j) 2).
      assert (0 < 2 ^ Z.of_nat j) by lia.
      destruct (Z.eqb_spec ((m / 2 ^ Z.of_nat j) mod 2) 1) as [Hb|Hb];
      destruct (Z.eqb_spec (m mod 2 ^ Z.of_nat j) 0) as [Hz|Hz];
      cbn [orb negb]; symmetry.
      * apply negb_true_iff, Z.eqb_neq. nia.
      * apply negb_true_iff, Z.eqb_neq. nia.
      * apply negb_false_iff, Z.eqb_eq. nia.
      * apply negb_true_iff, Z.eqb_neq. nia.
Qed.

(** A mantissa of 24 digits at an exponent in range is kept as it is. *)
Lemma shr_fexp_canonical (m : positive) (e : Z) :
  Z.pos (digits2_pos m) = 24 → -149 <= e →
  shr_fexp 24 128 (Z.pos m) e loc_Exact
  = (Build_shr_record (Z.pos m) false false, e).
Proof.
  intros Hd He. unfold shr_fexp, Zdigits2, fexp, emin. rewrite Hd.
  replace (Z.max (24 + e - 24) (3 - 128 - 24) - e) with 0 by lia.
  reflexivity.
Qed.

Lemma finish_spec (s : bool) (m1 e1 : Z) :
  2 ^ 23 <= m1 <= 2 ^ 24 → -149 <= e1 <= 103 →
  ∃ m e, finish s m1 e1 = S754_finite s m e
         ∧ 2 ^ 23 <= Z.pos m < 2 ^ 24
         ∧ e1 <= e <= e1 + 1
         ∧ Z.pos m * 2 ^ (e - e1) = m1.
Proof.
  intros Hm He. destruct m1 as [|p|p]; [lia| |lia].
  destruct (Z.eq_dec (Z.pos p) (2 ^ 24)) as [Heq|Hne].
  - rewrite Heq. exists (2 ^ 23)%positive, (e1 + 1). split.
    + unfold finish, shr_fexp.
      change (Zdigits2 (2 ^ 24)) with 25. unfold fexp, emin.
      replace (Z.max (25 + e1 - 24) (3 - 128 - 24) - e1) with 1 by lia.
      change (shr (shr_record_of_loc (2 ^ 24) loc_Exact) e1 1)
        with (Build_shr_record (Z.pos (2 ^ 23)) false false, e1 + 1).
      cbn [shr_m].
      destruct (Z.leb_spec (e1 + 1) (128 - 24)); [done|lia].
    + replace (e1 + 1 - e1) with 1 by lia. split; [done|]. split; [lia|done].
  - assert (Hd : Z.pos (digits2_pos p) = 24).
    { apply digits2_pos_unique. simpl. lia. }
    exists p, e1. split.
    + unfold finish. rewrite shr_fexp_canonical by lia. cbn [shr_m].
      destruct (Z.leb_spec e1 (128 - 24)); [done|lia].
    + rewrite Z.sub_diag. lia.
Qed.

Lemma digits2_pos_log2 (p : positive) :
  Z.pos (digits2_pos p) = Z.log2 (Z.pos p) + 1.
Proof.
  apply digits2_pos_unique.
  pose proof (Z.log2_spec (Z.pos p) eq_refl) as [Hlo Hhi].
  replace (Z.log2 (Z.pos p) + 1 - 1) with (Z.log2 (Z.pos p)) by lia.
  by replace (Z.log2 (Z.pos p) + 1) with (Z.succ (Z.log2 (Z.pos p))) by lia.
Qed.

Lemma pos_iter_xO (p c : positive) :
  Z.pos (Pos.iter xO p c) = Z.pos p * 2 ^ Z.pos c
  ∧ digits2_pos (Pos.iter xO p c) = (digits2_pos p + c)%positive.
Proof.
  induction c as [|c IH] using Pos.peano_ind.
  - cbn [Pos.iter digits2_pos]. split; [lia|lia].
  - rewrite Pos.iter_succ. destruct IH as [IH1 IH2].
    cbn [digits2_pos]. rewrite IH2, Pos2Z.inj_xO, IH1, Pos2Z.inj_succ.
    rewrite Z.pow_succ_r by lia. split; lia.
Qed.

Lemma binary_round_aux_exact (s : bool) (m : positive) (e : Z) :
  Z.pos (digits2_pos m) = 24 → -149 <= e <= 104 →
  binary_round_aux 24 128 s (Z.pos m) e loc_Exact = S754_finite s m e.
Proof.
  intros Hd He. unfold binary_round_aux.
  rewrite shr_fexp_canonical by lia.
  cbn [shr_m loc_of_shr_record round_nearest_even].
  rewrite shr_fexp_canonical by lia. cbn [shr_m].
  destruct (Z.leb_spec e (128 - 24)); [done|lia].
Qed.

(** The rounding decision read off the bits that were shifted out. *)
Lemma round_shifted (n k : Z) :
  0 < n → 0 < k →
  let rec := shifted n (Z.to_nat k) in
  round_nearest_even (shr_m rec) (loc_of_shr_record rec)
  = (if (n mod 2 ^ k <? 2 ^ (k - 1))
        || ((n mod 2 ^ k =? 2 ^ (k - 1)) && Z.even (n / 2 ^ k))
     then n / 2 ^ k else n / 2 ^ k + 1).
Proof.
  intros Hn Hk. destruct (Z.to_nat k) as [|j] eqn:Hj; [lia|].
  assert (Hj' : Z.of_nat j = k - 1) by lia.
  unfold shifted. cbn zeta. rewrite Hj'.
  replace (Z.of_nat (S j)) with k by lia.
  set (q := n / 2 ^ k). set (half := 2 ^ (k - 1)).
  assert (Hhalf : 0 < half) by (subst half; apply Z.pow_pos_nonneg; lia).
  assert (Hpow : 2 ^ k = half * 2).
  { subst half. replace k with (Z.succ (k - 1)) at 1 by lia.
    rewrite Z.pow_succ_r by lia. lia. }
  assert (Hrest : n mod 2 ^ k = n mod half + half * ((n / half) mod 2)).
  { rewrite Hpow. apply Z.rem_mul_r; lia. }
  rewrite Z.testbit_odd, Z.shiftr_div_pow2 by lia. fold half.
  rewrite Zodd_mod.
  pose proof (Z.mod_pos_bound n half Hhalf).
  pose proof (Z.mod_pos_bound (n / half) 2 eq_refl).
  cbn [shr_m].
  destruct (Z.eqb_spec ((n / half) mod 2) 1) as [Hb|Hb];
  destruct (Z.eqb_spec (n mod half) 0) as [Hz|Hz];
  cbn [negb loc_of_shr_record round_nearest_even].
  - rewrite (proj2 (Z.ltb_ge _ _)) by lia.
    rewrite (proj2 (Z.eqb_eq _ _)) by lia. cbn [orb andb].
    by destruct (Z.even q).
  - rewrite (proj2 (Z.ltb_ge _ _)) by nia.
    rewrite (proj2 (Z.eqb_neq _ _)) by nia. done.
  - rewrite (proj2 (Z.ltb_lt _ _)) by nia. done.
  - rewrite (proj2 (Z.ltb_lt _ _)) by nia. done.
Qed.

(** The conversion of a positive integer below [2^64]: a mantissa of 24
    digits and an exponent that together are [round24 n]. *)
Lemma float_of_Z_pos (p : positive) :
  Z.pos p < 2 ^ 64 →
  ∃ m e, float_of_Z (Z.pos p) = S754_finite false m e
         ∧ 2 ^ 23 <= Z.pos m < 2 ^ 24
         ∧ -23 <= e <= 41
         ∧ Z.pos m * 2 ^ (e + 23) = round24 (Z.pos p) * 2 ^ 23.
Proof.
  intros Hlt. unfold float_of_Z, binary_normalize, binary_round.
  pose proof (digits2_pos_bounds p) as [Hlo Hhi].
  pose proof (digits2_pos_log2 p) as Hlog.
  set (d := Z.pos (digits2_pos p)) in *.
  assert (Hd : 1 <= d <= 64).
  { split; [subst d; lia|].
    destruct (Z.leb_spec d 64); [done|].
    assert (2 ^ 64 <= 2 ^ (d - 1)) by (apply Z.pow_le_mono_r; lia). lia. }
  unfold round24. replace (Z.log2 (Z.pos p) - 23) with (d - 24) by lia.
  assert (Hfexp : fexp 24 128 (d + 0) = d - 24).
  { unfold fexp, emin. lia. }
  rewrite Hfexp. unfold shl_align.
  destruct (Z.leb_spec (d - 24) 0) as [Hsmall|Hbig].
  - destruct (d - 24 - 0) as [|c|c] eqn:Hc; [|lia|].
    + rewrite binary_round_aux_exact by lia.
      exists p, 0. split; [done|].
      replace (d - 1) with 23 in Hlo by lia. replace d with 24 in Hhi by lia.
      split; [lia|]. split; [lia|]. done.
    + destruct (pos_iter_xO p c) as [Hval Hdig].
      replace (d - 24) with (Z.neg c) by lia.
      rewrite binary_round_aux_exact; [|rewrite Hdig; lia|lia].
      exists (Pos.iter xO p c), (Z.neg c). split; [done|].
      assert (Hc' : Z.pos c = 24 - d) by lia.
      rewrite Hval, Hc'.
      assert (Hp1 : 2 ^ 23 = 2 ^ (d - 1) * 2 ^ (24 - d)).
      { rewrite <- Z.pow_add_r by lia. f_equal. lia. }
      assert (Hp2 : 2 ^ 24 = 2 ^ d * 2 ^ (24 - d)).
      { rewrite <- Z.pow_add_r by lia. f_equal. lia. }
      assert (Hp3 : 0 < 2 ^ (24 - d)) by (apply Z.pow_pos_nonneg; lia).
      split; [nia|]. split; [lia|].
      replace (Z.neg c + 23) with (d - 1) by lia. rewrite Hp1. lia.
  - destruct (d - 24 - 0) as [|c|c] eqn:Hc; [lia| |lia].
    assert (Hk : d - 24 = Z.pos c) by lia.
    unfold binary_round_aux, shr_fexp at 1.
    cbn [Zdigits2]. fold d. rewrite Hfexp, Z.sub_0_r, Hk.
    cbn [shr shr_record_of_loc].
    rewrite iter_pos_nat, iter_shr_1 by lia.
    rewrite <- Z2Nat.inj_pos.
    rewrite (round_shifted (Z.pos p) (Z.pos c)) by lia.
    set (q := Z.pos p / 2 ^ Z.pos c).
    set (m1 := if (_ || _)%bool then q else q + 1).
    assert (Hpow : 2 ^ d = 2 ^ 24 * 2 ^ Z.pos c).
    { rewrite <- Z.pow_add_r by lia. f_equal. lia. }
    assert (Hpow' : 2 ^ (d - 1) = 2 ^ 23 * 2 ^ Z.pos c).
    { rewrite <- Z.pow_add_r by lia. f_equal. lia. }
    assert (Hpc : 0 < 2 ^ Z.pos c) by (apply Z.pow_pos_nonneg; lia).
    assert (Hq : 2 ^ 23 <= q < 2 ^ 24).
    { subst q. split.
      - apply Z.div_le_lower_bound; lia.
      - apply Z.div_lt_upper_bound; lia. }
    assert (Hm1 : 2 ^ 23 <= m1 <= 2 ^ 24).
    { subst m1. destruct (_ || _); lia. }
    destruct (finish_spec false m1 (0 + Z.pos c)) as (m & e & Hfin & Hm & He & Hval);
      [done|lia|].
    unfold finish in Hfin. rewrite Hfin.
    exists m, e. split; [done|]. split; [done|]. split; [lia|].
    replace (e + 23) with ((e - (0 + Z.pos c)) + (Z.pos c + 23)) by lia.
    rewrite Z.pow_add_r, Z.mul_assoc, Hval by lia.
    rewrite Z.pow_add_r by lia. fold q. subst m1. lia.
Qed.

(** *** Rounding is monotone *)

Lemma round24_bounds (n : Z) :
  0 < n → 2 ^ Z.log2 n <= round24 n <= 2 ^ (Z.log2 n + 1).
Proof.
  intros Hn. pose proof (Z.log2_spec n Hn) as [Hlo Hhi].
  replace (Z.succ (Z.log2 n)) with (Z.log2 n + 1) in Hhi by lia.
  unfold round24. destruct (Z.leb_spec (Z.log2 n - 23) 0) as [Hk|Hk]; [lia|].
  set (k := Z.log2 n - 23) in *.
  assert (Hpk : 0 < 2 ^ k) by (apply Z.pow_pos_nonneg; lia).
  assert (H1 : 2 ^ Z.log2 n = 2 ^ 23 * 2 ^ k).
  { rewrite <- Z.pow_add_r by lia. f_equal. lia. }
  assert (H2 : 2 ^ (Z.log2 n + 1) = 2 ^ 24 * 2 ^ k).
  { rewrite <- Z.pow_add_r by lia. f_equal. lia. }
  assert (Hq : 2 ^ 23 <= n / 2 ^ k < 2 ^ 24).
  { split.
    - apply Z.div_le_lower_bound; lia.
    - apply Z.div_lt_upper_bound; lia. }
  rewrite H1, H2. destruct (_ || _); nia.
Qed.

Lemma round24_mono (a b : Z) : 0 < a → a <= b → round24 a <= round24 b.
Proof.
  intros Ha Hab.
  pose proof (Z.log2_le_mono a b Hab) as Hlog.
  pose proof (round24_bounds a Ha) as [_ Hua].
  pose proof (round24_bounds b ltac:(lia)) as [Hlb _].
  destruct (Z.eq_dec (Z.log2 a) (Z.log2 b)) as [Heq|Hne].
  2:{ assert (2 ^ (Z.log2 a + 1) <= 2 ^ Z.log2 b)
        by (apply Z.pow_le_mono_r; lia).
      lia. }
  unfold round24. rewrite Heq.
  destruct (Z.leb_spec (Z.log2 b - 23) 0) as [Hk|Hk]; [done|].
  set (k := Z.log2 b - 23) in *.
  assert (Hpk : 0 < 2 ^ k) by (apply Z.pow_pos_nonneg; lia).
  pose proof (Z.div_mod a (2 ^ k) ltac:(lia)) as Hda.
  pose proof (Z.div_mod b (2 ^ k) ltac:(lia)) as Hdb.
  pose proof (Z.mod_pos_bound a (2 ^ k) Hpk) as Hra.
  pose proof (Z.mod_pos_bound b (2 ^ k) Hpk) as Hrb.
  pose proof (Z.div_le_mono a b (2 ^ k) Hpk Hab) as Hq.
  set (qa := a / 2 ^ k) in *. set (qb := b / 2 ^ k) in *.
  set (ra := a mod 2 ^ k) in *. set (rb := b mod 2 ^ k) in *.
  set (half := 2 ^ (k - 1)).
  destruct (Z.eq_dec qa qb) as [Hqq|Hqq].
  - rewrite <- Hqq. assert (Hr : ra <= rb) by nia.
    destruct (Z.ltb_spec ra half) as [Ha1|Ha1];
    destruct (Z.ltb_spec rb half) as [Hb1|Hb1]; cbn [orb]; try nia.
    all: destruct (Z.eqb_spec ra half) as [Ha2|Ha2];
    destruct (Z.eqb_spec rb half) as [Hb2|Hb2]; cbn [andb]; try nia;
    destruct (Z.even qa); try nia.
  - assert (qa + 1 <= qb) by lia.
    destruct (_ || _); destruct (_ || _); nia.
Qed.

(** *** The quotient of two converted numbers *)

Lemma loc_of_shr_record_of_loc (m : Z) (l : location) :
  loc_of_shr_record (shr_record_of_loc m l) = l.
Proof. by destruct l as [|[]]. Qed.

Lemma round_nearest_even_bounds (m : Z) (l : location) :
  m <= round_nearest_even m l <= m + 1.
Proof. destruct l as [|[]]; cbn [round_nearest_even]; [lia| |lia|lia].
  destruct (Z.even m); lia. Qed.

(** Rounding a quotient of 24 or 25 digits. *)
Lemma binary_round_aux_quotient (q e : Z) (l : location) :
  2 ^ 23 <= q < 2 ^ 25 → -149 <= e <= 102 →
  ∃ m1 e1,
    binary_round_aux 24 128 false q e l = finish false m1 e1
    ∧ 2 ^ 23 <= m1 <= 2 ^ 24
    ∧ ((q < 2 ^ 24 ∧ e1 = e ∧ q <= m1 <= q + 1)
       ∨ (2 ^ 24 <= q ∧ e1 = e + 1 ∧ q / 2 <= m1 <= q / 2 + 1
          ∧ (l = loc_Exact → Z.odd q = false → m1 = q / 2))).
Proof.
  intros Hq He. destruct q as [|p|p]; [lia| |lia].
  unfold binary_round_aux, shr_fexp at 1. cbn [Zdigits2].
  destruct (Z.ltb_spec (Z.pos p) (2 ^ 24)) as [Hlt|Hge].
  - assert (Hd : Z.pos (digits2_pos p) = 24).
    { apply digits2_pos_unique. simpl. lia. }
    rewrite Hd. unfold fexp, emin.
    replace (Z.max (24 + e - 24) (3 - 128 - 24) - e) with 0 by lia.
    cbn [shr]. rewrite loc_of_shr_record_of_loc.
    assert (shr_m (shr_record_of_loc (Z.pos p) l) = Z.pos p) as ->
      by (by destruct l as [|[]]).
    pose proof (round_nearest_even_bounds (Z.pos p) l).
    eexists _, _. split; [reflexivity|]. split; [lia|]. left. lia.
  - assert (Hd : Z.pos (digits2_pos p) = 25).
    { apply digits2_pos_unique. simpl. lia. }
    rewrite Hd. unfold fexp, emin.
    replace (Z.max (25 + e - 24) (3 - 128 - 24) - e) with 1 by lia.
    cbn [shr SpecFloat.iter_pos].
    assert (Hrec : ∃ r s, shr_record_of_loc (Z.pos p) l
                          = Build_shr_record (Z.pos p) r s).
    { destruct l as [|[]]; by eexists _, _. }
    destruct Hrec as (r & s & Hrec). rewrite Hrec, shr_1_nonneg by lia.
    cbn [shr_m].
    pose proof (round_nearest_even_bounds (Z.pos p / 2)
                  (loc_of_shr_record
                     (Build_shr_record (Z.pos p / 2) (Z.odd (Z.pos p)) (r || s)))).
    assert (2 ^ 23 <= Z.pos p / 2 < 2 ^ 24).
    { split.
      - apply Z.div_le_lower_bound; lia.
      - apply Z.div_lt_upper_bound; lia. }
    eexists _, _. split; [reflexivity|]. split; [lia|]. right.
    split; [lia|]. split; [lia|]. split; [lia|].
    intros -> Hodd. cbn in Hrec. injection Hrec as <- <-.
    by rewrite Hodd.
Qed.

Lemma ltb_one32 (m : positive) (e : Z) :
  2 ^ 23 <= Z.pos m < 2 ^ 24 →
  SFltb (S754_finite false m e) one32 = (e <? -23).
Proof.
  intros Hm. unfold SFltb, SFcompare, one32.
  destruct (Z.compare_spec e (-23)) as [->|Hlt|Hgt].
  - rewrite Pos.compare_cont_spec. cbn [Pos.switch_Eq].
    change (-23 <? -23) with false.
    destruct (Pos.compare_spec m (2 ^ 23)) as [?|Hc|?]; [done| |done].
    apply Pos2Z.pos_lt_pos in Hc. lia.
  - by rewrite (proj2 (Z.ltb_lt _ _)).
  - by rewrite (proj2 (Z.ltb_ge _ _)) by lia.
Qed.

(** The core of the division of two mantissas of 24 digits. *)
Lemma SFdiv_core_canonical (m1 m2 : positive) (e1 e2 : Z) :
  2 ^ 23 <= Z.pos m1 < 2 ^ 24 → 2 ^ 23 <= Z.pos m2 < 2 ^ 24 →
  -23 <= e1 <= 41 → -23 <= e2 <= 41 →
  SFdiv_core_binary 24 128 (Z.pos m1) e1 (Z.pos m2) e2
  = (Z.pos m1 * 2 ^ 24 / Z.pos m2, e1 - e2 - 24,
     new_location (Z.pos m2) ((Z.pos m1 * 2 ^ 24) mod Z.pos m2)).
Proof.
  intros Hm1 Hm2 He1 He2. unfold SFdiv_core_binary. cbn [Zdigits2].
  rewrite (digits2_pos_unique m1 24), (digits2_pos_unique m2 24)
    by (simpl; lia).
  unfold fexp, emin.
  replace (Z.min (Z.max (24 + e1 - (24 + e2) - 24) (3 - 128 - 24)) (e1 - e2))
    with (e1 - e2 - 24) by lia.
  replace (e1 - e2 - (e1 - e2 - 24)) with 24 by lia.
  cbv iota. rewrite Z.shiftl_mul_pow2 by lia.
  unfold Z.div, Z.modulo.
  by destruct (Z.div_eucl (Z.pos m1 * 2 ^ 24) (Z.pos m2)).
Qed.

(** A converted number divided by one that is not larger is not below 1. *)
Lemma div_ge_not_below_one (m1 m2 : positive) (e1 e2 : Z) :
  2 ^ 23 <= Z.pos m1 < 2 ^ 24 → 2 ^ 23 <= Z.pos m2 < 2 ^ 24 →
  -23 <= e1 <= 41 → -23 <= e2 <= 41 →
  Z.pos m2 * 2 ^ (e2 + 23) <= Z.pos m1 * 2 ^ (e1 + 23) →
  SFltb (SFdiv 24 128 (S754_finite false m1 e1) (S754_finite false m2 e2))
    one32 = false.
Proof.
  intros Hm1 Hm2 He1 He2 Hge. cbn [SFdiv xorb].
  rewrite SFdiv_core_canonical by done.
  set (q := Z.pos m1 * 2 ^ 24 / Z.pos m2).
  assert (He : e2 <= e1).
  { destruct (Z.leb_spec e2 e1); [done|].
    assert (2 ^ (e1 + 23) * 2 <= 2 ^ (e2 + 23)).
    { replace (2 ^ (e1 + 23) * 2) with (2 ^ (e1 + 24)).
      - apply Z.pow_le_mono_r; lia.
      - replace (e1 + 24) with (Z.succ (e1 + 23)) by lia.
        rewrite Z.pow_succ_r by lia. lia. }
    assert (0 < 2 ^ (e1 + 23)) by (apply Z.pow_pos_nonneg; lia).
    nia. }
  assert (Hq : 2 ^ 23 <= q < 2 ^ 25).
  { subst q. split.
    - apply Z.div_le_lower_bound; [lia|]. nia.
    - apply Z.div_lt_upper_bound; [lia|]. nia. }
  assert (Hq' : e1 = e2 → 2 ^ 24 <= q).
  { intros ->. subst q. apply Z.div_le_lower_bound; [lia|].
    assert (0 < 2 ^ (e2 + 23)) by (apply Z.pow_pos_nonneg; lia). nia. }
  destruct (binary_round_aux_quotient q (e1 - e2 - 24)
              (new_location (Z.pos m2) ((Z.pos m1 * 2 ^ 24) mod Z.pos m2)))
    as (mr & er & -> & Hmr & Hcase); [done|lia|].
  destruct (finish_spec false mr er) as (m & e & -> & Hm & Hee & _);
    [done|lia|].
  rewrite ltb_one32 by done. apply Z.ltb_ge.
  destruct Hcase as [(? & -> & _)|(? & -> & _)].
  - destruct (Z.eq_dec e1 e2); [|lia]. specialize (Hq' ltac:(done)). lia.
  - lia.
Qed.

(** A converted number divided by a larger one is below 1. *)
Lemma div_lt_below_one (m1 m2 : positive) (e1 e2 : Z) :
  2 ^ 23 <= Z.pos m1 < 2 ^ 24 → 2 ^ 23 <= Z.pos m2 < 2 ^ 24 →
  -23 <= e1 <= 41 → -23 <= e2 <= 41 →
  Z.pos m1 * 2 ^ (e1 + 23) < Z.pos m2 * 2 ^ (e2 + 23) →
  SFltb (SFdiv 24 128 (S754_finite false m1 e1) (S754_finite false m2 e2))
    one32 = true.
Proof.
  intros Hm1 Hm2 He1 He2 Hlt. cbn [SFdiv xorb].
  rewrite SFdiv_core_canonical by done.
  set (q := Z.pos m1 * 2 ^ 24 / Z.pos m2).
  set (rest := (Z.pos m1 * 2 ^ 24) mod Z.pos m2).
  assert (He : e1 <= e2).
  { destruct (Z.leb_spec e1 e2); [done|].
    assert (2 ^ (e2 + 23) * 2 <= 2 ^ (e1 + 23)).
    { replace (2 ^ (e2 + 23) * 2) with (2 ^ (e2 + 24)).
      - apply Z.pow_le_mono_r; lia.
      - replace (e2 + 24) with (Z.succ (e2 + 23)) by lia.
        rewrite Z.pow_succ_r by lia. lia. }
    assert (0 < 2 ^ (e2 + 23)) by (apply Z.pow_pos_nonneg; lia).
    nia. }
  pose proof (Z.div_mod (Z.pos m1 * 2 ^ 24) (Z.pos m2) ltac:(lia)) as Hdm.
  pose proof (Z.mod_pos_bound (Z.pos m1 * 2 ^ 24) (Z.pos m2) ltac:(lia)) as Hr.
  fold q rest in Hdm, Hr.
  assert (Hq : 2 ^ 23 <= q <= 2 ^ 25 - 2).
  { split.
    - subst q. apply Z.div_le_lower_bound; [lia|]. nia.
    - assert (q < 2 ^ 25 - 1); [|lia].
      subst q. apply Z.div_lt_upper_bound; [lia|]. nia. }
  assert (Hq1 : e1 = e2 → q <= 2 ^ 24 - 2).
  { intros ->. assert (q < 2 ^ 24 - 1); [|lia].
    subst q. apply Z.div_lt_upper_bound; [lia|].
    assert (0 < 2 ^ (e2 + 23)) by (apply Z.pow_pos_nonneg; lia).
    assert (Z.pos m1 < Z.pos m2) by (eapply Z.mul_lt_mono_pos_r; eauto).
    lia. }
  assert (Hq2 : q = 2 ^ 25 - 2 → rest = 0 ∧ Z.pos m2 = 2 ^ 23).
  { intros Hqq. rewrite Hqq in Hdm. lia. }
  destruct (binary_round_aux_quotient q (e1 - e2 - 24)
              (new_location (Z.pos m2) rest))
    as (mr & er & -> & Hmr & Hcase); [lia|lia|].
  destruct (finish_spec false mr er) as (m & e & -> & Hm & Hee & Hval);
    [done|lia|].
  rewrite ltb_one32 by done. apply Z.ltb_lt.
  assert (Hnoover : mr < 2 ^ 24 → e = er).
  { intros Hsmall. destruct (Z.eq_dec e er) as [|Hne]; [done|].
    replace (e - er) with 1 in Hval by lia. lia. }
  destruct Hcase as [(Hq24 & -> & Hmq)|(Hq24 & -> & Hmq & Hexact)].
  - destruct (Z.eq_dec e1 e2) as [Heq|Hne].
    + specialize (Hq1 Heq). rewrite Hnoover; lia.
    + lia.
  - destruct (Z.eq_dec e1 e2) as [Heq|Hne].
    { specialize (Hq1 Heq). lia. }
    destruct (Z.eq_dec (e1 + 1) e2) as [Heq1|Hne1]; [|lia].
    rewrite Hnoover; [lia|].
    destruct (Z.eq_dec q (2 ^ 25 - 2)) as [Hqq|Hqq].
    + destruct (Hq2 Hqq) as [Hrest Hm2'].
      rewrite Hexact; [rewrite Hqq; done| |by rewrite Hqq].
      rewrite Hrest, Hm2'. reflexivity.
    + assert (q / 2 < 2 ^ 24 - 1); [|lia].
      apply Z.div_lt_upper_bound; lia.
Qed.

(** *** The test of the prefetch, in integers *)

Lemma round24_pos (n : Z) : 0 < n → 0 < round24 n.
Proof.
  intros Hn. pose proof (round24_bounds n Hn) as [Hlo _].
  assert (0 < 2 ^ Z.log2 n)
    by (apply Z.pow_pos_nonneg; [lia|apply Z.log2_nonneg]).
  lia.
Qed.

(** The quotient of two converted [size_t] values is below 1.0 exactly when
    the first, rounded to 24 bits, is below the second, rounded to 24
    bits. *)
Theorem quotient_below_one (a b : Z) :
  0 <= a < 2 ^ 64 → 0 <= b < 2 ^ 64 →
  SFltb (SFdiv 24 128 (float_of_Z a) (float_of_Z b)) (float_of_Z 1) = true
  ↔ round24 a < round24 b.
Proof.
  intros Ha Hb. change (float_of_Z 1) with one32.
  destruct b as [|pb|pb]; [| |lia].
  { change (float_of_Z 0) with (S754_zero false). change (round24 0) with 0.
    destruct a as [|pa|pa]; [| |lia].
    - change (float_of_Z 0) with (S754_zero false). change (round24 0) with 0.
      split; [discriminate|intros; exfalso; lia].
    - destruct (float_of_Z_pos pa) as (m & e & -> & _); [lia|].
      pose proof (round24_pos (Z.pos pa) ltac:(lia)) as Hpos.
      split; [discriminate|]. intros Hneg. by apply Z.lt_asymm in Hneg. }
  destruct (float_of_Z_pos pb) as (mb & eb & -> & Hmb & Heb & Hvb); [lia|].
  destruct a as [|pa|pa]; [| |lia].
  { change (float_of_Z 0) with (S754_zero false). change (round24 0) with 0.
    pose proof (round24_pos (Z.pos pb) ltac:(lia)). split; [lia|reflexivity]. }
  destruct (float_of_Z_pos pa) as (ma & ea & -> & Hma & Hea & Hva); [lia|].
  destruct (Z.lt_ge_cases (round24 (Z.pos pa)) (round24 (Z.pos pb)))
    as [Hlt|Hge].
  - rewrite div_lt_below_one by (done || lia). done.
  - rewrite div_ge_not_below_one by (done || lia).
    split; [discriminate|intros; exfalso; lia].
Qed.

Corollary quotient_below_one_lt (a b : Z) :
  0 <= a < 2 ^ 64 → 0 <= b < 2 ^ 64 →
  SFltb (SFdiv 24 128 (float_of_Z a) (float_of_Z b)) (float_of_Z 1) = true → a < b.
Proof.
  intros Ha Hb Hq. apply quotient_below_one in Hq; [|done..].
  destruct (Z.lt_ge_cases a b) as [|Hge]; [done|].
  destruct (Z.eq_dec b 0) as [->|Hb0].
  - change (round24 0) with 0 in Hq.
    destruct (Z.eq_dec a 0) as [->|]; [done|].
    pose proof (round24_pos a). lia.
  - pose proof (round24_mono b a). lia.
Qed.

End FloatFacts.
Import FloatFacts.

(** ** cudaPrefetchInputs *)

Module Prefetch.
Import MTWrapper.

Lemma rows_split_indices_snoc (splits : list VectorSplit) (n : nat) split :
  splits !! n = Some split →
  rows_split_indices (take (S n) splits)
  = rows_split_indices (take n splits)
    ++ (if decide (split = SplitROWS) then [n] else []).
Proof.
  intros Hs. unfold rows_split_indices.
  rewrite (take_S_r _ _ _ Hs), imap_app, omap_app. simpl.
  rewrite length_take, Nat.min_l, Nat.add_0_r
    by (apply lookup_lt_Some in Hs; lia).
  by destruct (decide (split = SplitROWS)).
Qed.

Lemma elem_of_rows_split_indices (splits : list VectorSplit) (i : nat) :
  i ∈ rows_split_indices splits ↔ splits !! i = Some SplitROWS.
Proof.
  unfold rows_split_indices. rewrite list_elem_of_omap. split.
  - intros ([j split] & Hin & Hsome).
    apply elem_of_lookup_imap in Hin as (k & y & Heq & Hk).
    injection Heq as -> ->.
    destruct (decide (y = SplitROWS)) as [->|]; [|done].
    by injection Hsome as ->.
  - intros Hi. exists (i, SplitROWS). split.
    + apply elem_of_lookup_imap. by exists i, SplitROWS.
    + by rewrite decide_True.
Qed.

(** The loop that walks the inputs, once it is entered. *)
Lemma prefetch_rounds (inputs : list Structure) (splits : list VectorSplit)
    (n : nat) :
  n ≤ length inputs → n ≤ length splits →
  for_range 0 n (λ i prefetched,
    split ← splits !! i;
    if decide (split = SplitROWS) then
      _ ← inputs !! i; Some (prefetched ++ [i])
    else Some prefetched) []
  = Some (rows_split_indices (take n splits)).
Proof.
  induction n as [|n IH]; intros Hi Hs; [done|].
  rewrite for_range_snoc, IH by lia. simpl.
  destruct (lookup_lt_is_Some_2 inputs n) as [input Hin]; [lia|].
  destruct (lookup_lt_is_Some_2 splits n) as [split Hsp]; [lia|].
  rewrite Hsp. simpl. rewrite (rows_split_indices_snoc _ _ _ Hsp).
  destruct (decide (split = SplitROWS)).
  - by rewrite Hin.
  - by rewrite app_nil_r.
Qed.

(** In single precision a finite number divided by itself is 1.0, and
    dividing zero by zero gives no number at all: the quotient of a number
    by itself is never below 1.0. *)
Lemma float_div_same_not_below_one (x : float) :
  float_ltb (float_div x x) float_one = false.
Proof.
  destruct x as [s|s| |s m e]; try reflexivity.
  unfold float_div, SFdiv, SFdiv_core_binary.
  rewrite !Z.sub_diag.
  change (Z.min (fexp 24 128 0) 0) with (-24)%Z.
  change (0 - -24)%Z with 24%Z. cbv iota.
  rewrite Z.shiftl_mul_pow2 by lia.
  pose proof (Z_div_mod_full (Z.pos m * 2 ^ 24) (Z.pos m)) as Hdm.
  unfold Z.div, Z.modulo in *.
  assert (Hq : (Z.pos m * 2 ^ 24 / Z.pos m = 2 ^ 24)%Z).
  { rewrite Z.mul_comm. apply Z.div_mul. lia. }
  assert (Hr : ((Z.pos m * 2 ^ 24) mod Z.pos m = 0)%Z).
  { rewrite Z.mul_comm. apply Z.mod_mul. lia. }
  unfold Z.div, Z.modulo in Hq, Hr.
  destruct (Z.div_eucl (Z.pos m * 2 ^ 24) (Z.pos m)) as [q r].
  subst q r. clear Hdm.
  assert (Hloc : new_location (Z.pos m) 0 = loc_Exact) by (by destruct m).
  rewrite Hloc. by destruct s.
Qed.

Lemma buffer_usage_at_budget (budget : N) :
  float_ltb (buffer_usage budget budget) float_one = false.
Proof. apply float_div_same_not_below_one. Qed.

(** The test of the prefetch in integers: the quotient is below 1.0 exactly
    when [memRequired], rounded to 24 significant bits, is below the budget,
    rounded to 24 significant bits. *)
Lemma buffer_usage_below_one (mem_required budget : N) :
  (mem_required < 2 ^ 64)%N → (budget < 2 ^ 64)%N →
  float_ltb (buffer_usage mem_required budget) float_one = true
  ↔ (round24 (Z.of_N mem_required) < round24 (Z.of_N budget))%Z.
Proof.
  intros Hm Hb. apply quotient_below_one.
  - split; [lia|]. change (2 ^ 64)%Z with (Z.of_N (2 ^ 64)). lia.
  - split; [lia|]. change (2 ^ 64)%Z with (Z.of_N (2 ^ 64)). lia.
Qed.

Lemma buffer_usage_below_one_lt (mem_required budget : N) :
  (mem_required < 2 ^ 64)%N → (budget < 2 ^ 64)%N →
  float_ltb (buffer_usage mem_required budget) float_one = true →
  (mem_required < budget)%N.
Proof.
  intros Hm Hb Hlt.
  assert (Z.of_N mem_required < Z.of_N budget)%Z; [|lia].
  apply quotient_below_one_lt; [| |done].
  - split; [lia|]. change (2 ^ 64)%Z with (Z.of_N (2 ^ 64)). lia.
  - split; [lia|]. change (2 ^ 64)%Z with (Z.of_N (2 ^ 64)). lia.
Qed.

(** C5, as the code has it. With an accelerator context, the inputs moved
    to the device are the row-split inputs, in order, when the quotient of
    [memRequired] by the budget, taken in single precision, is below 1.0,
    and none otherwise; an input with split [NONE] is never moved. The
    quotient is below 1.0 exactly when [memRequired] rounded to 24
    significant bits is below the budget rounded to 24 significant bits:
    inputs are moved only if [memRequired] is below the budget, and not when
    it equals the budget. *)
Theorem cudaPrefetchInputs_spec (ctx : DaphneContext) (cctx : CUDAContext)
    (inputs : list Structure) (numInputs : nat) (mem_required : N)
    (splits : list VectorSplit) :
  cuda_contexts ctx !! 0%nat = Some cctx →
  length inputs = numInputs → length splits = numInputs →
  (mem_required < 2 ^ 64)%N → (getMemBudget cctx < 2 ^ 64)%N →
  ∃ prefetched,
    cudaPrefetchInputs ctx inputs numInputs mem_required splits
      = Some prefetched
    ∧ prefetched
      = (if float_ltb (buffer_usage mem_required (getMemBudget cctx)) float_one
         then rows_split_indices splits else [])
    ∧ (float_ltb (buffer_usage mem_required (getMemBudget cctx)) float_one
       = true
       ↔ (round24 (Z.of_N mem_required)
          < round24 (Z.of_N (getMemBudget cctx)))%Z)
    ∧ (∀ i, i ∈ prefetched ↔
            splits !! i = Some SplitROWS
            ∧ (round24 (Z.of_N mem_required)
               < round24 (Z.of_N (getMemBudget cctx)))%Z)
    ∧ (∀ i, splits !! i = Some SplitNONE → i ∉ prefetched)
    ∧ (prefetched ≠ [] → (mem_required < getMemBudget cctx)%N)
    ∧ (mem_required = getMemBudget cctx → prefetched = []).
Proof.
  intros Hctx Hi Hs Hmem Hbudget.
  pose proof (buffer_usage_below_one _ _ Hmem Hbudget) as Hiff.
  unfold cudaPrefetchInputs. rewrite Hctx. simpl.
  destruct (float_ltb _ float_one) eqn:Hlt.
  - rewrite prefetch_rounds by lia.
    rewrite <- Hs, firstn_all.
    exists (rows_split_indices splits). split; [done|]. split; [done|].
    split; [done|]. split; [|split; [|split]].
    + intros i. rewrite elem_of_rows_split_indices.
      split; [intros ?; split; [done|by apply Hiff]|by intros [? _]].
    + intros i Hnone Hin. apply elem_of_rows_split_indices in Hin. congruence.
    + intros _. by apply buffer_usage_below_one_lt.
    + intros Heq. rewrite Heq, buffer_usage_at_budget in Hlt. done.
  - exists []. split; [done|]. split; [done|]. split; [done|].
    split; [|split; [|split; [done|done]]].
    + intros i. split; [by intros ?%elem_of_nil|].
      intros [_ Hr]. apply Hiff in Hr. done.
    + intros i _. apply not_elem_of_nil.
Qed.

Lemma cudaPrefetchInputs_spec_witness :
  cudaPrefetchInputs example_ctx example_inputs 3 240 example_splits
  = Some [0; 2]%nat.
Proof.
  destruct (cudaPrefetchInputs_spec example_ctx (mkCUDAContext 8589934592)
              example_inputs 3 240 example_splits eq_refl eq_refl eq_refl
              eq_refl eq_refl)
    as (prefetched & -> & -> & _).
  reflexivity.
Defined.

(** The claim C5 as the specification words it fails when [memRequired]
    equals the budget: the quotient is 1.0, which is not below 1.0, and
    nothing is moved although [memRequired <= budget]. *)
Lemma cudaPrefetchInputs_at_budget_counterexample :
  cudaPrefetchInputs example_ctx example_inputs 3 8589934592 example_splits
  = Some []
  ∧ (8589934592 <= getMemBudget (mkCUDAContext 8589934592))%N.
Proof. split; [vm_compute; reflexivity|]. simpl. lia. Qed.

(** Single precision has 24 bits: just below the budget can already be
    too close to tell. *)
Example cudaPrefetchInputs_near_budget :
  cudaPrefetchInputs example_ctx example_inputs 3 8589934591 example_splits
  = Some [].
Proof. vm_compute. reflexivity. Qed.

End Prefetch.

(** ** combineOutputs for CSR outputs *)

Module CombineOutputs.
Import MTWrapper.

(** C1, as the code has it. For CSR outputs the scheduler's
    [combineOutputs] does nothing, whatever the combine descriptors are:
    every output slot, of the CPU results and of the accelerator results,
    holds after the call what it held before. The final matrix of an
    output is the one its slot already held; nothing is concatenated. *)
Theorem combineOutputs_CSR_keeps_slots {VT : Type}
    (res res_cuda : list (option (CSRMatrix VT))) (numOutputs : nat)
    (combines : list VectorCombine) :
  combineOutputs_CSR res res_cuda numOutputs combines = (res, res_cuda)
  ∧ ∀ i : nat,
      (combineOutputs_CSR res res_cuda numOutputs combines).1 !! i = res !! i
      ∧ (combineOutputs_CSR res res_cuda numOutputs combines).2 !! i
        = res_cuda !! i.
Proof. split; [reflexivity|]. intros i. split; reflexivity. Qed.

(** The claim C1 as the specification words it fails: after
    [combineOutputs] the slot holds the one-value matrix it held before,
    not a matrix whose arrays are sized by the sum of the parts' nnz. *)
Lemma combineOutputs_CSR_counterexample :
  (combineOutputs_CSR [Some part_cpu] [Some part_cuda] 1 [CombineROWS]).1
    !! 0%nat = Some (Some part_cpu)
  ∧ ¬ rows_concatenation [part_cpu; part_cuda] part_cpu.
Proof.
  split; [reflexivity|]. intros (Hlen & _). vm_compute in Hlen. discriminate.
Qed.

End CombineOutputs.

(** ** get_topology *)

Module Topology.
Import MTWrapper.

(** *** The loop reads the whole stream *)

Lemma fgets_chars_append n s :
  String.append (fgets_chars n s).1 (fgets_chars n s).2 = s.
Proof.
  revert s. induction n as [|n IH]; intros s; [done|].
  destruct s as [|c s]; [done|]. cbn [fgets_chars].
  destruct (Ascii.eqb c newline); [done|].
  specialize (IH s). destruct (fgets_chars n s) as [buf rest]. cbn in *.
  by rewrite IH.
Qed.

Lemma fgets_chars_rest_le n s :
  String.length (fgets_chars n s).2 ≤ String.length s.
Proof.
  revert s. induction n as [|n IH]; intros s; [done|].
  destruct s as [|c s]; [done|]. cbn [fgets_chars].
  destruct (Ascii.eqb c newline); [cbn; lia|].
  specialize (IH s). destruct (fgets_chars n s) as [buf rest].
  cbn in *. lia.
Qed.

Lemma fgets_chars_shorter n c s :
  String.length (fgets_chars (S n) (String c s)).2 ≤ String.length s.
Proof.
  cbn [fgets_chars]. destruct (Ascii.eqb c newline); [done|].
  pose proof (fgets_chars_rest_le n s) as Hle.
  by destruct (fgets_chars n s) as [buf rest].
Qed.

Lemma fgets_loop_all fuel s :
  String.length s ≤ fuel →
  foldr String.append EmptyString (fgets_loop fuel s) = s.
Proof.
  revert s. induction fuel as [|fuel IH]; intros s Hlen.
  - destruct s; [done|simpl in Hlen; lia].
  - destruct s as [|c s]; [done|].
    cbn [fgets_loop fgets]. change (128 - 1)%nat with (S 126).
    pose proof (fgets_chars_shorter 126 c s) as Hshort.
    pose proof (fgets_chars_append (S 126) (String c s)) as Happ.
    destruct (fgets_chars (S 126) (String c s)) as [buf rest].
    cbn [foldr]. rewrite IH; [done|]. simpl in *. lia.
Qed.

(** The buffers the loop sees, put together, are the stream: the bound on
    the iterations is never what ends the loop. *)
Lemma fgets_buffers_all s :
  foldr String.append EmptyString (fgets_buffers s) = s.
Proof. by apply fgets_loop_all. Qed.

(** *** From buffers to keys *)

Lemma topology_line_key buffer st :
  topology_line buffer st = line_key buffer ≫= λ k, key_step k st.
Proof.
  unfold topology_line, line_key.
  destruct (_parse_line buffer "processor") as [[v|]|]; [done| |done].
  simpl.
  destruct (_parse_line buffer "physical id") as [[v|]|]; [done| |done].
  simpl.
  by destruct (_parse_line buffer "core id") as [[v|]|].
Qed.

Lemma topology_lines_keys buffers keys st :
  mapM line_key buffers = Some keys →
  topology_lines buffers st = key_steps keys st.
Proof.
  intros H%mapM_Some_1. revert st.
  induction H as [|buffer k buffers keys Hk _ IH]; intros st; [done|].
  cbn [topology_lines key_steps]. rewrite topology_line_key, Hk.
  cbn [mbind option_bind].
  destruct (key_step k st) as [st'|]; [apply IH|done].
Qed.

Lemma key_steps_skip keys st :
  key_steps keys st = key_steps (Some <$> omap id keys) st.
Proof.
  revert st. induction keys as [|[k|] keys IH]; intros st; [done| |].
  - cbn [omap list_omap id fmap list_fmap key_steps].
    destruct (key_step (Some k) st); [apply IH|done].
  - cbn [omap list_omap id key_steps key_step mbind option_bind]. apply IH.
Qed.



(** *** Running the loop on records *)

Local Abbreviation proc' := (λ r, int_of_uint32 (rec_processor r)).
Local Abbreviation phys' := (λ r, int_of_uint32 (rec_physical_id r)).
Local Abbreviation core' := (λ r, int_of_uint32 (rec_core_id r)).

Lemma same_core_decide (a b : cpu_record) :
  rec_in_range a → rec_in_range b →
  same_core a b
  = bool_decide (uint32_of_Z (core' a) = rec_core_id b)
    && bool_decide (phys' a = phys' b).
Proof.
  intros [Ha1 Ha2] [Hb1 Hb2]. unfold same_core.
  rewrite uint32_of_int_of_uint32 by done.
  rewrite andb_comm. f_equal.
  - destruct (N.eqb_spec (rec_core_id a) (rec_core_id b)).
    + by rewrite bool_decide_eq_true_2.
    + by rewrite bool_decide_eq_false_2.
  - destruct (N.eqb_spec (rec_physical_id a) (rec_physical_id b)) as [Heq|Hne].
    + rewrite bool_decide_eq_true_2; [done|]. by rewrite Heq.
    + rewrite bool_decide_eq_false_2; [done|].
      intros Heq. apply Hne. by apply int_of_uint32_inj.
Qed.

Lemma count_found_rounds done r n :
  Forall rec_in_range done → rec_in_range r → n ≤ length done →
  for_range 0 n (λ i found,
    c ← (core' <$> done) !! i;
    if decide (uint32_of_Z c = rec_core_id r) then
      p ← ((phys' <$> done) ++ [phys' r]) !! i;
      q ← ((phys' <$> done) ++ [phys' r]) !! length done;
      Some (if decide (p = q) then S found else found)
    else Some found) 0%nat
  = Some (length (List.filter (λ r', same_core r' r) (take n done))).
Proof.
  intros Hdone Hr. induction n as [|n IH]; intros Hn; [done|].
  rewrite for_range_snoc, IH by lia. simpl.
  destruct (lookup_lt_is_Some_2 done n) as [r' Hr']; [lia|].
  rewrite (take_S_r _ _ _ Hr'), List.filter_app, length_app.
  rewrite list_lookup_fmap, Hr'. simpl.
  assert (Hin : rec_in_range r').
  { eapply Forall_lookup_1; eauto. }
  rewrite (same_core_decide r' r Hin Hr).
  destruct (decide (uint32_of_Z (core' r') = rec_core_id r)) as [Hc|Hc].
  - rewrite bool_decide_eq_true_2 by done.
    rewrite (lookup_app_l _ _ n) by (rewrite length_fmap; lia).
    rewrite list_lookup_fmap, Hr'. simpl.
    rewrite (lookup_app_r _ _ (length done)) by (rewrite length_fmap; lia).
    rewrite length_fmap, Nat.sub_diag. simpl.
    destruct (decide (phys' r' = phys' r)) as [Hp|Hp].
    + rewrite bool_decide_eq_true_2 by done. cbn. f_equal. lia.
    + rewrite bool_decide_eq_false_2 by done. cbn. f_equal. lia.
  - rewrite bool_decide_eq_false_2 by done. cbn. f_equal. lia.
Qed.

Lemma is_primary_filter earlier r :
  is_primary earlier r = true
  ↔ length (List.filter (λ r', same_core r' r) earlier) = 0%nat.
Proof.
  unfold is_primary. induction earlier as [|r' earlier IH]; [done|].
  simpl. destruct (same_core r' r); simpl; [split; [done|lia]|apply IH].
Qed.


Lemma key_steps_records rs : ∀ done uniq,
  Forall rec_in_range done → Forall rec_in_range rs →
  key_steps (Some <$> concat (record_keys <$> rs))
    (mkTopo (proc' <$> done) (phys' <$> done) (core' <$> done) uniq
       (length done))
  = Some (mkTopo (proc' <$> done ++ rs) (phys' <$> done ++ rs)
            (core' <$> done ++ rs) (uniq ++ primary_from done rs)
            (length (done ++ rs))).
Proof.
  induction rs as [|r rs IH]; intros done uniq Hdone Hrs.
  { simpl. by rewrite !app_nil_r. }
  apply Forall_cons in Hrs as [Hr Hrs].
  cbn [fmap list_fmap concat record_keys app key_steps key_step
       hardware_threads physical_ids core_ids unique_threads index
       mbind option_bind].
  unfold count_found.
  cbn [hardware_threads physical_ids core_ids unique_threads index].
  rewrite (count_found_rounds done r (length done)) by done.
  cbn [mbind option_bind]. rewrite firstn_all.
  rewrite lookup_app_r by (rewrite length_fmap; lia).
  rewrite length_fmap, Nat.sub_diag.
  cbn [lookup list_lookup mbind option_bind].
  assert (Huniq :
    (if decide (length (List.filter (λ r', same_core r' r) done) = 0%nat)
     then Some (uniq ++ [proc' r]) else Some uniq)
    = Some (uniq ++ (if is_primary done r then [proc' r] else []))).
  { destruct (decide _) as [Hz|Hnz].
    - apply is_primary_filter in Hz. by rewrite Hz.
    - destruct (is_primary done r) eqn:Hp.
      + by apply is_primary_filter in Hp.
      + by rewrite app_nil_r. }
  rewrite Huniq. cbn [mbind option_bind].
  specialize (IH (done ++ [r]) (uniq ++ (if is_primary done r then [proc' r] else []))).
  rewrite !fmap_app, length_app in IH. simpl in IH.
  replace (length done + 1)%nat with (S (length done)) in IH by lia.
  rewrite IH; [|by apply Forall_app; split; [|apply Forall_singleton]|done].
  rewrite <- !(assoc_L (++)). simpl.
  by rewrite !fmap_app, !fmap_cons.
Qed.





(** C3, at the failing input. When the CPU-info source cannot be opened,
    [get_topology] prints its message and goes on to read from the null
    stream: the run is undefined and no topology is reported. *)
Theorem get_topology_unopened (physical_ids0 unique_threads0 : list Z) :
  get_topology None physical_ids0 unique_threads0
  = (["Error opening file."%string], None).
Proof. reflexivity. Qed.

Example example_cpuinfo_run :
  get_topology (Some example_cpuinfo) [] []
  = ([], Some ([0; 0; 0; 0]%Z, [0; 2]%Z)).
Proof. vm_compute. reflexivity. Qed.

End Topology.

(** ** genGivenVals *)

Module GenGivenValsProofs.
Import GenGivenVals.

Section Dense.
Context {VT : Type} `{!EqDecision VT}.
Variable zero : VT.
Variable stale : nat → VT.

Lemma length_fresh_values n zeroed :
  length (fresh_values zero stale n zeroed) = n.
Proof.
  unfold fresh_values. destruct zeroed.
  - apply length_replicate.
  - by rewrite length_fmap, length_seq.
Qed.

Lemma generate_dense_values (numRows : nat) (elements : list VT) :
  0 < numRows → (length elements mod numRows = 0)%nat →
  generate_dense zero stale numRows elements
  = Some (mkDense numRows (length elements / numRows) elements).
Proof.
  intros Hrows Hdiv. unfold generate_dense.
  rewrite decide_False by lia. rewrite decide_True by done.
  assert (Hcells : (numRows * (length elements / numRows))%nat
                   = length elements).
  { symmetry. apply Nat.Div0.div_exact. done. }
  unfold memcpy, create_dense. cbn [dm_values dm_numRows dm_numCols].
  rewrite decide_True by (rewrite length_fresh_values; lia).
  cbn [mbind option_bind]. do 2 f_equal.
  rewrite firstn_all, drop_ge; [apply app_nil_r|].
  rewrite length_fresh_values. lia.
Qed.
End Dense.

(** C9. For [numRows > 0] and a vector of elements whose length is
    divisible by [numRows], [genGivenVals] for [DenseMatrix] returns a
    matrix with [numRows] rows and [elements.size() / numRows] columns
    whose values are the elements in row-major order: the cell [(i, j)]
    holds [elements[i * numCols + j]]. *)
Theorem generate_dense_spec {VT : Type} `{!EqDecision VT} (zero : VT)
    (stale : nat → VT) (numRows : nat) (elements : list VT) :
  0 < numRows → (length elements mod numRows = 0)%nat →
  ∃ m,
    generate_dense zero stale numRows elements = Some m
    ∧ dm_numRows m = numRows
    ∧ dm_numCols m = (length elements / numRows)%nat
    ∧ dm_values m = elements
    ∧ ∀ i j, i < numRows → j < dm_numCols m →
        ∃ v, dense_get m i j = Some v
             ∧ elements !! (i * dm_numCols m + j)%nat = Some v.
Proof.
  intros Hrows Hdiv. eexists. split; [by apply generate_dense_values|].
  cbn [dm_numRows dm_numCols dm_values]. repeat split.
  intros i j Hi Hj. unfold dense_get. cbn [dm_numRows dm_numCols dm_values].
  rewrite decide_True by done.
  assert (Hcells : (numRows * (length elements / numRows))%nat
                   = length elements).
  { symmetry. by apply Nat.Div0.div_exact. }
  destruct (lookup_lt_is_Some_2 elements
              (i * (length elements / numRows) + j)) as [v Hv].
  { revert Hcells Hj. generalize (length elements / numRows)%nat.
    intros q Hcells Hj. rewrite <- Hcells. nia. }
  by exists v.
Qed.

(** The example of the documentation: the matrix 3 1 4 / 1 5 9. *)
Lemma generate_dense_spec_witness :
  ∃ m, generate_dense 0%Z (λ _, 42%Z) 2 [3; 1; 4; 1; 5; 9]%Z = Some m
       ∧ dm_numRows m = 2%nat ∧ dm_numCols m = 3%nat
       ∧ dense_get m 1 2 = Some 9%Z.
Proof.
  destruct (generate_dense_spec 0%Z (λ _, 42%Z) 2 [3; 1; 4; 1; 5; 9]%Z)
    as (m & Hm & Hr & Hc & Hv & Hget); [lia|reflexivity|].
  exists m. split; [exact Hm|]. split; [exact Hr|]. split; [exact Hc|].
  destruct (Hget 1%nat 2%nat) as (v & Hv1 & Hv2); [lia|rewrite Hc; cbn; lia|].
  rewrite Hv1, <- Hv2, Hc. reflexivity.
Defined.

Section Buffers.
Context {A : Type}.

Lemma store_in_range (buf : list A) (i : nat) (x : A) :
  i < length buf → store buf i x = Some (<[i := x]> buf).
Proof. intros Hi. unfold store. by rewrite decide_True. Qed.

(** Overwriting the cells from [p] on by [a] and then those after by [b]
    is overwriting them by [a ++ b]. *)
Lemma splice_twice (l a b : list A) (p : nat) :
  p + length a + length b ≤ length l →
  take (p + length a) (take p l ++ a ++ drop (p + length a) l)
    ++ b
    ++ drop (p + length a + length b) (take p l ++ a ++ drop (p + length a) l)
  = take p l ++ (a ++ b) ++ drop (p + length (a ++ b)) l.
Proof.
  intros Hlen.
  assert (Hp : length (take p l) = p) by (rewrite length_take; lia).
  rewrite (assoc_L (++) (take p l) a).
  assert (Hpa : length (take p l ++ a) = (p + length a)%nat)
    by (rewrite length_app; lia).
  rewrite take_app_length' by done.
  rewrite drop_app_ge by lia.
  rewrite Hpa, drop_drop, length_app.
  replace (p + length a + (p + length a + length b - (p + length a)))%nat
    with (p + (length a + length b))%nat by lia.
  by rewrite <- !(assoc_L (++)).
Qed.

Lemma length_splice (l a : list A) (p : nat) :
  p + length a ≤ length l →
  length (take p l ++ a ++ drop (p + length a) l) = length l.
Proof. intros H. rewrite !length_app, length_take, length_drop. lia. Qed.

End Buffers.

Section Nonzeros.
Context {VT : Type} `{!EqDecision VT}.
Variable zero : VT.

Lemma count_nonzeros_acc (l : list VT) (a : nat) :
  foldl (λ n v, if decide (v ≠ zero) then S n else n) a l
  = (a + length (nonzeros zero l))%nat.
Proof.
  revert a. induction l as [|v l IH]; intros a; [simpl; lia|].
  cbn [foldl]. rewrite IH. unfold nonzeros.
  destruct (decide (v ≠ zero)).
  - rewrite filter_cons_True by done. simpl. lia.
  - rewrite filter_cons_False by done. lia.
Qed.

Lemma count_nonzeros_length (l : list VT) :
  count_nonzeros zero l = length (nonzeros zero l).
Proof. unfold count_nonzeros. by rewrite count_nonzeros_acc. Qed.

Lemma nonzeros_cons (v : VT) (l : list VT) :
  nonzeros zero (v :: l) = nonzeros zero [v] ++ nonzeros zero l.
Proof. unfold nonzeros. by rewrite (filter_app _ [v] l). Qed.

Lemma nonzeros_app (l1 l2 : list VT) :
  nonzeros zero (l1 ++ l2) = nonzeros zero l1 ++ nonzeros zero l2.
Proof. unfold nonzeros. apply filter_app. Qed.

Lemma nonzeros_take_le (l : list VT) (i j : nat) :
  i ≤ j →
  length (nonzeros zero (take i l)) ≤ length (nonzeros zero (take j l)).
Proof.
  intros Hij. replace j with (i + (j - i))%nat by lia.
  rewrite <- take_take_drop, nonzeros_app, length_app. lia.
Qed.

End Nonzeros.

Section CSR.
Context {VT : Type} `{!EqDecision VT}.
Variable zero : VT.
Variable numCols numRows : nat.
Hypothesis numCols_pos : 0 < numCols.

(** Moving on by one cell in row-major order. *)
Lemma next_cell_wrap (k : nat) :
  S (k mod numCols) = numCols →
  (S k mod numCols = 0 ∧ S k / numCols = S (k / numCols))%nat.
Proof.
  intros Hwrap.
  pose proof (Nat.div_mod_eq k numCols) as Hk.
  assert (Heq : S k = (numCols * S (k / numCols) + 0)%nat) by lia.
  split.
  - symmetry. apply (Nat.mod_unique _ _ (S (k / numCols)) 0); [lia|done].
  - symmetry. apply (Nat.div_unique _ _ (S (k / numCols)) 0); [lia|done].
Qed.

Lemma next_cell_stay (k : nat) :
  S (k mod numCols) ≠ numCols →
  (S k mod numCols = S (k mod numCols) ∧ S k / numCols = k / numCols)%nat.
Proof.
  intros Hstay.
  pose proof (Nat.div_mod_eq k numCols) as Hk.
  pose proof (Nat.mod_upper_bound k numCols) as Hlt.
  assert (Heq : S k = (numCols * (k / numCols) + S (k mod numCols))%nat) by lia.
  split.
  - symmetry. apply (Nat.mod_unique _ _ (k / numCols) (S (k mod numCols))); [lia|done].
  - symmetry. apply (Nat.div_unique _ _ (k / numCols) (S (k mod numCols))); [lia|done].
Qed.

Lemma row_above_cell (k r : nat) : (k / numCols < r → k < r * numCols)%nat.
Proof.
  intros Hr. pose proof (Nat.mul_succ_div_gt k numCols). nia.
Qed.

Lemma nonzero_cols_cons (k : nat) (v : VT) (l : list VT) :
  nonzero_cols zero numCols k (v :: l)
  = nonzero_cols zero numCols k [v] ++ nonzero_cols zero numCols (S k) l.
Proof. cbn [nonzero_cols]. by rewrite app_nil_r. Qed.

Lemma length_nonzero_cols (k : nat) (l : list VT) :
  length (nonzero_cols zero numCols k l) = length (nonzeros zero l).
Proof.
  revert k. induction l as [|v l IH]; intros k; [done|].
  rewrite nonzeros_cons, nonzero_cols_cons, !length_app, IH. f_equal.
  unfold nonzeros. cbn [nonzero_cols].
  destruct (decide (v ≠ zero)).
  - by rewrite filter_cons_True.
  - by rewrite filter_cons_False.
Qed.

(** One round of the second loop, on the element at position [k]. *)
Lemma csr_step_spec (k : nat) (st : csr_cursor) (v : VT) :
  colIdx st = (k mod numCols)%nat → rowIdx st = (k / numCols)%nat →
  pos st + length (nonzeros zero [v]) ≤ length (values st) →
  length (colIdxs st) = length (values st) →
  k < numRows * numCols →
  length (rowOffsets st) = (numRows + 1)%nat →
  ∃ st1, csr_step zero numCols st v = Some st1
    ∧ pos st1 = (pos st + length (nonzeros zero [v]))%nat
    ∧ values st1 = take (pos st) (values st) ++ nonzeros zero [v]
                   ++ drop (pos st + length (nonzeros zero [v])) (values st)
    ∧ colIdxs st1 = take (pos st) (colIdxs st)
                    ++ nonzero_cols zero numCols k [v]
                    ++ drop (pos st + length (nonzero_cols zero numCols k [v]))
                         (colIdxs st)
    ∧ colIdx st1 = (S k mod numCols)%nat
    ∧ rowIdx st1 = (S k / numCols)%nat
    ∧ rowOffsets st1
      = (if decide (S (k mod numCols) = numCols)
         then <[S (k / numCols) := pos st1]> (rowOffsets st)
         else rowOffsets st).
Proof.
  destruct st as [vals cols offs p c ri].
  cbn [values colIdxs rowOffsets pos colIdx rowIdx].
  intros -> -> Hpos Hcols Hk Hoffs.
  assert (Hrow : (k / numCols < numRows)%nat).
  { apply Nat.Div0.div_lt_upper_bound. lia. }
  unfold csr_step, nonzeros in *. cbn [nonzero_cols] in *.
  cbn [values colIdxs rowOffsets pos colIdx rowIdx].
  destruct (decide (v ≠ zero)) as [Hnz|Hz].
  - rewrite filter_cons_True in * by done. cbn [filter list_filter length] in *.
    rewrite !store_in_range by lia.
    cbn [mbind option_bind values colIdxs rowOffsets pos colIdx rowIdx].
    destruct (decide (S (k mod numCols) = numCols)) as [Hwrap|Hstay].
    + destruct (next_cell_wrap k Hwrap) as [Hm Hd].
      rewrite store_in_range by lia. cbn [mbind option_bind].
      eexists. split; [done|].
      cbn [values colIdxs rowOffsets pos colIdx rowIdx].
      replace (p + 1)%nat with (S p) by lia.
      replace (k / numCols + 1)%nat with (S (k / numCols)) by lia.
      rewrite !(insert_take_drop _ p) by lia.
      cbn [app length]. rewrite ?Nat.add_1_r. repeat split; congruence.
    + destruct (next_cell_stay k Hstay) as [Hm Hd].
      eexists. split; [done|].
      cbn [values colIdxs rowOffsets pos colIdx rowIdx].
      replace (p + 1)%nat with (S p) by lia.
      rewrite !(insert_take_drop _ p) by lia.
      cbn [app length]. rewrite ?Nat.add_1_r. repeat split; congruence.
  - rewrite filter_cons_False in * by done. cbn [filter list_filter length] in *.
    cbn [mbind option_bind values colIdxs rowOffsets pos colIdx rowIdx].
    destruct (decide (S (k mod numCols) = numCols)) as [Hwrap|Hstay].
    + destruct (next_cell_wrap k Hwrap) as [Hm Hd].
      rewrite store_in_range by lia. cbn [mbind option_bind].
      eexists. split; [done|].
      cbn [values colIdxs rowOffsets pos colIdx rowIdx].
      replace (k / numCols + 1)%nat with (S (k / numCols)) by lia.
      cbn [app length]. rewrite ?Nat.add_0_r, ?take_drop.
      repeat split; congruence.
    + destruct (next_cell_stay k Hstay) as [Hm Hd].
      eexists. split; [done|].
      cbn [values colIdxs rowOffsets pos colIdx rowIdx app length].
      rewrite ?Nat.add_0_r, ?take_drop.
      repeat split; congruence.
Qed.

(** The second loop from position [k] on, over the elements [todo] that are
    left. *)
Lemma csr_loop_spec (todo : list VT) : ∀ (k : nat) (st : csr_cursor),
  colIdx st = (k mod numCols)%nat → rowIdx st = (k / numCols)%nat →
  pos st + length (nonzeros zero todo) ≤ length (values st) →
  length (colIdxs st) = length (values st) →
  k + length todo ≤ numRows * numCols →
  length (rowOffsets st) = (numRows + 1)%nat →
  ∃ st', csr_loop zero numCols todo st = Some st'
    ∧ pos st' = (pos st + length (nonzeros zero todo))%nat
    ∧ values st' = take (pos st) (values st) ++ nonzeros zero todo
                   ++ drop (pos st + length (nonzeros zero todo)) (values st)
    ∧ colIdxs st' = take (pos st) (colIdxs st)
                    ++ nonzero_cols zero numCols k todo
                    ++ drop (pos st + length (nonzero_cols zero numCols k todo))
                         (colIdxs st)
    ∧ length (rowOffsets st') = (numRows + 1)%nat
    ∧ ∀ r, rowOffsets st' !! r =
        if decide (k / numCols < r ≤ (k + length todo) / numCols)
        then Some (pos st
                   + length (nonzeros zero (take (r * numCols - k) todo)))%nat
        else rowOffsets st !! r.
Proof.
  induction todo as [|v todo IH]; intros k st Hc Hr Hpos Hcols Hk Hoffs.
  { exists st. cbn [csr_loop nonzero_cols length app]. unfold nonzeros.
    cbn [filter list_filter length app].
    rewrite !Nat.add_0_r, !take_drop. repeat split; [done|].
    intros r. destruct (decide _) as [[? ?]|]; [lia|done]. }
  rewrite nonzeros_cons, length_app in Hpos.
  cbn [length] in Hk.
  destruct (csr_step_spec k st v)
    as (st1 & Hstep & Hp1 & Hv1 & Hc1 & Hci1 & Hri1 & Ho1); [done|done|lia|done|lia|done|].
  assert (Hlv1 : length (values st1) = length (values st)).
  { rewrite Hv1. apply length_splice. lia. }
  assert (Hlc1 : length (colIdxs st1) = length (colIdxs st)).
  { rewrite Hc1. apply length_splice. rewrite length_nonzero_cols. lia. }
  assert (Hrow : (k / numCols < numRows)%nat).
  { apply Nat.Div0.div_lt_upper_bound. lia. }
  assert (Hlo1 : length (rowOffsets st1) = (numRows + 1)%nat).
  { rewrite Ho1. destruct (decide _); [by rewrite length_insert|done]. }
  destruct (IH (S k) st1)
    as (st' & Hrun & Hp' & Hv' & Hc' & Ho' & Hlook); [done|done|lia|lia|lia|done|].
  exists st'. cbn [csr_loop]. rewrite Hstep. cbn [mbind option_bind].
  split; [done|]. split; [rewrite nonzeros_cons, length_app; lia|].
  split.
  { rewrite Hv', Hp1, Hv1, (nonzeros_cons zero v todo).
    apply splice_twice. lia. }
  split.
  { rewrite Hc', Hp1, Hc1, (nonzero_cols_cons k v todo).
    rewrite <- (length_nonzero_cols k [v]).
    apply splice_twice.
    rewrite !length_nonzero_cols. lia. }
  split; [done|].
  intros r. rewrite Hlook. cbn [length].
  replace (k + S (length todo))%nat with (S k + length todo)%nat by lia.
  assert (Htake : ∀ n, 0 < n →
    length (nonzeros zero (take n (v :: todo)))
    = (length (nonzeros zero [v])
       + length (nonzeros zero (take (n - 1) todo)))%nat).
  { intros [|n] Hn; [lia|].
    replace (take (S n) (v :: todo)) with (v :: take n todo) by done.
    rewrite nonzeros_cons, length_app.
    by replace (S n - 1)%nat with n by lia. }
  rewrite Ho1.
  destruct (decide (S (k mod numCols) = numCols)) as [Hwrap|Hstay].
  - destruct (next_cell_wrap k Hwrap) as [Hm Hd]. rewrite Hd.
    destruct (decide (r = S (k / numCols))) as [->|Hne].
    + rewrite decide_False by lia.
      rewrite list_lookup_insert_eq by lia.
      rewrite decide_True.
      * f_equal. rewrite Hp1.
        replace (S (k / numCols) * numCols - k)%nat with 1%nat.
        { by replace (take 1 (v :: todo)) with [v] by done. }
        pose proof (Nat.div_mod_eq k numCols). nia.
      * split; [lia|]. rewrite <- Hd. apply Nat.Div0.div_le_mono. lia.
    + rewrite list_lookup_insert_ne by done.
      destruct (decide (S (k / numCols) < r ≤ (S k + length todo) / numCols))
        as [[H1 H2]|Hout].
      * rewrite decide_True by lia.
        f_equal. rewrite Hp1, Htake.
        { replace (r * numCols - S k)%nat with (r * numCols - k - 1)%nat by lia.
          lia. }
        pose proof (row_above_cell k r). lia.
      * rewrite decide_False; [done|]. intros [H1 H2]. apply Hout. lia.
  - destruct (next_cell_stay k Hstay) as [Hm Hd]. rewrite Hd.
    destruct (decide (k / numCols < r ≤ (S k + length todo) / numCols))
      as [[H1 H2]|Hout]; [|done].
    f_equal. rewrite Hp1, Htake.
    { replace (r * numCols - S k)%nat with (r * numCols - k - 1)%nat by lia.
      lia. }
    pose proof (row_above_cell k r). lia.
Qed.

Lemma nonzero_cols_app (k : nat) (l1 l2 : list VT) :
  nonzero_cols zero numCols k (l1 ++ l2)
  = nonzero_cols zero numCols k l1
    ++ nonzero_cols zero numCols (k + length l1) l2.
Proof.
  revert k. induction l1 as [|v l1 IH]; intros k.
  - cbn [app nonzero_cols length]. by rewrite Nat.add_0_r.
  - cbn [app nonzero_cols length]. rewrite IH, <- (assoc_L (++)).
    by replace (S k + length l1)%nat with (k + S (length l1))%nat by lia.
Qed.

Lemma cell_column (base j : nat) :
  j < numCols → ((base * numCols + j) mod numCols = j)%nat.
Proof.
  intros Hj. symmetry. apply (Nat.mod_unique _ _ base j); [done|lia].
Qed.

(** The column indices of the cells from column [j] on of one row. *)
Lemma nonzero_cols_lower (base : nat) (l : list VT) : ∀ j c,
  j + length l ≤ numCols →
  c ∈ nonzero_cols zero numCols (base * numCols + j) l → j ≤ c.
Proof.
  induction l as [|v l IH]; intros j c Hlen Hin.
  { by apply elem_of_nil in Hin. }
  cbn [length] in Hlen. cbn [nonzero_cols] in Hin.
  apply elem_of_app in Hin as [Hin|Hin].
  - destruct (decide (v ≠ zero)); [|by apply elem_of_nil in Hin].
    apply list_elem_of_singleton in Hin. rewrite cell_column in Hin by lia. lia.
  - replace (S (base * numCols + j)) with (base * numCols + S j)%nat in Hin by lia.
    apply IH in Hin; lia.
Qed.

Lemma csr_find_absent (c : nat) (cols : list nat) (vals : list VT) :
  c ∉ cols → csr_find zero c cols vals = zero.
Proof.
  revert vals. induction cols as [|c' cols IH]; intros vals Hc; [done|].
  destruct vals as [|v vals]; [done|]. cbn [csr_find].
  apply not_elem_of_cons in Hc as [Hne Hc].
  rewrite decide_False by done. by apply IH.
Qed.

(** Looking up column [c] among the stored cells of one row finds the
    element of that column. *)
Lemma csr_find_row (base : nat) (row : list VT) : ∀ j c v,
  j + length row ≤ numCols → j ≤ c → row !! (c - j)%nat = Some v →
  csr_find zero c (nonzero_cols zero numCols (base * numCols + j) row)
    (nonzeros zero row) = v.
Proof.
  induction row as [|x row IH]; intros j c v Hlen Hjc Hv; [done|].
  cbn [length] in Hlen.
  assert (Hnext : ∀ w, j ≠ c → row !! (c - S j)%nat = Some w →
    csr_find zero c (nonzero_cols zero numCols (S (base * numCols + j)) row)
      (nonzeros zero row) = w).
  { intros w Hne Hw.
    replace (S (base * numCols + j)) with (base * numCols + S j)%nat by lia.
    apply IH; [lia|lia|done]. }
  cbn [nonzero_cols]. unfold nonzeros at 1. fold (nonzeros zero).
  rewrite cell_column by lia.
  destruct (decide (x ≠ zero)) as [Hnz|Hz].
  - rewrite filter_cons_True by done. cbn [app csr_find].
    destruct (decide (j = c)) as [->|Hne].
    + rewrite Nat.sub_diag in Hv. by injection Hv.
    + apply Hnext; [done|].
      by replace (c - j)%nat with (S (c - S j)) in Hv by lia.
  - rewrite filter_cons_False by done. cbn [app].
    destruct (decide (j = c)) as [->|Hne].
    + rewrite Nat.sub_diag in Hv. injection Hv as <-.
      rewrite csr_find_absent; [by destruct (decide (x = zero))|].
      intros Hin.
      replace (S (base * numCols + c)) with (base * numCols + S c)%nat in Hin by lia.
      apply nonzero_cols_lower in Hin; lia.
    + apply Hnext; [done|].
      by replace (c - j)%nat with (S (c - S j)) in Hv by lia.
Qed.

(** A CSR matrix with the arrays [generate] builds holds, in the cell
    [(r, c)], the element at position [r * numCols + c]. *)
Lemma csr_get_generated (elements : list VT) (offs : list nat) (r c : nat) :
  length elements = (numRows * numCols)%nat →
  (∀ r, r ≤ numRows →
     offs !! r
     = Some (length (nonzeros zero (take (r * numCols) elements)))) →
  r < numRows → c < numCols →
  csr_get zero (mkCSR numRows numCols (nonzeros zero elements)
                  (nonzero_cols zero numCols 0 elements) offs) r c
  = elements !! (r * numCols + c)%nat.
Proof.
  intros Hlen Hoffs Hr Hc. unfold csr_get.
  cbn [csr_numRows csr_numCols csr_values csr_colIdxs csr_rowOffsets].
  rewrite decide_True by done.
  rewrite !Hoffs by lia. cbn [mbind option_bind].
  set (A := take (r * numCols) elements).
  set (row := take numCols (drop (r * numCols) elements)).
  set (C := drop numCols (drop (r * numCols) elements)).
  assert (Hsplit : elements = A ++ row ++ C).
  { subst A row C. by rewrite !take_drop. }
  assert (HA : length A = (r * numCols)%nat).
  { subst A. rewrite length_take. nia. }
  assert (Hrow : length row = numCols).
  { subst row. rewrite length_take, length_drop. nia. }
  assert (Hnext : take ((r + 1) * numCols) elements = A ++ row).
  { subst A row. rewrite take_take_drop. f_equal. lia. }
  rewrite Hnext.
  assert (Hv : ∃ v, elements !! (r * numCols + c)%nat = Some v).
  { apply lookup_lt_is_Some_2. nia. }
  destruct Hv as [v Hv]. rewrite Hv. f_equal.
  assert (Hrowv : row !! (c - 0)%nat = Some v).
  { subst row. rewrite Nat.sub_0_r, lookup_take_lt, lookup_drop by done. done. }
  clearbody A row C. rewrite Hsplit.
  rewrite !nonzeros_app, !nonzero_cols_app, !length_app, HA.
  replace (length (nonzeros zero A) + length (nonzeros zero row)
           - length (nonzeros zero A))%nat
    with (length (nonzeros zero row)) by lia.
  rewrite drop_app_length.
  rewrite <- (length_nonzero_cols 0 A) at 1.
  rewrite drop_app_length.
  rewrite take_app_length.
  rewrite <- (length_nonzero_cols (0 + r * numCols) row) at 1.
  rewrite take_app_length.
  replace (0 + r * numCols)%nat with (r * numCols + 0)%nat by lia.
  apply csr_find_row; [lia|lia|done].
Qed.

End CSR.

Section CSRGenerate.
Context {VT : Type} `{!EqDecision VT}.
Variable zero : VT.
Variable stale : nat → VT.
Variable stale_idx : nat → nat.

Lemma length_fresh_indices n zeroed :
  length (fresh_indices stale_idx n zeroed) = n.
Proof.
  unfold fresh_indices. destruct zeroed.
  - apply length_replicate.
  - by rewrite length_fmap, length_seq.
Qed.

(** What [generate] returns for a matrix with at least one column: the
    values are the nonzero elements in row-major order, the column indices
    are theirs, and [rowOffsets[r]] counts the nonzero elements of the
    first [r] rows. *)
Lemma generate_csr_arrays (numRows : nat) (elements : list VT) :
  0 < numRows → (length elements mod numRows = 0)%nat → elements ≠ [] →
  ∃ offs,
    generate_csr zero stale stale_idx numRows elements
    = Some (mkCSR numRows (length elements / numRows)
              (nonzeros zero elements)
              (nonzero_cols zero (length elements / numRows) 0 elements)
              offs)
    ∧ length offs = (numRows + 1)%nat
    ∧ ∀ r, r ≤ numRows →
        offs !! r
        = Some (length (nonzeros zero
                          (take (r * (length elements / numRows)) elements))).
Proof.
  intros Hrows Hdiv Hne. unfold generate_csr.
  rewrite decide_False by lia. rewrite decide_True by done.
  set (numCols := (length elements / numRows)%nat).
  assert (Hcells : (numRows * numCols)%nat = length elements).
  { symmetry. by apply Nat.Div0.div_exact. }
  assert (Hcols : 0 < numCols).
  { destruct numCols; [|lia]. destruct elements; [done|simpl in Hcells; lia]. }
  clearbody numCols.
  unfold create_csr.
  cbn [csr_values csr_colIdxs csr_rowOffsets csr_numRows csr_numCols].
  rewrite store_in_range by (rewrite length_fresh_indices; lia).
  cbn [mbind option_bind].
  destruct (csr_loop_spec zero numCols numRows Hcols elements 0
              (mkCursor (fresh_values zero stale (count_nonzeros zero elements) false)
                 (fresh_indices stale_idx (count_nonzeros zero elements) false)
                 (<[0%nat := 0%nat]> (fresh_indices stale_idx (numRows + 1) false))
                 0 0 0))
    as (st' & Hrun & Hp' & Hv' & Hc' & Ho' & Hlook);
    cbn [values colIdxs rowOffsets pos colIdx rowIdx].
  { by rewrite Nat.Div0.mod_0_l. }
  { by rewrite Nat.Div0.div_0_l. }
  { rewrite length_fresh_values, count_nonzeros_length. lia. }
  { by rewrite length_fresh_values, length_fresh_indices. }
  { lia. }
  { by rewrite length_insert, length_fresh_indices. }
  rewrite Hrun. cbn [mbind option_bind].
  cbn [values colIdxs rowOffsets pos colIdx rowIdx] in *.
  exists (rowOffsets st'). split; [|split; [done|]].
  - f_equal. rewrite Hv', Hc'. f_equal.
    + rewrite drop_ge, app_nil_r; [done|].
      rewrite length_fresh_values, count_nonzeros_length. lia.
    + rewrite drop_ge, app_nil_r; [done|].
      rewrite length_fresh_indices, length_nonzero_cols, count_nonzeros_length.
      lia.
  - intros r Hr. rewrite Hlook.
    rewrite Nat.Div0.div_0_l, Nat.add_0_l, Nat.sub_0_r, Nat.add_0_l.
    assert (Hq : (length elements / numCols)%nat = numRows).
    { rewrite <- Hcells. apply Nat.div_mul. lia. }
    rewrite Hq.
    destruct (decide (0 < r ≤ numRows)) as [_|Hout]; [done|].
    assert (r = 0%nat) as -> by lia.
    rewrite list_lookup_insert_eq by (rewrite length_fresh_indices; lia).
    done.
Qed.

End CSRGenerate.


(** X23. For a matrix with at least one column, the CSR matrix [genGivenVals]
    returns satisfies the CSR invariants: [rowOffsets] has [numRows + 1]
    entries, starts at 0, never decreases and ends at the number of nonzero
    elements; the value and column-index arrays list the nonzero elements in
    row-major order with their column indices; and every cell reads as in
    the dense matrix generated from the same elements. *)
Theorem generate_csr_invariants {VT : Type} `{!EqDecision VT} (zero : VT)
    (stale : nat → VT) (stale_idx : nat → nat) (numRows : nat)
    (elements : list VT) :
  0 < numRows → (length elements mod numRows = 0)%nat → elements ≠ [] →
  ∃ m d,
    generate_csr zero stale stale_idx numRows elements = Some m
    ∧ generate_dense zero stale numRows elements = Some d
    ∧ csr_numRows m = numRows
    ∧ csr_numCols m = (length elements / numRows)%nat
    ∧ length (csr_rowOffsets m) = (numRows + 1)%nat
    ∧ csr_rowOffsets m !! 0%nat = Some 0%nat
    ∧ monotone (csr_rowOffsets m)
    ∧ csr_rowOffsets m !! numRows = Some (count_nonzeros zero elements)
    ∧ csr_values m = nonzeros zero elements
    ∧ csr_colIdxs m = nonzero_cols zero (csr_numCols m) 0 elements
    ∧ ∀ r c, r < numRows → c < csr_numCols m →
        csr_get zero m r c = dense_get d r c.
Proof.
  intros Hrows Hdiv Hne.
  destruct (generate_csr_arrays zero stale stale_idx numRows elements)
    as (offs & Hgen & Hlen & Hoffs); [done..|].
  assert (Hcells : (numRows * (length elements / numRows))%nat
                   = length elements).
  { symmetry. by apply Nat.Div0.div_exact. }
  assert (Hcols : 0 < length elements / numRows).
  { destruct (length elements / numRows)%nat; [|lia].
    destruct elements; [done|simpl in Hcells; lia]. }
  eexists _, _. split; [exact Hgen|].
  split; [by apply generate_dense_values|].
  cbn [csr_numRows csr_numCols csr_values csr_colIdxs csr_rowOffsets].
  split; [done|]. split; [done|]. split; [done|].
  split; [by rewrite Hoffs by lia|].
  split.
  { intros i j a b Hij Ha Hb.
    assert (j ≤ numRows).
    { apply lookup_lt_Some in Hb. lia. }
    rewrite Hoffs in Ha, Hb by lia. injection Ha as <-. injection Hb as <-.
    apply nonzeros_take_le. nia. }
  split.
  { rewrite Hoffs by lia. rewrite Hcells, firstn_all.
    by rewrite count_nonzeros_length. }
  split; [done|]. split; [done|].
  intros r c Hr Hc.
  rewrite (csr_get_generated zero _ numRows Hcols); [|lia|done..].
  unfold dense_get. cbn [dm_numRows dm_numCols dm_values].
  by rewrite decide_True.
Qed.

(** The 5 x 4 matrix with the values 1..6 at (0,1), (1,0), (1,3), (3,2),
    (4,0), (4,1). *)
Lemma generate_csr_invariants_witness :
  ∃ m, generate_csr 0%Z (λ _, 42%Z) (λ _, 7%nat) 5 sparse_elements = Some m
       ∧ csr_rowOffsets m !! 5%nat = Some 6%nat
       ∧ csr_get 0%Z m 3 2 = Some 4%Z.
Proof.
  destruct (generate_csr_invariants 0%Z (λ _, 42%Z) (λ _, 7%nat) 5
              sparse_elements)
    as (m & d & Hm & Hd & _ & Hc & _ & _ & _ & Hlast & _ & _ & Hget);
    [lia|reflexivity|discriminate|].
  exists m. split; [exact Hm|]. split; [exact Hlast|].
  rewrite Hget; [|lia|rewrite Hc; cbn; lia].
  vm_compute in Hd. injection Hd as <-. reflexivity.
Defined.

Example generate_csr_sparse_elements :
  generate_csr 0%Z (λ _, 42%Z) (λ _, 7%nat) 5 sparse_elements
  = Some (mkCSR 5 4 [1; 2; 3; 4; 5; 6]%Z [1; 0; 3; 2; 0; 1]%nat
            [0; 1; 3; 3; 4; 6]%nat).
Proof. reflexivity. Qed.

(** C10, at the failing input. With [numRows > 0] and no elements (the
    length 0 is divisible by [numRows]) the matrix has no columns, the
    second loop does not run, and only [rowOffsets[0]] is ever written:
    the other row offsets are what the buffer held. Here, where it held
    7s, [rowOffsets] is [0, 7, 7] and [rowOffsets[numRows]] is not the
    number of nonzero elements, which is 0. *)
Theorem generate_csr_no_elements :
  generate_csr 0%Z (λ _, 0%Z) (λ _, 7%nat) 2 []
  = Some (mkCSR 2 0 [] [] [0; 7; 7]%nat)
  ∧ count_nonzeros 0%Z [] = 0%nat.
Proof. split; reflexivity. Qed.

End GenGivenValsProofs.

(** ** Reading and parsing the CPU-info text *)

Module ParseFacts.
Import MTWrapper.

Local Open Scope string_scope.

Lemma length_append (a b : string) :
  String.length (a ++ b) = String.length a + String.length b.
Proof. induction a as [|c a IH]; simpl; [done|]. by rewrite IH. Qed.

Lemma append_assoc (a b c : string) : (a ++ b) ++ c = a ++ (b ++ c).
Proof. induction a as [|x a IH]; simpl; [done|]. by rewrite IH. Qed.

Lemma append_empty_r (a : string) : a ++ "" = a.
Proof. induction a as [|x a IH]; simpl; [done|]. by rewrite IH. Qed.

Lemma no_char_append c (a b : string) :
  no_char c (a ++ b) = no_char c a && no_char c b.
Proof.
  induction a as [|x a IH]; simpl; [done|].
  by rewrite IH, andb_assoc.
Qed.

Lemma prefix_append (k s : string) : String.prefix k (k ++ s) = true.
Proof.
  induction k as [|c k IH]; simpl; [by destruct s|].
  by destruct (ascii_dec c c).
Qed.

Lemma after_colon_append (a s : string) :
  no_char ":" a = true → after_colon (a ++ String ":" s) = Some s.
Proof.
  induction a as [|c a IH]; simpl; [done|].
  intros [Hc Ha]%andb_prop. apply negb_true_iff in Hc.
  rewrite Hc. by apply IH.
Qed.

(** *** fgets *)

Lemma fgets_chars_line n (line rest : string) :
  no_char newline line = true → String.length line < n →
  fgets_chars n (line ++ String newline rest)
  = (line ++ String newline "", rest).
Proof.
  revert n. induction line as [|c line IH]; intros [|n] Hno Hlen;
    simpl in *; try lia.
  - by rewrite ?Ascii.eqb_refl.
  - apply andb_prop in Hno as [Hc Hno]. apply negb_true_iff in Hc.
    rewrite Hc, IH by (done || lia). done.
Qed.

Lemma fgets_line (line rest : string) :
  no_char newline line = true → String.length line ≤ 126 →
  fgets 128 (line ++ String newline rest)
  = Some (line ++ String newline "", rest).
Proof.
  intros Hno Hlen. unfold fgets. change (128 - 1) with 127.
  rewrite fgets_chars_line by (done || lia).
  by destruct line.
Qed.

Lemma fgets_chars_length n s : String.length (fgets_chars n s).1 ≤ n.
Proof.
  revert s. induction n as [|n IH]; intros [|c s]; simpl; try lia.
  destruct (Ascii.eqb c newline); simpl; [lia|].
  specialize (IH s). destruct (fgets_chars n s). simpl in *. lia.
Qed.

Lemma fgets_chars_body n s :
  ∃ body, no_char newline body = true
    ∧ ((fgets_chars n s).1 = body ++ String newline ""
       ∨ (fgets_chars n s).1 = body
          ∧ (String.length body = n ∨ (fgets_chars n s).2 = "")).
Proof.
  revert s. induction n as [|n IH]; intros [|c s]; simpl;
    try (exists ""; simpl; by eauto).
  destruct (Ascii.eqb c newline) eqn:Hc; simpl.
  - exists "". split; [done|]. left.
    by apply Ascii.eqb_eq in Hc as ->.
  - destruct (IH s) as (body & Hb & Hcase).
    destruct (fgets_chars n s) as [buf rest]. simpl in *.
    exists (String c body). simpl. rewrite Hc, Hb. split; [done|].
    destruct Hcase as [->|[-> Hr]]; [by left|right].
    split; [done|]. destruct Hr; [left; lia|by right].
Qed.

Lemma fgets_loop_buffers (P : string → Prop) :
  (∀ c s, P (fgets_chars 127 (String c s)).1) →
  ∀ fuel s, Forall P (fgets_loop fuel s).
Proof.
  intros HP. induction fuel as [|fuel IH]; intros s; [constructor|].
  destruct s as [|c s]; [constructor|].
  pose proof (HP c s) as Hb. cbn [fgets_loop fgets].
  change (128 - 1) with 127.
  destruct (fgets_chars 127 (String c s)) as [buf rest].
  constructor; [done|apply IH].
Qed.

Lemma length_lines_text (lines : list string) :
  length lines ≤ String.length (lines_text lines).
Proof.
  induction lines as [|l lines IH]; simpl; [lia|].
  rewrite length_append. simpl. lia.
Qed.

Lemma fgets_loop_lines (lines : list string) : ∀ fuel,
  length lines ≤ fuel →
  Forall (λ l, no_char newline l = true ∧ String.length l ≤ 126) lines →
  fgets_loop fuel (lines_text lines)
  = (λ l, l ++ String newline "") <$> lines.
Proof.
  induction lines as [|l lines IH]; intros fuel Hfuel Hall.
  - by destruct fuel.
  - destruct fuel as [|fuel]; [simpl in Hfuel; lia|].
    apply Forall_cons in Hall as [[Hno Hlen] Hall].
    cbn [fgets_loop lines_text foldr].
    rewrite fgets_line by done.
    rewrite fmap_cons. f_equal. apply IH; [simpl in Hfuel; lia|done].
Qed.

Lemma fgets_chars_nonempty c s :
  1 ≤ String.length (fgets_chars 127 (String c s)).1.
Proof.
  change (fgets_chars 127 (String c s))
    with (if Ascii.eqb c newline then (String c "", s)
          else let '(buf, rest') := fgets_chars 126 s in
               (String c buf, rest')).
  destruct (Ascii.eqb c newline); [simpl; lia|].
  destruct (fgets_chars 126 s). simpl. lia.
Qed.

(** X6. The buffers that the loop [while (fgets(buffer, 128, f))] of
    [get_topology] sees are a partition of the stream: put one after the
    other they give the stream back, none is empty, none has more than 127
    characters, and a newline is found only as the last character of a
    buffer. *)
Theorem fgets_buffers_partition (stream : string) :
  foldr String.append "" (fgets_buffers stream) = stream
  ∧ Forall (λ b, 1 ≤ String.length b ≤ 127
                 ∧ ∃ body, no_char newline body = true
                     ∧ (b = body ++ String newline "" ∨ b = body))
      (fgets_buffers stream).
Proof.
  split; [apply Topology.fgets_buffers_all|].
  apply fgets_loop_buffers. intros c s. split.
  - split; [apply fgets_chars_nonempty|apply fgets_chars_length].
  - destruct (fgets_chars_body 127 (String c s)) as (body & Hb & Hcase).
    exists body. split; [done|]. destruct Hcase as [?|[? _]]; eauto.
Qed.

(** X7. A text of lines of at most 126 characters, each closed by a
    newline, is read line by line: the loop of [get_topology] sees one
    buffer per line, the line with its newline. *)
Theorem fgets_buffers_lines (lines : list string) :
  Forall (λ l, no_char newline l = true ∧ String.length l ≤ 126) lines →
  fgets_buffers (lines_text lines)
  = (λ l, l ++ String newline "") <$> lines.
Proof.
  intros Hall. unfold fgets_buffers.
  apply fgets_loop_lines; [apply length_lines_text|done].
Qed.

Lemma fgets_buffers_lines_witness :
  fgets_buffers (lines_text ["core id  : 1"; ""; "processor : 7"])
  = (λ l, l ++ String newline "") <$> ["core id  : 1"; ""; "processor : 7"].
Proof.
  apply (fgets_buffers_lines ["core id  : 1"; ""; "processor : 7"]).
  repeat constructor; simpl; lia.
Defined.

(** *** Decimal numbers *)

Lemma digit_cases (d : N) :
  (d < 10)%N →
  d ∈ [0; 1; 2; 3; 4; 5; 6; 7; 8; 9]%N.
Proof.
  intros Hd. rewrite !elem_of_cons, elem_of_nil. lia.
Qed.

Lemma digit_char_facts (d : N) :
  (d < 10)%N →
  digit_of (digit_char d) = Some d
  ∧ isspace (digit_char d) = false
  ∧ Ascii.eqb (digit_char d) "-" = false
  ∧ Ascii.eqb (digit_char d) "+" = false
  ∧ Ascii.eqb (digit_char d) ":" = false
  ∧ Ascii.eqb (digit_char d) newline = false.
Proof.
  intros Hd%digit_cases. rewrite !elem_of_cons, elem_of_nil in Hd.
  repeat (destruct Hd as [->|Hd]; [by vm_compute|]). done.
Qed.

Lemma mod_10_digit (n : N) : (n mod 10 < 10)%N.
Proof. apply N.mod_lt. lia. Qed.

Lemma decimal_fuel_value fuel : ∀ n rest a,
  (n < 2 ^ N.of_nat fuel)%N →
  ∃ k, digits_value a (decimal_fuel fuel n rest)
       = digits_value (a * 10 ^ k + n)%N rest.
Proof.
  induction fuel as [|fuel IH]; intros n rest a Hn.
  - exists 0%N. simpl in *. f_equal. lia.
  - cbn [decimal_fuel].
    destruct (digit_char_facts (n mod 10) (mod_10_digit n)) as [Hd _].
    destruct (N.ltb_spec n 10) as [Hlt|Hge].
    + exists 1%N. cbn [digits_value]. rewrite Hd. f_equal.
      rewrite N.mod_small by done. lia.
    + destruct (IH (n / 10)%N (String (digit_char (n mod 10)) rest) a)
        as [k Hk].
      { apply N.Div0.div_lt_upper_bound.
        rewrite Nat2N.inj_succ, N.pow_succ_r' in Hn. lia. }
      exists (N.succ k). rewrite Hk. cbn [digits_value]. rewrite Hd.
      f_equal. rewrite N.pow_succ_r'.
      pose proof (N.div_mod n 10 ltac:(lia)). lia.
Qed.

Lemma decimal_fuel_enough (n : N) :
  (n < 2 ^ N.of_nat (S (N.to_nat (N.log2 n))))%N.
Proof.
  rewrite Nat2N.inj_succ, N2Nat.id.
  destruct (decide (n = 0%N)) as [->|Hn]; [by vm_compute|].
  apply N.log2_spec. lia.
Qed.

Lemma decimal_then_value (n : N) rest :
  digits_value 0 (decimal_then n rest) = digits_value n rest.
Proof.
  destruct (decimal_fuel_value _ n rest 0%N (decimal_fuel_enough n))
    as [k Hk].
  unfold decimal_then. rewrite Hk. f_equal.
Qed.

Lemma decimal_fuel_head fuel : ∀ n rest,
  ∃ d s, (d < 10)%N
    ∧ decimal_fuel (S fuel) n rest = String (digit_char d) s.
Proof.
  induction fuel as [|fuel IH]; intros n rest.
  - exists (n mod 10)%N, rest. split; [apply mod_10_digit|].
    simpl. by destruct (n <? 10)%N.
  - change (decimal_fuel (S (S fuel)) n rest)
      with (if (n <? 10)%N then String (digit_char (n mod 10)) rest
            else decimal_fuel (S fuel) (n / 10)
                   (String (digit_char (n mod 10)) rest)).
    destruct (n <? 10)%N; [|apply IH].
    exists (n mod 10)%N, rest. split; [apply mod_10_digit|done].
Qed.

Lemma decimal_fuel_append fuel : ∀ n r1 r2,
  decimal_fuel fuel n (r1 ++ r2) = decimal_fuel fuel n r1 ++ r2.
Proof.
  induction fuel as [|fuel IH]; intros n r1 r2; [done|].
  cbn [decimal_fuel]. destruct (n <? 10)%N; [done|].
  by rewrite <- IH.
Qed.

Lemma decimal_append (n : N) rest : decimal n ++ rest = decimal_then n rest.
Proof.
  unfold decimal, decimal_then. by rewrite <- decimal_fuel_append.
Qed.

Lemma decimal_fuel_no_char c fuel : ∀ n rest,
  (∀ d, (d < 10)%N → Ascii.eqb (digit_char d) c = false) →
  no_char c rest = true → no_char c (decimal_fuel fuel n rest) = true.
Proof.
  induction fuel as [|fuel IH]; intros n rest Hc Hrest; [done|].
  cbn [decimal_fuel].
  assert (no_char c (String (digit_char (n mod 10)) rest) = true) as Hr.
  { simpl. by rewrite (Hc _ (mod_10_digit n)), Hrest. }
  destruct (n <? 10)%N; [done|]. by apply IH.
Qed.

Lemma decimal_fuel_length fuel : ∀ n rest,
  String.length (decimal_fuel fuel n rest) ≤ fuel + String.length rest.
Proof.
  induction fuel as [|fuel IH]; intros n rest; [simpl; lia|].
  cbn [decimal_fuel]. destruct (n <? 10)%N; [simpl; lia|].
  etrans; [apply IH|]. simpl. lia.
Qed.

Lemma decimal_no_newline (n : N) : no_char newline (decimal n) = true.
Proof.
  apply decimal_fuel_no_char; [|done].
  intros d Hd. by apply digit_char_facts.
Qed.

Lemma decimal_no_colon (n : N) : no_char ":" (decimal n) = true.
Proof.
  apply decimal_fuel_no_char; [|done].
  intros d Hd. by apply digit_char_facts.
Qed.

Lemma decimal_length (n : N) :
  (n < 2 ^ 32)%N → String.length (decimal n) ≤ 32.
Proof.
  intros Hn. unfold decimal, decimal_then.
  etrans; [apply decimal_fuel_length|]. simpl.
  destruct (decide (n = 0%N)) as [->|Hn0]; [vm_compute; lia|].
  assert (N.log2 n < 32)%N by (apply N.log2_lt_pow2; lia). lia.
Qed.

(** *** strtoul and _parse_line *)

Lemma skip_spaces_append (ws s : string) :
  all_spaces ws = true → skip_spaces (ws ++ s) = skip_spaces s.
Proof.
  induction ws as [|c ws IH]; simpl; [done|].
  intros [Hc Hws]%andb_prop. rewrite Hc. by apply IH.
Qed.

Lemma digits_value_stop (n : N) (rest : string) :
  starts_with_digit rest = false → digits_value n rest = n.
Proof.
  destruct rest as [|c rest]; simpl; [done|].
  destruct (digit_of c); [|done].
  intros H. apply bool_decide_eq_false in H. by destruct H.
Qed.

Lemma strtoul_unsigned (n : N) (rest : string) :
  starts_with_digit rest = false →
  strtoul (decimal n ++ rest) = N.min n ULONG_MAX.
Proof.
  intros Hrest. rewrite decimal_append.
  pose proof (decimal_then_value n rest) as Hv.
  rewrite (digits_value_stop _ _ Hrest) in Hv.
  unfold decimal_then in *.
  destruct (decimal_fuel_head (N.to_nat (N.log2 n)) n rest)
    as (d & s & Hd & Hs).
  rewrite Hs in *.
  destruct (digit_char_facts d Hd) as (_ & Hsp & Hm & Hp & _).
  unfold strtoul. cbn [skip_spaces]. rewrite Hsp, Hm, Hp, Hv.
  destruct (N.ltb_spec ULONG_MAX n); lia.
Qed.

Lemma strtoul_spaces (ws s : string) :
  all_spaces ws = true → strtoul (ws ++ s) = strtoul s.
Proof. intros Hws. unfold strtoul. by rewrite skip_spaces_append. Qed.

Lemma strtoul_plus (r : string) :
  strtoul (String "+" r)
  = if (ULONG_MAX <? digits_value 0 r)%N then ULONG_MAX
    else digits_value 0 r.
Proof. reflexivity. Qed.

Lemma strtoul_minus (r : string) :
  strtoul (String "-" r)
  = if (ULONG_MAX <? digits_value 0 r)%N then ULONG_MAX
    else wrap64 (2 ^ 64 - digits_value 0 r).
Proof. reflexivity. Qed.

(** X4. [strtoul] reads back a number printed in decimal, whatever white
    space is before it and whatever text that does not go on with a digit
    is after it; a number that does not fit [unsigned long] gives
    [ULONG_MAX]. After a plus sign the result is the same, after a minus
    sign it is the number negated modulo [2^64]. *)
Theorem strtoul_decimal (ws : string) (n : N) (rest : string) :
  all_spaces ws = true → starts_with_digit rest = false →
  strtoul (ws ++ decimal n ++ rest) = N.min n ULONG_MAX
  ∧ strtoul (ws ++ String "+" (decimal n ++ rest)) = N.min n ULONG_MAX
  ∧ strtoul (ws ++ String "-" (decimal n ++ rest))
    = if (ULONG_MAX <? n)%N then ULONG_MAX else wrap64 (2 ^ 64 - n).
Proof.
  intros Hws Hrest.
  pose proof (strtoul_unsigned n rest Hrest) as H0.
  pose proof (decimal_then_value n rest) as Hv.
  rewrite (digits_value_stop _ _ Hrest), <- decimal_append in Hv.
  rewrite (strtoul_spaces ws (decimal n ++ rest)),
    (strtoul_spaces ws (String "+" _)),
    (strtoul_spaces ws (String "-" _)) by done.
  split; [done|]. clear H0. revert Hv.
  generalize (decimal n ++ rest). intros r Hv.
  rewrite strtoul_plus, strtoul_minus, Hv.
  split; [|done]. destruct (N.ltb_spec ULONG_MAX n); lia.
Qed.

Lemma strtoul_decimal_witness :
  strtoul ("  " ++ decimal 4294967301 ++ String newline "")
  = N.min 4294967301 ULONG_MAX
  ∧ strtoul ("  " ++ String "+" (decimal 4294967301 ++ String newline ""))
    = N.min 4294967301 ULONG_MAX
  ∧ strtoul ("  " ++ String "-" (decimal 4294967301 ++ String newline ""))
    = if (ULONG_MAX <? 4294967301)%N then ULONG_MAX
      else wrap64 (2 ^ 64 - 4294967301).
Proof.
  apply (strtoul_decimal "  " 4294967301 (String newline "")); reflexivity.
Defined.

(** X5. [_parse_line] on a line made of the keyword, any text without a
    colon, a colon, white space and a number in decimal: it returns true
    and stores the number, cut to 32 bits ([ULONG_MAX] cut to 32 bits when
    the number does not fit [unsigned long]); a number below [2^32] is
    stored as it is. *)
Theorem parse_line_decimal (keyword gap ws : string) (n : N)
    (rest : string) :
  no_char ":" keyword = true → no_char ":" gap = true →
  all_spaces ws = true → starts_with_digit rest = false →
  _parse_line (keyword ++ gap ++ String ":" (ws ++ decimal n ++ rest))
    keyword
  = Some (Some (wrap32 (N.min n ULONG_MAX)))
  ∧ ((n < 2 ^ 32)%N → wrap32 (N.min n ULONG_MAX) = n).
Proof.
  intros Hk Hg Hws Hrest. split.
  - unfold _parse_line, _parse_buffer. rewrite prefix_append.
    rewrite <- append_assoc, after_colon_append
      by (by rewrite no_char_append, Hk, Hg).
    simpl. do 2 f_equal. f_equal.
    by rewrite strtoul_spaces, strtoul_unsigned.
  - intros Hn. unfold wrap32, ULONG_MAX.
    rewrite N.min_l by lia. by apply N.mod_small.
Qed.

Lemma parse_line_decimal_witness :
  _parse_line
    ("core id" ++ tab ++ tab ++ String ":" (" " ++ decimal 17 ++ nl))
    "core id"
  = Some (Some (wrap32 (N.min 17 ULONG_MAX)))
  ∧ ((17 < 2 ^ 32)%N → wrap32 (N.min 17 ULONG_MAX) = 17%N).
Proof.
  apply (parse_line_decimal "core id" (tab ++ tab) " " 17 nl); reflexivity.
Defined.

End ParseFacts.

(** ** get_topology on a printed record stream *)

Module TopologyText.
Import MTWrapper ParseFacts.

Local Open Scope string_scope.

Lemma line_key_processor (d : string) :
  line_key (("processor" ++ tab ++ ": " ++ d) ++ String newline "")
  = Some (Some (KProcessor
      (wrap32 (strtoul (" " ++ d ++ String newline ""))))).
Proof. reflexivity. Qed.

Lemma line_key_physical_id (d : string) :
  line_key (("physical id" ++ tab ++ ": " ++ d) ++ String newline "")
  = Some (Some (KPhysicalId
      (wrap32 (strtoul (" " ++ d ++ String newline ""))))).
Proof. reflexivity. Qed.

Lemma line_key_core_id (d : string) :
  line_key (("core id" ++ tab ++ tab ++ ": " ++ d) ++ String newline "")
  = Some (Some (KCoreId
      (wrap32 (strtoul (" " ++ d ++ String newline ""))))).
Proof. reflexivity. Qed.

Lemma strtoul_field (n : N) :
  (n < 2 ^ 32)%N →
  wrap32 (strtoul (" " ++ decimal n ++ String newline "")) = n.
Proof.
  intros Hn.
  change (strtoul (" " ++ decimal n ++ String newline ""))
    with (strtoul (decimal n ++ String newline "")).
  rewrite strtoul_unsigned by done.
  unfold wrap32, ULONG_MAX. rewrite N.min_l by lia. by apply N.mod_small.
Qed.

Lemma record_lines_keys (r : cpu_record) :
  record_fits r →
  Forall2 (λ b k, line_key b = Some k)
    ((λ l, l ++ String newline "") <$> record_lines r)
    (record_key_opts r).
Proof.
  intros (Hp & Hs & Hc). unfold record_lines, record_key_opts.
  rewrite !fmap_cons, fmap_nil.
  repeat (constructor 2); try solve [constructor 1].
  - by rewrite line_key_processor, strtoul_field.
  - by rewrite line_key_physical_id, strtoul_field.
  - by rewrite line_key_core_id, strtoul_field.
Qed.

Lemma record_lines_short (r : cpu_record) :
  record_fits r →
  Forall (λ l, no_char newline l = true ∧ String.length l ≤ 126)
    (record_lines r).
Proof.
  intros (Hp & Hs & Hc). unfold record_lines.
  pose proof (decimal_length _ Hp). pose proof (decimal_length _ Hs).
  pose proof (decimal_length _ Hc).
  repeat (constructor 2); try solve [constructor 1];
    (split;
     [rewrite ?no_char_append, ?decimal_no_newline; reflexivity
     |rewrite ?length_append; simpl; lia]).
Qed.

Lemma cpuinfo_text_keys (rs : list cpu_record) :
  Forall record_fits rs →
  mapM line_key (fgets_buffers (cpuinfo_text rs))
  = Some (rs ≫= record_key_opts).
Proof.
  intros Hfit. unfold cpuinfo_text, fgets_buffers.
  rewrite fgets_loop_lines; [|apply length_lines_text|].
  - apply mapM_Some_2.
    induction Hfit as [|r rs Hr Hrs IH]; [constructor|].
    rewrite !bind_cons, fmap_app.
    apply Forall2_app; [by apply record_lines_keys|done].
  - induction Hfit as [|r rs Hr Hrs IH]; [constructor|].
    rewrite bind_cons. apply Forall_app.
    split; [by apply record_lines_short|done].
Qed.

Lemma record_key_opts_keys (rs : list cpu_record) :
  omap id (rs ≫= record_key_opts) = concat (record_keys <$> rs).
Proof.
  induction rs as [|r rs IH]; [done|].
  rewrite bind_cons, fmap_cons, omap_app, IH. reflexivity.
Qed.

Lemma record_fits_in_range (rs : list cpu_record) :
  Forall record_fits rs → Forall rec_in_range rs.
Proof.
  intros H. eapply Forall_impl; [exact H|]. by intros r (_ & ? & ?).
Qed.

Lemma topology_lines_text (rs : list cpu_record) (unique_threads0 : list Z) :
  Forall record_fits rs →
  topology_lines (fgets_buffers (cpuinfo_text rs))
    (mkTopo [] [] [] unique_threads0 0)
  = Some (mkTopo ((λ r, int_of_uint32 (rec_processor r)) <$> rs)
            ((λ r, int_of_uint32 (rec_physical_id r)) <$> rs)
            ((λ r, int_of_uint32 (rec_core_id r)) <$> rs)
            (unique_threads0 ++ primary_threads rs)%list (length rs)).
Proof.
  intros Hfit.
  rewrite (Topology.topology_lines_keys _ _ _ (cpuinfo_text_keys rs Hfit)).
  rewrite Topology.key_steps_skip, record_key_opts_keys.
  apply (Topology.key_steps_records rs [] unique_threads0
           (Forall_nil_2 _) (record_fits_in_range rs Hfit)).
Qed.

(** X8. [get_topology] on the text of a record stream, printed the way
    Linux prints [/proc/cpuinfo] with the ids in decimal: when the ids fit
    32 bits and the vector of physical ids is empty at the call, nothing
    is printed, the physical ids of the records are stored in order, and
    the processors that no earlier record shares the core with are
    appended to the unique threads. *)
Theorem get_topology_cpuinfo_text (rs : list cpu_record)
    (unique_threads0 : list Z) :
  Forall record_fits rs →
  get_topology (Some (cpuinfo_text rs)) [] unique_threads0
  = ([], Some ((λ r, int_of_uint32 (rec_physical_id r)) <$> rs,
               (unique_threads0 ++ primary_threads rs)%list)).
Proof.
  intros Hfit. unfold get_topology.
  by rewrite (topology_lines_text rs unique_threads0 Hfit).
Qed.

Lemma get_topology_cpuinfo_text_witness :
  get_topology
    (Some (cpuinfo_text [mkRecord 0 0 5; mkRecord 1 1 5; mkRecord 2 0 5]))
    [] [7%Z]
  = ([], Some ([0; 1; 0]%Z, [7; 0; 1]%Z)).
Proof.
  apply (get_topology_cpuinfo_text
           [mkRecord 0 0 5; mkRecord 1 1 5; mkRecord 2 0 5] [7%Z]).
  repeat constructor.
Defined.

(** *** What get_topology does to its two vectors on any stream *)

Lemma prefix_both (b : string) : ∀ k1 k2,
  String.prefix k1 b = true → String.prefix k2 b = true →
  String.prefix k1 k2 = true ∨ String.prefix k2 k1 = true.
Proof.
  induction b as [|c b IH]; intros [|a1 k1] [|a2 k2]; simpl; auto;
    try (by destruct k2; auto); try (by destruct k1; auto).
  destruct (ascii_dec a1 c) as [->|]; [|done].
  destruct (ascii_dec a2 c) as [->|]; [|done].
  destruct (ascii_dec c c); [|done]. apply IH.
Qed.

Lemma line_key_kinds (b : string) (k : option cpu_key) :
  line_key b = Some k →
  (String.prefix "physical id" b = true ↔ ∃ v, k = Some (KPhysicalId v))
  ∧ (String.prefix "core id" b = true ↔ ∃ v, k = Some (KCoreId v)).
Proof.
  unfold line_key, _parse_line, _parse_buffer.
  destruct (String.prefix "processor" b) eqn:E1.
  { destruct (after_colon b); simpl; [|done]. intros [= <-].
    split; (split; [intros E2|by intros [? ?]]);
      by destruct (prefix_both _ _ _ E1 E2). }
  simpl. destruct (String.prefix "physical id" b) eqn:E2.
  { destruct (after_colon b); simpl; [|done]. intros [= <-].
    split; (split; [intros E3|intros [? ?]]); try done; [by eauto|].
    by destruct (prefix_both _ _ _ E2 E3). }
  simpl. destruct (String.prefix "core id" b) eqn:E3.
  { destruct (after_colon b); simpl; [|done]. intros [= <-].
    split; (split; [intros ?|intros [? ?]]); try done. by eauto. }
  simpl. intros [= <-]. split; (split; [done|by intros [? ?]]).
Qed.

Lemma line_key_tests (b : string) (k : option cpu_key) :
  line_key b = Some k →
  String.prefix "physical id" b = is_physical_id k
  ∧ String.prefix "core id" b = is_core_id k.
Proof.
  intros [H1 H2]%line_key_kinds. split.
  - destruct (String.prefix "physical id" b).
    + destruct H1 as [H1 _]. by destruct H1 as [v ->].
    + destruct k as [[]|]; try done. destruct H1 as [_ H1].
      by discriminate H1; eauto.
  - destruct (String.prefix "core id" b).
    + destruct H2 as [H2 _]. by destruct H2 as [v ->].
    + destruct k as [[]|]; try done. destruct H2 as [_ H2].
      by discriminate H2; eauto.
Qed.

Lemma key_step_grows (k : option cpu_key) (st st' : topology_state) :
  key_step k st = Some st' →
  ∃ ps us : list Z,
    physical_ids st' = (physical_ids st ++ ps)%list
    ∧ unique_threads st' = (unique_threads st ++ us)%list
    ∧ length ps = (if is_physical_id k then 1 else 0)
    ∧ length us ≤ (if is_core_id k then 1 else 0).
Proof.
  destruct k as [[v|v|v]|]; simpl.
  - intros [= <-]. exists [], []. simpl. by rewrite !app_nil_r.
  - intros [= <-]. eexists [_], []. simpl. by rewrite !app_nil_r.
  - destruct (count_found st v) as [found|]; simpl; [|done].
    destruct (decide (found = 0)).
    + destruct (hardware_threads st !! index st) as [h|]; simpl; [|done].
      intros [= <-]. eexists [], [_]. simpl. by rewrite !app_nil_r.
    + simpl. intros [= <-]. exists [], []. simpl.
      rewrite !app_nil_r. repeat split; lia.
  - intros [= <-]. exists [], []. simpl. by rewrite !app_nil_r.
Qed.

Lemma topology_lines_grows (buffers : list string) : ∀ st st',
  topology_lines buffers st = Some st' →
  ∃ ps us : list Z,
    physical_ids st' = (physical_ids st ++ ps)%list
    ∧ unique_threads st' = (unique_threads st ++ us)%list
    ∧ length ps
      = length (List.filter (String.prefix "physical id") buffers)
    ∧ length us
      ≤ length (List.filter (String.prefix "core id") buffers).
Proof.
  induction buffers as [|b buffers IH]; intros st st'.
  - intros [= <-]. exists [], []. simpl. by rewrite !app_nil_r.
  - cbn [topology_lines]. rewrite Topology.topology_line_key.
    destruct (line_key b) as [k|] eqn:Hk; [|done]. simpl.
    destruct (key_step k st) as [st1|] eqn:Hstep; [|done]. simpl.
    intros Hrest.
    destruct (key_step_grows _ _ _ Hstep) as (ps1 & us1 & E1 & E2 & H1 & H2).
    destruct (IH _ _ Hrest) as (ps2 & us2 & E3 & E4 & H3 & H4).
    destruct (line_key_tests _ _ Hk) as [T1 T2].
    exists (ps1 ++ ps2)%list, (us1 ++ us2)%list.
    rewrite E3, E4, E1, E2, <- !(assoc_L app), !length_app.
    cbn [List.filter]. rewrite T1, T2.
    repeat split.
    + destruct (is_physical_id k); simpl; lia.
    + destruct (is_core_id k); simpl; lia.
Qed.

(** X9. On any stream that [get_topology] gets through, it prints nothing
    and only appends to its two vectors: what they held at the call is
    kept in front. One physical id is appended per line that begins with
    "physical id", and at most one unique thread per line that begins
    with "core id". *)
Theorem get_topology_appends (contents : string)
    (physical_ids0 unique_threads0 : list Z) (out : list string)
    (physical_ids1 unique_threads1 : list Z) :
  get_topology (Some contents) physical_ids0 unique_threads0
  = (out, Some (physical_ids1, unique_threads1)) →
  out = []
  ∧ ∃ ps us : list Z,
      physical_ids1 = (physical_ids0 ++ ps)%list
      ∧ unique_threads1 = (unique_threads0 ++ us)%list
      ∧ length ps
        = length (List.filter (String.prefix "physical id")
                    (fgets_buffers contents))
      ∧ length us
        ≤ length (List.filter (String.prefix "core id")
                    (fgets_buffers contents)).
Proof.
  unfold get_topology. intros [= <- H]. split; [done|].
  destruct (topology_lines _ _) as [st|] eqn:Hst; [|done].
  injection H as <- <-.
  by apply topology_lines_grows in Hst.
Qed.

Lemma get_topology_appends_witness :
  ([] : list string) = []
  ∧ ∃ ps us : list Z,
      [3; 2]%Z = ([3%Z] ++ ps)%list
      ∧ [4%Z] = ([4%Z] ++ us)%list
      ∧ length ps
        = length (List.filter (String.prefix "physical id")
                    (fgets_buffers (lines_text ["physical id : 2"; "x"])))
      ∧ length us
        ≤ length (List.filter (String.prefix "core id")
                    (fgets_buffers (lines_text ["physical id : 2"; "x"]))).
Proof.
  apply (get_topology_appends (lines_text ["physical id : 2"; "x"])
           [3%Z] [4%Z] [] [3; 2]%Z [4%Z]).
  reflexivity.
Defined.

(** *** A core id before any processor *)

Lemma topology_line_quiet (b : string) (st : topology_state) :
  String.prefix "processor" b = false → String.prefix "core id" b = false →
  topology_line b st = None
  ∨ ∃ st', topology_line b st = Some st'
      ∧ hardware_threads st' = hardware_threads st ∧ index st' = index st.
Proof.
  intros H1 H2. unfold topology_line, _parse_line, _parse_buffer.
  rewrite H1. simpl. destruct (String.prefix "physical id" b).
  - destruct (after_colon b); simpl; [right; by eexists|by left].
  - simpl. rewrite H2. simpl. right. by eexists.
Qed.

Lemma topology_line_core_first (b : string) (st : topology_state) :
  String.prefix "core id" b = true →
  hardware_threads st = [] → index st = 0 →
  topology_line b st = None.
Proof.
  intros Hcore Hhw Hidx.
  assert (String.prefix "processor" b = false) as H1.
  { destruct (String.prefix "processor" b) eqn:E; [|done].
    by destruct (prefix_both _ _ _ E Hcore). }
  assert (String.prefix "physical id" b = false) as H2.
  { destruct (String.prefix "physical id" b) eqn:E; [|done].
    by destruct (prefix_both _ _ _ E Hcore). }
  unfold topology_line, _parse_line, _parse_buffer.
  rewrite H1. simpl. rewrite H2. simpl. rewrite Hcore.
  destruct (after_colon b); simpl; [|done].
  unfold count_found. rewrite Hidx. simpl. by rewrite Hhw.
Qed.

Lemma topology_lines_core_first (pre : list string) (b : string)
    (post : list string) : ∀ st,
  Forall (λ l, String.prefix "processor" l = false
               ∧ String.prefix "core id" l = false) pre →
  String.prefix "core id" b = true →
  hardware_threads st = [] → index st = 0 →
  topology_lines ((pre ++ b :: post)%list) st = None.
Proof.
  induction pre as [|l pre IH]; intros st Hpre Hcore Hhw Hidx.
  - simpl. by rewrite topology_line_core_first.
  - apply Forall_cons in Hpre as [[H1 H2] Hpre].
    change (topology_lines (((l :: pre) ++ b :: post)%list) st)
      with (topology_line l st
            ≫= topology_lines ((pre ++ b :: post)%list)).
    destruct (topology_line_quiet l st H1 H2)
      as [->|(st' & -> & Hhw' & Hidx')]; [done|].
    simpl. apply IH; [done|done|congruence..].
Qed.

(** X10. A line that begins with "core id" before any line that begins
    with "processor": [get_topology] reads [hardware_threads[0]] of an
    empty vector, so the run is undefined, whatever follows in the
    stream and whatever the two vectors held. *)
Theorem get_topology_core_id_first (contents : string)
    (pre : list string) (b : string) (post : list string)
    (physical_ids0 unique_threads0 : list Z) :
  fgets_buffers contents = (pre ++ b :: post)%list →
  Forall (λ l, String.prefix "processor" l = false
               ∧ String.prefix "core id" l = false) pre →
  String.prefix "core id" b = true →
  get_topology (Some contents) physical_ids0 unique_threads0 = ([], None).
Proof.
  intros Hbuf Hpre Hcore. unfold get_topology. rewrite Hbuf.
  by rewrite topology_lines_core_first.
Qed.

Lemma get_topology_core_id_first_witness :
  get_topology
    (Some (lines_text ["physical id : 0"; "core id : 0"; "processor : 0"]))
    [] []
  = ([], None).
Proof.
  apply (get_topology_core_id_first
           (lines_text ["physical id : 0"; "core id : 0"; "processor : 0"])
           [String.append "physical id : 0" nl]
           (String.append "core id : 0" nl)
           [String.append "processor : 0" nl] [] []);
    [reflexivity|by repeat constructor|reflexivity].
Defined.

End TopologyText.

(** ** Setting up the workers *)

Module InitFacts.
Import MTWrapper.

Section Init.
Context {TaskQueue : Type}.

Local Abbreviation Worker := (@Worker TaskQueue).

Lemma shrink_unique_threads_take (n : N) (unique : list Z) :
  shrink_unique_threads n unique = take (N.to_nat n) unique.
Proof.
  unfold shrink_unique_threads.
  destruct (N.ltb_spec n (N.of_nat (length unique))); [done|].
  rewrite take_ge; [done|lia].
Qed.

Lemma initCPPWorkersWith_workers
    (make : list TaskQueue → list Z → list Z → bool → N → N → nat →
            Z → Z → Z → bool → Worker)
    (cpu_info_file : option string) (w w' : MTWrapperBase)
    (qvector : list TaskQueue) (numaDomains : list Z) (batchSize : N)
    (verbose : bool) (numQueues queueMode stealLogic : Z)
    (pinWorkers : bool) (out : list string) (workers : list Worker) :
  (∀ q p u v f b i n m s pin,
     worker_threadID (make q p u v f b i n m s pin) = Some i
     ∧ worker_topology (make q p u v f b i n m s pin) = Some (p, u)) →
  initCPPWorkersWith make cpu_info_file w qvector numaDomains batchSize
    verbose numQueues queueMode stealLogic pinWorkers
  = (out, Some (w', workers)) →
  length workers = N.to_nat (_numCPPThreads w)
  ∧ (∀ i worker, workers !! i = Some worker →
       worker_threadID worker = Some i
       ∧ worker_topology worker
         = Some (topology_physical_ids w', topology_unique_threads w'))
  ∧ length (topology_unique_threads w') ≤ N.to_nat (_numCPPThreads w)
  ∧ (_numThreads w', _numCPPThreads w', _numCUDAThreads w')
    = (_numThreads w, _numCPPThreads w, _numCUDAThreads w)
  ∧ (numQueues = 0%Z ↔
     "numQueues is 0, this should not happen."%string ∈ out).
Proof.
  intros Hmake. unfold initCPPWorkersWith.
  destruct (get_topology cpu_info_file _ _) as [out2 probed] eqn:Htop.
  intros Heq. injection Heq as Hout H. subst out.
  destruct probed as [[physical unique]|]; [|done]. simpl in H.
  revert H. destruct (guard _) as [?|]; [|done]. simpl. intros H.
  injection H as Hw Hworkers. subst w' workers. simpl.
  rewrite length_fmap, length_seq, shrink_unique_threads_take, length_take.
  split; [done|]. split; [|split; [lia|split; [done|]]].
  - intros i worker Hi. apply list_lookup_fmap_Some in Hi as (j & -> & Hj).
    apply lookup_seq in Hj as [-> _]. apply Hmake.
  - assert (out2 = []) as ->.
    { destruct cpu_info_file; simpl in Htop; [|discriminate].
      by injection Htop as <- _. }
    rewrite app_nil_r. destruct (decide (numQueues = 0%Z)).
    + split; [intros _; apply list_elem_of_singleton; done|done].
    + split; [done|]. by intros ?%elem_of_nil.
Qed.

Local Abbreviation init_with per_group :=
  (if per_group : bool then initCPPWorkersPerGroup (TaskQueue:=TaskQueue)
   else initCPPWorkersPerCPU).

Local Abbreviation make_with per_group :=
  (if per_group : bool then WorkerCPUPerGroup (TaskQueue:=TaskQueue)
   else WorkerCPUPerCPU).

(** X12. [initCPPWorkersPerCPU] and [initCPPWorkersPerGroup], whenever they
    get through the stream: there are [_numCPPThreads] workers; worker [i]
    is given the index [i] and the two topology vectors as the wrapper
    holds them afterwards; at most [_numCPPThreads] unique threads are
    kept; the thread counts of the wrapper are not changed; the message
    about [numQueues] is printed exactly when [numQueues] is 0. *)
Theorem initCPPWorkers_numbered (per_group : bool)
    (cpu_info_file : option string) (w w' : MTWrapperBase)
    (qvector : list TaskQueue) (numaDomains : list Z) (batchSize : N)
    (verbose : bool) (numQueues queueMode stealLogic : Z)
    (pinWorkers : bool) (out : list string) (workers : list Worker) :
  init_with per_group cpu_info_file w qvector numaDomains batchSize
    verbose numQueues queueMode stealLogic pinWorkers
  = (out, Some (w', workers)) →
  length workers = N.to_nat (_numCPPThreads w)
  ∧ (∀ i worker, workers !! i = Some worker →
       worker_threadID worker = Some i
       ∧ worker_topology worker
         = Some (topology_physical_ids w', topology_unique_threads w'))
  ∧ length (topology_unique_threads w') ≤ N.to_nat (_numCPPThreads w)
  ∧ (_numThreads w', _numCPPThreads w', _numCUDAThreads w')
    = (_numThreads w, _numCPPThreads w, _numCUDAThreads w)
  ∧ (numQueues = 0%Z ↔
     "numQueues is 0, this should not happen."%string ∈ out).
Proof.
  destruct per_group; apply initCPPWorkersWith_workers; done.
Qed.

(** X13. [initCPPWorkersPerCPU] and [initCPPWorkersPerGroup] on the printed
    text of a record stream whose ids fit 32 bits, for a wrapper whose
    topology vectors are still empty and that has at most [INT_MAX]
    threads: the physical ids of all records are stored, the unique
    threads are the first [_numCPPThreads] processors that no earlier
    record shares the core with, and worker [i] is constructed with
    these two vectors, function id 0, the index [i] and the arguments of
    the call. *)
Theorem initCPPWorkers_cpuinfo_text (per_group : bool)
    (rs : list cpu_record) (w : MTWrapperBase)
    (qvector : list TaskQueue) (numaDomains : list Z) (batchSize : N)
    (verbose : bool) (numQueues queueMode stealLogic : Z)
    (pinWorkers : bool) :
  Forall record_fits rs →
  topology_physical_ids w = [] → topology_unique_threads w = [] →
  (_numCPPThreads w ≤ 2 ^ 31 - 1)%N →
  let physical := (λ r, int_of_uint32 (rec_physical_id r)) <$> rs in
  let unique := take (N.to_nat (_numCPPThreads w)) (primary_threads rs) in
  init_with per_group (Some (cpuinfo_text rs)) w qvector numaDomains
    batchSize verbose numQueues queueMode stealLogic pinWorkers
  = ((if decide (numQueues = 0%Z)
      then ["numQueues is 0, this should not happen."%string] else []),
     Some (mkWrapper (_numThreads w) (_numCPPThreads w) (_numCUDAThreads w)
             physical unique,
           (λ i, make_with per_group qvector physical unique verbose 0%N
                   batchSize i numQueues queueMode stealLogic pinWorkers)
           <$> seq 0 (N.to_nat (_numCPPThreads w)))).
Proof.
  intros Hfit Hp Hu Hn physical unique.
  assert (∀ make,
    initCPPWorkersWith make (Some (cpuinfo_text rs)) w qvector numaDomains
      batchSize verbose numQueues queueMode stealLogic pinWorkers
    = ((if decide (numQueues = 0%Z)
        then ["numQueues is 0, this should not happen."%string] else []),
       Some (mkWrapper (_numThreads w) (_numCPPThreads w)
               (_numCUDAThreads w) physical unique,
             (λ i, make qvector physical unique verbose 0%N
                     batchSize i numQueues queueMode stealLogic pinWorkers)
             <$> seq 0 (N.to_nat (_numCPPThreads w))))) as Hwith.
  { intros make. unfold initCPPWorkersWith.
    rewrite Hp, Hu. unfold get_topology.
    rewrite (TopologyText.topology_lines_text rs [] Hfit).
    rewrite app_nil_r. f_equal. simpl.
    rewrite shrink_unique_threads_take.
    case_guard; [done|]. exfalso. auto. }
  destruct per_group; apply Hwith.
Qed.

(** X14. When the CPU-info file cannot be opened,
    [initCPPWorkersPerCPU] and [initCPPWorkersPerGroup] print their
    messages and run into the fault of [get_topology]: no worker is
    constructed. *)
Theorem initCPPWorkers_unopened (per_group : bool) (w : MTWrapperBase)
    (qvector : list TaskQueue) (numaDomains : list Z) (batchSize : N)
    (verbose : bool) (numQueues queueMode stealLogic : Z)
    (pinWorkers : bool) :
  init_with per_group None w qvector numaDomains batchSize verbose
    numQueues queueMode stealLogic pinWorkers
  = ((if decide (numQueues = 0%Z)
      then ["numQueues is 0, this should not happen."%string] else [])
     ++ ["Error opening file."%string], None).
Proof. by destruct per_group. Qed.

(** X11. The workers of a freshly constructed wrapper, set up by
    [initCPPWorkers] and [initCUDAWorkers]: with a positive configured
    number of threads there are that many CPU workers, all constructed
    with function id 0; the CUDA workers are constructed with function
    id 1, and there is none unless CUDA is in use and the pipeline has
    more than one function. *)
Theorem workers_of_fresh_wrapper (hardware_concurrency numThreads
    numFunctions : N) (ctx : DaphneContext) (q : TaskQueue)
    (batchSize : N) (verbose : bool) :
  int_range (config_numberOfThreads ctx) →
  (0 < config_numberOfThreads ctx)%Z →
  let w := construct hardware_concurrency numThreads numFunctions ctx in
  initCPPWorkers w q batchSize verbose
  = replicate (Z.to_nat (config_numberOfThreads ctx))
      (WorkerCPU q verbose 0 batchSize)
  ∧ (∃ n, initCUDAWorkers w q batchSize verbose
          = replicate n (WorkerCPU q verbose 1 batchSize))
  ∧ (useCUDA ctx = false ∨ (numFunctions ≤ 1)%N →
     initCUDAWorkers w q batchSize verbose = []).
Proof.
  intros Hrange Hpos w. subst w.
  unfold initCPPWorkers, initCUDAWorkers, construct. simpl.
  destruct (Z.ltb_spec 0 (config_numberOfThreads ctx)); [|lia].
  unfold int_range in Hrange.
  rewrite MachineFacts.uint32_of_Z_pos by lia. rewrite Z_N_nat.
  split; [done|]. split; [by eexists|].
  intros [->|Hfun]; [done|].
  destruct (N.ltb_spec 1 numFunctions); [lia|].
  by rewrite andb_false_r.
Qed.

End Init.

Lemma workers_of_fresh_wrapper_witness :
  let w := construct 8 1 1 (mkContext 3 true [mkCUDAContext 1024]) in
  initCPPWorkers w () 16 false
  = replicate (Z.to_nat 3) (WorkerCPU () false 0 16)
  ∧ (∃ n, initCUDAWorkers w () 16 false
          = replicate n (WorkerCPU () false 1 16))
  ∧ (true = false ∨ (1 ≤ 1)%N → initCUDAWorkers w () 16 false = []).
Proof.
  apply (workers_of_fresh_wrapper 8 1 1
           (mkContext 3 true [mkCUDAContext 1024]) () 16 false).
  - unfold int_range. simpl. lia.
  - simpl. lia.
Defined.

Lemma initCPPWorkers_numbered_witness :
  length [WorkerCPUPerCPU [()] [0; 0; 0; 0]%Z [0; 2]%Z false 0 8 0 0 0 0 true;
          WorkerCPUPerCPU [()] [0; 0; 0; 0]%Z [0; 2]%Z false 0 8 1 0 0 0 true]
  = N.to_nat 2
  ∧ (∀ i worker,
       [WorkerCPUPerCPU [()] [0; 0; 0; 0]%Z [0; 2]%Z false 0 8 0 0 0 0 true;
        WorkerCPUPerCPU [()] [0; 0; 0; 0]%Z [0; 2]%Z false 0 8 1 0 0 0 true]
       !! i = Some worker →
       worker_threadID worker = Some i
       ∧ worker_topology worker = Some ([0; 0; 0; 0]%Z, [0; 2]%Z))
  ∧ length [0; 2]%Z ≤ N.to_nat 2
  ∧ (2%N, 2%N, 0%N) = (2%N, 2%N, 0%N)
  ∧ (0%Z = 0%Z ↔
     "numQueues is 0, this should not happen."%string
     ∈ ["numQueues is 0, this should not happen."%string]).
Proof.
  apply (initCPPWorkers_numbered false (Some example_cpuinfo)
           (mkWrapper 2 2 0 [] []) (mkWrapper 2 2 0 [0; 0; 0; 0]%Z [0; 2]%Z)
           [()] [] 8 false 0 0 0 true
           ["numQueues is 0, this should not happen."%string]).
  reflexivity.
Defined.

Lemma initCPPWorkers_cpuinfo_text_witness :
  initCPPWorkersPerGroup
    (Some (cpuinfo_text [mkRecord 0 0 5; mkRecord 1 1 5; mkRecord 2 0 5]))
    (mkWrapper 1 1 0 [] []) [(); ()] [] 8 true 2 1 0 false
  = ([], Some (mkWrapper 1 1 0 [0; 1; 0]%Z [0%Z],
               [WorkerCPUPerGroup [(); ()] [0; 1; 0]%Z [0%Z] true 0 8 0
                  2 1 0 false])).
Proof.
  apply (initCPPWorkers_cpuinfo_text true
           [mkRecord 0 0 5; mkRecord 1 1 5; mkRecord 2 0 5]
           (mkWrapper 1 1 0 [] []) [(); ()] [] 8 true 2 1 0 false);
    try reflexivity; [repeat constructor|simpl; lia].
Defined.

End InitFacts.

(** ** allocateOutput: the bytes it reports, and calling it again *)

Module AllocateOutputBytes.
Import MTWrapper.

Section Alloc.
Context {DT : Type}.
Variable create : N → N → bool → DT.
Variable bufferSize : DT → N.

Lemma allocated_bytes_S (res : list (option DT)) (outRows outCols : list Z)
    (combines : list VectorCombine) (n : nat) :
  allocated_bytes create bufferSize res outRows outCols combines (S n)
  = (allocated_bytes create bufferSize res outRows outCols combines n
     + allocated_at create bufferSize res outRows outCols combines n)%N.
Proof.
  unfold allocated_bytes. rewrite seq_S, fmap_app, foldr_app. simpl.
  rewrite InputProperties.foldr_add_init. lia.
Qed.

Lemma allocateOutput_bytes_rounds (res : list (option DT))
    (outRows outCols : list Z) (combines : list VectorCombine) (n : nat) :
  n ≤ length res → n ≤ length outRows → n ≤ length outCols →
  n ≤ length combines →
  ∃ res',
    allocateOutput create bufferSize res n outRows outCols combines
    = Some (res',
            wrap64 (allocated_bytes create bufferSize res outRows outCols
                      combines n)).
Proof.
  induction n as [|n IH]; intros H1 H2 H3 H4.
  { by exists res. }
  destruct IH as (res1 & Hrun); [lia..|].
  destruct (AllocateOutput.allocateOutput_rounds create bufferSize res
              outRows outCols combines n)
    as (res1' & mem1 & Hrun' & _ & Hrest & _); [lia..|].
  rewrite Hrun in Hrun'. injection Hrun' as <- _.
  rewrite allocated_bytes_S. unfold allocated_at.
  unfold allocateOutput in *.
  rewrite for_range_snoc, Hrun. simpl.
  destruct (lookup_lt_is_Some_2 res n) as [slot Hslot]; [lia|].
  destruct (lookup_lt_is_Some_2 outRows n) as [rows Hrows]; [lia|].
  destruct (lookup_lt_is_Some_2 outCols n) as [cols Hcols]; [lia|].
  destruct (lookup_lt_is_Some_2 combines n) as [combine Hcomb]; [lia|].
  rewrite (Hrest n) by lia. rewrite Hslot, Hrows, Hcols, Hcomb. simpl.
  destruct slot as [m|]; [exists res1; by rewrite N.add_0_r|].
  destruct (decide (rows = (-1)%Z)) as [Hr|Hr].
  { rewrite decide_True by (by left). exists res1. by rewrite N.add_0_r. }
  simpl. destruct (decide (cols = (-1)%Z)) as [Hc|Hc].
  { rewrite decide_True by (by right). exists res1. by rewrite N.add_0_r. }
  simpl. rewrite decide_False by (by intros [?|?]).
  eexists. by rewrite MachineFacts.wrap64_add_wrap64_l.
Qed.

Lemma allocateOutput_settled (res : list (option DT))
    (outRows outCols : list Z) (combines : list VectorCombine) (n : nat) :
  n ≤ length res → n ≤ length outRows → n ≤ length outCols →
  (∀ i rows cols, i < n → res !! i = Some None →
     outRows !! i = Some rows → outCols !! i = Some cols →
     rows = (-1)%Z ∨ cols = (-1)%Z) →
  allocateOutput create bufferSize res n outRows outCols combines
  = Some (res, 0%N).
Proof.
  unfold allocateOutput.
  induction n as [|n IH]; intros H1 H2 H3 Hset; [done|].
  rewrite for_range_snoc, IH;
    [|lia..|intros i rows cols Hi; apply Hset; lia].
  simpl.
  destruct (lookup_lt_is_Some_2 res n) as [slot Hslot]; [lia|].
  destruct (lookup_lt_is_Some_2 outRows n) as [rows Hrows]; [lia|].
  destruct (lookup_lt_is_Some_2 outCols n) as [cols Hcols]; [lia|].
  rewrite Hslot. simpl. destruct slot as [m|]; [done|].
  rewrite Hrows. simpl.
  destruct (decide (rows = (-1)%Z)) as [Hr|Hr]; [done|].
  rewrite Hcols. simpl.
  destruct (decide (cols = (-1)%Z)) as [Hc|Hc]; [done|].
  destruct (Hset n rows cols) as [?|?]; (done || lia).
Qed.

End Alloc.

(** X17. The number that [allocateOutput] returns is the sum, modulo
    [2^64], of the buffer sizes of the matrices it has allocated: of
    [bufferSize()] of the fresh matrix for every output whose slot was
    null and whose two dimensions are not [-1]. *)
Theorem allocateOutput_bytes {DT : Type} (create : N → N → bool → DT)
    (bufferSize : DT → N) (res : list (option DT)) (numOutputs : nat)
    (outRows outCols : list Z) (combines : list VectorCombine) :
  length res = numOutputs → length outRows = numOutputs →
  length outCols = numOutputs → length combines = numOutputs →
  ∃ res',
    allocateOutput create bufferSize res numOutputs outRows outCols combines
    = Some (res',
            wrap64 (allocated_bytes create bufferSize res outRows outCols
                      combines numOutputs)).
Proof.
  intros. apply allocateOutput_bytes_rounds; lia.
Qed.

Lemma allocateOutput_bytes_witness :
  ∃ res',
    allocateOutput shape_create shape_bufferSize
      [None; Some (mkShape 1 1 false); None; None] 4
      [2; 5; -1; 4]%Z [3; 5; 1; 4]%Z
      [CombineADD; CombineROWS; CombineROWS; CombineCOLS]
    = Some (res', 176%N).
Proof.
  apply (allocateOutput_bytes shape_create shape_bufferSize
           [None; Some (mkShape 1 1 false); None; None] 4
           [2; 5; -1; 4]%Z [3; 5; 1; 4]%Z
           [CombineADD; CombineROWS; CombineROWS; CombineCOLS]);
    reflexivity.
Defined.

(** X18. [allocateOutput] called a second time on the slots it has left,
    with the same descriptors, changes no slot and reports 0 bytes: what
    is allocated is not allocated again. *)
Theorem allocateOutput_again {DT : Type} (create : N → N → bool → DT)
    (bufferSize : DT → N) (res res' : list (option DT)) (numOutputs : nat)
    (outRows outCols : list Z) (combines : list VectorCombine) (mem : N) :
  length res = numOutputs → length outRows = numOutputs →
  length outCols = numOutputs → length combines = numOutputs →
  allocateOutput create bufferSize res numOutputs outRows outCols combines
  = Some (res', mem) →
  allocateOutput create bufferSize res' numOutputs outRows outCols combines
  = Some (res', 0%N).
Proof.
  intros H1 H2 H3 H4 Hrun.
  destruct (AllocateOutput.allocateOutput_rounds create bufferSize res
              outRows outCols combines numOutputs)
    as (res1 & mem1 & Hrun' & Hlen & _ & Hdone); [lia..|].
  rewrite Hrun in Hrun'. injection Hrun' as <- <-.
  apply allocateOutput_settled; [lia..|].
  intros i rows cols Hi Hslot Hrows Hcols.
  destruct (lookup_lt_is_Some_2 res i) as [slot Hs]; [lia|].
  destruct (lookup_lt_is_Some_2 combines i) as [combine Hcomb]; [lia|].
  rewrite (Hdone i slot rows cols combine Hi Hs Hrows Hcols Hcomb) in Hslot.
  injection Hslot as Hslot. unfold slot_after in Hslot.
  destruct slot; [done|]. by destruct (decide _).
Qed.

Lemma allocateOutput_again_witness :
  allocateOutput shape_create shape_bufferSize
    [Some (mkShape 2 3 true); Some (mkShape 1 1 false); None] 3
    [2; 5; -1]%Z [3; 5; 1]%Z [CombineADD; CombineROWS; CombineROWS]
  = Some ([Some (mkShape 2 3 true); Some (mkShape 1 1 false); None], 0%N).
Proof.
  apply (allocateOutput_again shape_create shape_bufferSize
           [None; Some (mkShape 1 1 false); None]
           [Some (mkShape 2 3 true); Some (mkShape 1 1 false); None] 3
           [2; 5; -1]%Z [3; 5; 1]%Z [CombineADD; CombineROWS; CombineROWS]
           48%N);
    reflexivity.
Defined.

End AllocateOutputBytes.

(** ** Which cells the loops over the inputs read *)

Module InputFacts.
Import MTWrapper.

Lemma for_range_defined {S : Type} (ok : nat → Prop)
    (body : nat → S → option S) :
  (∀ i s, is_Some (body i s) ↔ ok i) →
  ∀ n start s,
    is_Some (for_range start n body s) ↔ ∀ i, i < n → ok (start + i).
Proof.
  intros Hbody. induction n as [|n IH]; intros start s; simpl.
  { split; [intros _ i Hi; lia|by eauto]. }
  split.
  - destruct (body start s) as [s1|] eqn:Hs; simpl; [|by intros [? ?]].
    intros Hrest i Hi. destruct i as [|i].
    + rewrite Nat.add_0_r. apply (Hbody start s). by rewrite Hs.
    + replace (start + Datatypes.S i) with (Datatypes.S start + i) by lia.
      apply (IH (Datatypes.S start) s1); [done|lia].
  - intros Hok. destruct (proj2 (Hbody start s)) as [s1 Hs].
    { specialize (Hok 0). rewrite Nat.add_0_r in Hok. apply Hok. lia. }
    rewrite Hs. simpl. apply IH. intros i Hi.
    replace (Datatypes.S start + i) with (start + Datatypes.S i) by lia.
    apply Hok. lia.
Qed.

(** The cells a loop over the [ROWS] inputs reads at index [i]:
    [splits[i]] always, [inputs[i]] only when the split is [ROWS]. *)
Local Abbreviation readable inputs splits :=
  (λ i : nat, ∃ split : VectorSplit,
     splits !! i = Some split
     ∧ (split = SplitROWS → is_Some ((inputs : list Structure) !! i))).

Lemma rows_body_defined {S : Type} (inputs : list Structure)
    (splits : list VectorSplit) (f : Structure → nat → S → S) (i : nat)
    (s : S) :
  is_Some (split ← splits !! i;
           if decide (split = SplitROWS) then
             input ← inputs !! i; Some (f input i s)
           else Some s)
  ↔ readable inputs splits i.
Proof.
  cbv beta. destruct (splits !! i) as [split|]; simpl.
  - destruct (decide (split = SplitROWS)) as [->|Hne].
    + destruct (inputs !! i) as [input|]; simpl.
      * split; [intros _; exists SplitROWS|intros _; by eexists].
        split; [done|intros _; by eexists].
      * split; [by intros [? ?]|].
        intros (split & [= <-] & Hin). by destruct Hin.
    + split; [intros _; exists split; by split|intros _; by eexists].
  - split; [by intros [? ?]|]. by intros (? & ? & _).
Qed.

(** X1. [getInputProperties] reads [splits[i]] for every [i] below
    [numInputs], and [inputs[i]] only for those whose split is [ROWS]:
    the run is defined exactly when these cells exist. *)
Theorem getInputProperties_defined (sizeof_VT : N)
    (inputs : list Structure) (numInputs : nat)
    (splits : list VectorSplit) :
  is_Some (getInputProperties sizeof_VT inputs numInputs splits)
  ↔ ∀ i, i < numInputs →
      ∃ split, splits !! i = Some split
               ∧ (split = SplitROWS → is_Some (inputs !! i)).
Proof.
  unfold getInputProperties.
  rewrite (for_range_defined (readable inputs splits)); [done|].
  intros i [len mem].
  apply (rows_body_defined inputs splits
           (λ input _ '(len, mem),
              (N.max len (getNumRows input),
               wrap64 (mem + wrap64 (getNumItems input * sizeof_VT))))
           i (len, mem)).
Qed.

(** X15. [cudaPrefetchInputs] is defined exactly when there is a CUDA
    context and, in case the buffer usage is below 1, [splits[i]] exists
    for every [i] below [numInputs] and so does [inputs[i]] where the
    split is [ROWS]. At or above 1 neither array is read. *)
Theorem cudaPrefetchInputs_defined (ctx : DaphneContext)
    (inputs : list Structure) (numInputs : nat) (mem_required : N)
    (splits : list VectorSplit) :
  is_Some (cudaPrefetchInputs ctx inputs numInputs mem_required splits)
  ↔ ∃ cctx, cuda_contexts ctx !! 0 = Some cctx
      ∧ (float_ltb (buffer_usage mem_required (getMemBudget cctx))
           float_one = true →
         ∀ i, i < numInputs →
           ∃ split, splits !! i = Some split
                    ∧ (split = SplitROWS → is_Some (inputs !! i))).
Proof.
  unfold cudaPrefetchInputs.
  destruct (cuda_contexts ctx !! 0) as [cctx|]; simpl;
    [|split; [by intros [? ?]|by intros (? & ? & _)]].
  destruct (float_ltb _ _) eqn:Hlt.
  - rewrite (for_range_defined (readable inputs splits)).
    + split.
      * intros H. exists cctx. split; [done|]. intros _ i Hi.
        apply (H i Hi).
      * intros (? & [= <-] & H) i Hi. apply (H Hlt i Hi).
    + intros i prefetched.
      apply (rows_body_defined inputs splits
               (λ _ i prefetched, prefetched ++ [i]) i prefetched).
  - split; [|intros _; by eexists].
    intros _. exists cctx. split; [done|]. by rewrite Hlt.
Qed.

(** *** The order of the inputs *)

Lemma getInputProperties_all (sizeof_VT : N) (inputs : list Structure)
    (splits : list VectorSplit) :
  length inputs = length splits →
  getInputProperties sizeof_VT inputs (length inputs) splits
  = Some (largest_numRows (rows_split_inputs inputs splits),
          wrap64 (total_bytes sizeof_VT (rows_split_inputs inputs splits))).
Proof.
  intros Hlen.
  rewrite InputProperties.getInputProperties_prefix by lia.
  by rewrite !take_ge by lia.
Qed.

Lemma largest_numRows_perm (l1 l2 : list Structure) :
  l1 ≡ₚ l2 → largest_numRows l1 = largest_numRows l2.
Proof.
  intros Hp. unfold largest_numRows.
  assert (Proper ((≡ₚ) ==> (=)) (foldr N.max 0%N)) as Hproper.
  { apply foldr_permutation_proper;
      [apply _|by intros ? ? ? ->|intros; lia]. }
  by apply Hproper, fmap_Permutation.
Qed.

Lemma total_bytes_perm (sz : N) (l1 l2 : list Structure) :
  l1 ≡ₚ l2 → total_bytes sz l1 = total_bytes sz l2.
Proof.
  intros Hp. unfold total_bytes.
  assert (Proper ((≡ₚ) ==> (=)) (foldr N.add 0%N)) as Hproper.
  { apply foldr_permutation_proper;
      [apply _|by intros ? ? ? ->|intros; lia]. }
  by apply Hproper, fmap_Permutation.
Qed.

(** X2. The result of [getInputProperties] does not depend on the order
    of the inputs: inputs given in another order, each with its split,
    give the same row count and the same memory requirement. *)
Theorem getInputProperties_permutation (sizeof_VT : N)
    (inputs inputs' : list Structure) (splits splits' : list VectorSplit) :
  length inputs = length splits → length inputs' = length splits' →
  zip inputs splits ≡ₚ zip inputs' splits' →
  getInputProperties sizeof_VT inputs (length inputs) splits
  = getInputProperties sizeof_VT inputs' (length inputs') splits'.
Proof.
  intros H1 H2 Hp. rewrite !getInputProperties_all by done.
  assert (rows_split_inputs inputs splits
          ≡ₚ rows_split_inputs inputs' splits') as Hrows.
  { unfold rows_split_inputs. by apply omap_Permutation. }
  by rewrite (largest_numRows_perm _ _ Hrows),
    (total_bytes_perm _ _ _ Hrows).
Qed.

Lemma getInputProperties_permutation_witness :
  getInputProperties 8 example_inputs (length example_inputs) example_splits
  = getInputProperties 8 (reverse example_inputs)
      (length (reverse example_inputs)) (reverse example_splits).
Proof.
  apply (getInputProperties_permutation 8 example_inputs
           (reverse example_inputs) example_splits (reverse example_splits));
    [reflexivity|reflexivity|].
  apply (Permutation_sym
           (reverse_Permutation (zip example_inputs example_splits))).
Defined.

End InputFacts.

(** ** The prefetch test in the amount of memory and the budget *)

Module PrefetchOrder.
Import MTWrapper.

Lemma round24_mono_N (a b : N) :
  (a ≤ b)%N → (round24 (Z.of_N a) ≤ round24 (Z.of_N b))%Z.
Proof.
  intros Hab. destruct (decide (a = 0%N)) as [->|Ha].
  - change (round24 (Z.of_N 0)) with 0%Z.
    destruct (decide (b = 0%N)) as [->|Hb]; [done|].
    pose proof (FloatFacts.round24_pos (Z.of_N b)). lia.
  - apply FloatFacts.round24_mono; lia.
Qed.

Lemma below_one_monotone (mem mem' budget budget' : N) :
  (mem ≤ mem')%N → (mem' < 2 ^ 64)%N →
  (budget ≤ budget')%N → (budget' < 2 ^ 64)%N →
  float_ltb (buffer_usage mem' budget) float_one = true →
  float_ltb (buffer_usage mem budget') float_one = true.
Proof.
  intros Hm Hm' Hb Hb' Hlt.
  apply Prefetch.buffer_usage_below_one in Hlt; [|lia..].
  apply Prefetch.buffer_usage_below_one; [lia..|].
  pose proof (round24_mono_N _ _ Hm). pose proof (round24_mono_N _ _ Hb).
  lia.
Qed.

(** X16. The prefetch decision of [cudaPrefetchInputs] is monotone, in
    spite of the rounding to single precision: when inputs are moved to
    the device for some memory requirement and budget, the same inputs
    are moved for every smaller requirement and every larger budget. *)
Theorem cudaPrefetchInputs_monotone (ctx ctx' : DaphneContext)
    (cctx cctx' : CUDAContext) (inputs : list Structure) (numInputs : nat)
    (mem_required mem_required' : N) (splits : list VectorSplit)
    (prefetched : list nat) :
  cuda_contexts ctx !! 0 = Some cctx →
  cuda_contexts ctx' !! 0 = Some cctx' →
  (mem_required ≤ mem_required')%N → (mem_required' < 2 ^ 64)%N →
  (getMemBudget cctx ≤ getMemBudget cctx')%N →
  (getMemBudget cctx' < 2 ^ 64)%N →
  cudaPrefetchInputs ctx inputs numInputs mem_required' splits
  = Some prefetched →
  prefetched ≠ [] →
  cudaPrefetchInputs ctx' inputs numInputs mem_required splits
  = Some prefetched.
Proof.
  intros Hc Hc' Hm Hm' Hb Hb'. unfold cudaPrefetchInputs.
  rewrite Hc, Hc'. simpl.
  destruct (float_ltb (buffer_usage mem_required' _) _) eqn:Hlt.
  - by rewrite (below_one_monotone _ _ _ _ Hm Hm' Hb Hb' Hlt).
  - by intros [= <-].
Qed.

Lemma cudaPrefetchInputs_monotone_witness :
  cudaPrefetchInputs (mkContext 0 true [mkCUDAContext 8589934593])
    example_inputs 3 239 example_splits
  = Some [0; 2].
Proof.
  apply (cudaPrefetchInputs_monotone example_ctx
           (mkContext 0 true [mkCUDAContext 8589934593])
           (mkCUDAContext 8589934592) (mkCUDAContext 8589934593)
           example_inputs 3 239 240 example_splits [0; 2]);
    try reflexivity; try (simpl; lia); done.
Defined.

End PrefetchOrder.

(** ** The thread counts of a fresh wrapper *)

Module Construction.
Import MTWrapper.

(** X19. The constructor beyond the count of CPU workers. A configured
    number of threads that is negative selects the hardware concurrency
    as 0 does. There are CUDA workers only when CUDA is in use, the
    pipeline has more than one function and there is a CUDA context.
    The total is the sum of the two counts modulo [2^32], and the sum
    itself when both are below [2^31]. The topology vectors start empty,
    and the argument [numThreads] has no influence. *)
Theorem construct_counts (hardware_concurrency numThreads numThreads'
    numFunctions : N) (ctx : DaphneContext) :
  int_range (config_numberOfThreads ctx) →
  let w := construct hardware_concurrency numThreads numFunctions ctx in
  ((config_numberOfThreads ctx ≤ 0)%Z →
     _numCPPThreads w = hardware_concurrency)
  ∧ (_numCUDAThreads w ≠ 0%N →
     useCUDA ctx = true ∧ (1 < numFunctions)%N ∧ cuda_contexts ctx ≠ [])
  ∧ _numThreads w = wrap32 (_numCPPThreads w + _numCUDAThreads w)
  ∧ ((hardware_concurrency < 2 ^ 31)%N →
     (N.of_nat (length (cuda_contexts ctx)) < 2 ^ 31)%N →
     _numThreads w = (_numCPPThreads w + _numCUDAThreads w)%N
     ∧ _numCUDAThreads w
       = (if useCUDA ctx && (1 <? numFunctions)%N
          then N.of_nat (length (cuda_contexts ctx)) else 0%N))
  ∧ topology_physical_ids w = [] ∧ topology_unique_threads w = []
  ∧ construct hardware_concurrency numThreads' numFunctions ctx = w.
Proof.
  intros Hrange w. subst w. unfold construct. simpl.
  split; [|split; [|split; [done|split; [|done]]]].
  - intros Hle. destruct (Z.ltb_spec 0 (config_numberOfThreads ctx)); [lia|done].
  - destruct (useCUDA ctx); simpl; [|done].
    destruct (N.ltb_spec 1 numFunctions); [|done].
    intros Hn. split; [done|]. split; [done|].
    intros Hnil. by rewrite Hnil in Hn.
  - intros Hhc Hlen.
    assert ((if (0 <? config_numberOfThreads ctx)%Z
             then uint32_of_Z (config_numberOfThreads ctx)
             else hardware_concurrency) < 2 ^ 31)%N as Hcpp.
    { destruct (Z.ltb_spec 0 (config_numberOfThreads ctx)); [|done].
      unfold int_range in Hrange.
      rewrite MachineFacts.uint32_of_Z_pos by lia. lia. }
    rewrite (MachineFacts.wrap32_small (N.of_nat _)) by lia.
    split; [|done]. apply MachineFacts.wrap32_small.
    destruct (useCUDA ctx && (1 <? numFunctions)%N); lia.
Qed.

Lemma construct_counts_witness :
  let w := construct 8 1 2 (mkContext (-3) true [mkCUDAContext 1024]) in
  _numCPPThreads w = 8%N ∧ _numCUDAThreads w = 1%N ∧ _numThreads w = 9%N.
Proof.
  assert (int_range (config_numberOfThreads
                       (mkContext (-3) true [mkCUDAContext 1024]))) as Hr.
  { unfold int_range. simpl. lia. }
  destruct (construct_counts 8 1 5 2
              (mkContext (-3) true [mkCUDAContext 1024]) Hr)
    as (Hcpp & _ & _ & Hsum & _).
  split; [apply Hcpp; simpl; lia|]. split; reflexivity.
Defined.

End Construction.

(** ** genGivenVals: when it returns, and what the result is made of *)

Module GenGivenValsMore.
Import GenGivenVals GenGivenValsProofs.

Section More.
Context {VT : Type} `{!EqDecision VT}.
Variable zero : VT.

Lemma generate_csr_empty (stale : nat → VT) (stale_idx : nat → nat)
    (numRows : nat) :
  0 < numRows →
  is_Some (generate_csr zero stale stale_idx numRows []).
Proof.
  intros Hrows. unfold generate_csr.
  rewrite decide_False by lia. simpl length.
  rewrite decide_True by (by rewrite Nat.Div0.mod_0_l).
  simpl. rewrite store_in_range; [by eexists|].
  rewrite length_fmap, length_seq. lia.
Qed.

Lemma nonzero_cols_in_range (numCols : nat) (l : list VT) : ∀ k,
  0 < numCols → Forall (λ c, c < numCols) (nonzero_cols zero numCols k l).
Proof.
  induction l as [|v l IH]; intros k Hpos; simpl; [constructor|].
  apply Forall_app_2; [|by apply IH].
  destruct (decide (v ≠ zero)); [|constructor].
  apply Forall_singleton. apply Nat.mod_upper_bound. lia.
Qed.

Lemma columns_positive (numRows : nat) (elements : list VT) :
  0 < numRows → (length elements mod numRows = 0)%nat → elements ≠ [] →
  0 < length elements / numRows.
Proof.
  intros Hrows Hmod Hne.
  assert (0 < length elements) by (destruct elements; [done|simpl; lia]).
  pose proof (Nat.div_mod (length elements) numRows ltac:(lia)) as Hdiv.
  rewrite Hmod in Hdiv. destruct (length elements / numRows); lia.
Qed.

End More.

(** X20. [genGivenVals] returns a matrix exactly when [numRows] is positive
    and divides the number of elements, for dense and for CSR matrices
    alike; otherwise the remainder is undefined or the assertion stops
    the run. *)
Theorem generate_defined {VT : Type} `{!EqDecision VT} (zero : VT)
    (stale : nat → VT) (stale_idx : nat → nat) (numRows : nat)
    (elements : list VT) :
  (is_Some (generate_dense zero stale numRows elements)
   ↔ 0 < numRows ∧ (length elements mod numRows = 0)%nat)
  ∧ (is_Some (generate_csr zero stale stale_idx numRows elements)
     ↔ 0 < numRows ∧ (length elements mod numRows = 0)%nat).
Proof.
  split; split.
  - unfold generate_dense. destruct (decide (numRows = 0)); [by intros [? ?]|].
    destruct (decide _); [intros _; split; [lia|done]|by intros [? ?]].
  - intros [Hrows Hmod]. rewrite generate_dense_values by done. by eexists.
  - unfold generate_csr. destruct (decide (numRows = 0)); [by intros [? ?]|].
    destruct (decide _); [intros _; split; [lia|done]|by intros [? ?]].
  - intros [Hrows Hmod]. destruct (decide (elements = [])) as [->|Hne].
    + by apply generate_csr_empty.
    + destruct (generate_csr_arrays zero stale stale_idx numRows elements
                  Hrows Hmod Hne) as (offs & -> & _).
      by eexists.
Qed.

(** X21. What a buffer holds before it is written does not reach the
    result: [genGivenVals] for dense matrices returns the same matrix
    whatever the fresh buffer held, and so does [genGivenVals] for CSR
    matrices when there is at least one element. *)
Theorem generate_ignores_stale {VT : Type} `{!EqDecision VT} (zero : VT)
    (stale stale' : nat → VT) (stale_idx stale_idx' : nat → nat)
    (numRows : nat) (elements : list VT) :
  generate_dense zero stale numRows elements
  = generate_dense zero stale' numRows elements
  ∧ (elements ≠ [] →
     generate_csr zero stale stale_idx numRows elements
     = generate_csr zero stale' stale_idx' numRows elements).
Proof.
  destruct (decide (0 < numRows ∧ (length elements mod numRows = 0)%nat))
    as [[Hrows Hmod]|Hno].
  - split; [by rewrite !generate_dense_values|].
    intros Hne.
    destruct (generate_csr_arrays zero stale stale_idx numRows elements
                Hrows Hmod Hne) as (offs & -> & Hlen & Hoffs).
    destruct (generate_csr_arrays zero stale' stale_idx' numRows elements
                Hrows Hmod Hne) as (offs' & -> & Hlen' & Hoffs').
    do 2 f_equal. apply list_eq. intros r.
    destruct (decide (r ≤ numRows)) as [Hr|Hr].
    + by rewrite Hoffs, Hoffs'.
    + rewrite !lookup_ge_None_2; [done|lia..].
  - unfold generate_dense, generate_csr.
    destruct (decide (numRows = 0)); [done|].
    destruct (decide _) as [Hmod|]; [|done].
    destruct Hno. split; [lia|done].
Qed.

Lemma generate_ignores_stale_witness :
  generate_dense 0%Z (λ _, 42%Z) 5 sparse_elements
  = generate_dense 0%Z (λ k, Z.of_nat k) 5 sparse_elements
  ∧ generate_csr 0%Z (λ _, 42%Z) (λ _, 7) 5 sparse_elements
    = generate_csr 0%Z (λ k, Z.of_nat k) (λ k, k) 5 sparse_elements.
Proof.
  destruct (generate_ignores_stale 0%Z (λ _, 42%Z) (λ k, Z.of_nat k)
              (λ _, 7) (λ k, k) 5 sparse_elements) as [Hd Hc].
  split; [exact Hd|]. apply Hc. discriminate.
Defined.

(** X22. The CSR matrix that [genGivenVals] returns stores no zero, as
    many values as column indices, namely one per nonzero element, and
    every column index is below the number of columns. *)
Theorem generate_csr_stored {VT : Type} `{!EqDecision VT} (zero : VT)
    (stale : nat → VT) (stale_idx : nat → nat) (numRows : nat)
    (elements : list VT) (m : CSRMatrix VT) :
  elements ≠ [] →
  generate_csr zero stale stale_idx numRows elements = Some m →
  Forall (λ v, v ≠ zero) (csr_values m)
  ∧ Forall (λ c, c < csr_numCols m) (csr_colIdxs m)
  ∧ length (csr_values m) = count_nonzeros zero elements
  ∧ length (csr_colIdxs m) = count_nonzeros zero elements.
Proof.
  intros Hne Hrun.
  assert (0 < numRows ∧ (length elements mod numRows = 0)%nat)
    as [Hrows Hmod].
  { unfold generate_csr in Hrun.
    destruct (decide (numRows = 0)); [done|].
    destruct (decide _); [split; [lia|done]|done]. }
  destruct (generate_csr_arrays zero stale stale_idx numRows elements
              Hrows Hmod Hne) as (offs & Hm & _).
  rewrite Hm in Hrun. injection Hrun as <-. simpl.
  pose proof (columns_positive numRows elements Hrows Hmod Hne) as Hcols.
  split; [|split; [by apply nonzero_cols_in_range|split]].
  - apply Forall_forall. intros v Hv.
    unfold nonzeros in Hv. by apply list_elem_of_filter in Hv as [? _].
  - by rewrite count_nonzeros_length.
  - by rewrite length_nonzero_cols, count_nonzeros_length.
Qed.

Lemma generate_csr_stored_witness :
  Forall (λ v, v ≠ 0%Z) [1; 2; 3; 4; 5; 6]%Z
  ∧ Forall (λ c, c < 4) [1; 0; 3; 2; 0; 1]
  ∧ length [1; 2; 3; 4; 5; 6]%Z = count_nonzeros 0%Z sparse_elements
  ∧ length [1; 0; 3; 2; 0; 1] = count_nonzeros 0%Z sparse_elements.
Proof.
  apply (generate_csr_stored 0%Z (λ _, 42%Z) (λ _, 7) 5 sparse_elements
           (mkCSR 5 4 [1; 2; 3; 4; 5; 6]%Z [1; 0; 3; 2; 0; 1]
              [0; 1; 3; 3; 4; 6]));
    [discriminate|reflexivity].
Defined.

End GenGivenValsMore.
